(** * crane-relay: the v2 event pipeline of [src/index.ts]

    A shallow embedding of the relay worker's v2 surface (event validation,
    idempotent ingestion, provenance check, rolling-comment rendering and
    upsert, label transitions) and the properties its specification states
    about them.  The later parts embed the rest of the worker (the
    directive endpoints, the evidence endpoints, the encoding of the app
    token) with properties read off the code.

    Conventions of the embedding.
    - A JavaScript value that the worker reads from JSON (request payloads,
      forge answers, the label rules) is a [value].  Numbers are the
      integer-valued ones ([Z]); an object is its property list in
      enumeration order.
    - A string is a [string] holding the UTF-8 encoding of the text, a
      JavaScript string being a sequence of UTF-16 code units.  [Js.length]
      counts the code units of the encoded text and [Js.trim] strips the
      white space and line terminators of ECMAScript, so a text such as
      two CJK characters (six bytes) has length 2, as in the source.
      [toLowerCase] is used by the source on commit hashes only, which it
      then matches against [0-9a-f]; the lower-casing of the model acts on
      the ASCII letters.
    - An [async] function is a state-and-exception computation over a
      [World]: the D1 tables, the forge calls issued so far and the clock.
      What a computation did before it threw stays done.
    - The runtime and the services are parameters: [JSON.parse], [Number] on
      strings, SHA-256, the clock and the forge's answers.  The forge
      answers every call (a status, a text, a JSON body or none); a D1
      statement succeeds, except an insert that repeats a primary key; the
      bucket keeps the object put under a key until the key is put again. *)

From Stdlib Require Import ZArith List String Ascii Bool Lia.
From Stdlib Require Import Numbers.DecimalString.
Import ListNotations.

Open Scope string_scope.
Open Scope Z_scope.

Set Warnings "-register-all,-notation-for-abbreviation".

(* ------------------------------------------------------------------ *)
(** * JavaScript values                                                 *)
(* ------------------------------------------------------------------ *)

Inductive value : Type :=
| JUndefined
| JNull
| JBool (b : bool)
| JNum (n : Z)
| JStr (s : string)
| JArr (items : list value)
| JObj (fields : list (string * value)).

(** What the source can throw.  The text of an error raised by the engine
    is the engine's own; the model keeps a short description in its place. *)
Inductive exn : Type :=
| TypeError (what : string)
| SyntaxError (what : string)
| Error (message : string).

Inductive outcome (A : Type) : Type :=
| Return (a : A)
| Throw (e : exn).
Arguments Return {A} a.
Arguments Throw {A} e.

Definition obind {A B} (o : outcome A) (k : A -> outcome B) : outcome B :=
  match o with
  | Return a => k a
  | Throw e => Throw e
  end.

Module Js.

(** [ToBoolean]. *)
Definition truthy (v : value) : bool :=
  match v with
  | JUndefined | JNull => false
  | JBool b => b
  | JNum n => negb (n =? 0)
  | JStr s => negb (s =? "")%string
  | JArr _ | JObj _ => true
  end.

(** [x == null], that is [x] is [null] or [undefined]. *)
Definition nullish (v : value) : bool :=
  match v with
  | JUndefined | JNull => true
  | _ => false
  end.

(** [typeof x === "object"]. *)
Definition typeof_object (v : value) : bool :=
  match v with
  | JNull | JArr _ | JObj _ => true
  | _ => false
  end.

(** [typeof x === "string"]. *)
Definition typeof_string (v : value) : bool :=
  match v with
  | JStr _ => true
  | _ => false
  end.

Definition isArray (v : value) : bool :=
  match v with
  | JArr _ => true
  | _ => false
  end.

(** [a || b] on values. *)
Definition or (a b : value) : value := if truthy a then a else b.

Fixpoint assoc (k : string) (fs : list (string * value)) : value :=
  match fs with
  | [] => JUndefined
  | (k', v) :: rest => if (k =? k')%string then v else assoc k rest
  end.

(** [v.k] where [v] is known not to be [null] or [undefined], for a name
    [k] that is neither an index nor a built-in member: an own property of
    an object, [undefined] on anything else. *)
Definition prop (v : value) (k : string) : value :=
  match v with
  | JObj fs => assoc k fs
  | _ => JUndefined
  end.

(** [v.k] in general: reading a property of [null] or [undefined] throws. *)
Definition member (v : value) (k : string) : outcome value :=
  match v with
  | JUndefined | JNull => Throw (TypeError ("Cannot read properties of null or undefined: " ++ k))
  | _ => Return (prop v k)
  end.

(** [v?.k]. *)
Definition opt_member (v : value) (k : string) : value :=
  match v with
  | JUndefined | JNull => JUndefined
  | _ => prop v k
  end.

Definition Z_to_string (n : Z) : string :=
  NilEmpty.string_of_int (Z.to_int n).

(** [String(v)], also the coercion of a template literal. *)
Fixpoint String (v : value) : string :=
  match v with
  | JUndefined => "undefined"
  | JNull => "null"
  | JBool true => "true"
  | JBool false => "false"
  | JNum n => Z_to_string n
  | JStr s => s
  | JArr xs =>
      String.concat ","
        (map (fun x => match x with
                       | JUndefined | JNull => ""
                       | _ => String x
                       end) xs)
  | JObj _ => "[object Object]"
  end.

(** [s.length]: the number of UTF-16 code units of the text.  A character
    encoded on one, two or three bytes is one unit, a character encoded on
    four bytes is a surrogate pair; the bytes that continue a character
    (10xxxxxx) count for nothing. *)
Definition units (c : ascii) : nat :=
  let n := nat_of_ascii c in
  if (n <? 128)%nat then 1%nat
  else if (n <? 192)%nat then 0%nat
  else if (n <? 240)%nat then 1%nat
  else 2%nat.

Fixpoint length (s : string) : nat :=
  match s with
  | EmptyString => 0%nat
  | String.String c r => (units c + length r)%nat
  end.

(** The white space and the line terminators of ECMAScript, which
    [String.prototype.trim] strips: U+0009 to U+000D and U+0020 (one
    byte), U+00A0 (two bytes), and U+1680, U+2000 to U+200A, U+2028,
    U+2029, U+202F, U+205F, U+3000 and U+FEFF (three bytes). *)
Definition byte_is (n : nat) (c : ascii) : bool := (nat_of_ascii c =? n)%nat.

Definition is_space (c : ascii) : bool :=
  let n := nat_of_ascii c in
  ((9 <=? n)%nat && (n <=? 13)%nat) || (n =? 32)%nat.

Definition is_space2 (a b : ascii) : bool :=
  byte_is 194 a && byte_is 160 b.

Definition is_space3 (a b c : ascii) : bool :=
  (byte_is 225 a && byte_is 154 b && byte_is 128 c)
  || (byte_is 226 a && byte_is 128 b
      && (let n := nat_of_ascii c in
          ((128 <=? n)%nat && (n <=? 138)%nat)
          || (n =? 168)%nat || (n =? 169)%nat || (n =? 175)%nat))
  || (byte_is 226 a && byte_is 129 b && byte_is 159 c)
  || (byte_is 227 a && byte_is 128 b && byte_is 128 c)
  || (byte_is 239 a && byte_is 187 b && byte_is 191 c).

Fixpoint trimStart (s : string) : string :=
  match s with
  | EmptyString => EmptyString
  | String.String a r1 =>
      if is_space a then trimStart r1 else
      match r1 with
      | EmptyString => s
      | String.String b r2 =>
          if is_space2 a b then trimStart r2 else
          match r2 with
          | EmptyString => s
          | String.String c r3 => if is_space3 a b c then trimStart r3 else s
          end
      end
  end.

(** From the end: what is white space up to the end goes, the rest stays. *)
Fixpoint trimEnd (s : string) : string :=
  match s with
  | EmptyString => EmptyString
  | String.String c r =>
      if (trimStart s =? "")%string then EmptyString else String.String c (trimEnd r)
  end.

Definition trim (s : string) : string := trimEnd (trimStart s).

Definition lower_char (c : ascii) : ascii :=
  let n := nat_of_ascii c in
  if (65 <=? n)%nat && (n <=? 90)%nat then ascii_of_nat (n + 32) else c.

Fixpoint toLowerCase (s : string) : string :=
  match s with
  | EmptyString => EmptyString
  | String.String c r => String.String (lower_char c) (toLowerCase r)
  end.

Definition startsWith (s p : string) : bool := String.prefix p s.

(** [s.includes(needle)]. *)
Fixpoint includes (s needle : string) : bool :=
  String.prefix needle s
  || match s with
     | EmptyString => false
     | String.String _ r => includes r needle
     end.

(** [s.slice(from, to)] for [0 <= from <= to]. *)
Definition slice (s : string) (from to : nat) : string :=
  String.substring from (to - from) s.

(** [xs.includes(s)] for an array of string literals. *)
Definition one_of (xs : list string) (s : string) : bool :=
  existsb (String.eqb s) xs.

(** [xs.includes(v)] for an array of string literals and any [v]:
    SameValueZero never equates a string with a value of another type. *)
Definition value_one_of (xs : list string) (v : value) : bool :=
  match v with
  | JStr s => one_of xs s
  | _ => false
  end.

(** [v === "lit"]. *)
Definition is_str (v : value) (lit : string) : bool :=
  match v with
  | JStr s => (s =? lit)%string
  | _ => false
  end.

Definition hex_digit (n : nat) : ascii :=
  match n with
  | 0 => "0" | 1 => "1" | 2 => "2" | 3 => "3" | 4 => "4" | 5 => "5"
  | 6 => "6" | 7 => "7" | 8 => "8" | 9 => "9" | 10 => "a" | 11 => "b"
  | 12 => "c" | 13 => "d" | 14 => "e" | _ => "f"
  end%char%nat.

Definition dquote : ascii := "034"%char.
Definition backslash : ascii := "092"%char.

(** The escape of one character inside a JSON string. *)
Definition escape_char (c : ascii) : string :=
  let n := nat_of_ascii c in
  let esc (x : string) := String.String backslash x in
  if (n =? 34)%nat then esc (String.String c "")
  else if (n =? 92)%nat then esc (String.String c "")
  else if (n =? 8)%nat then esc "b"
  else if (n =? 9)%nat then esc "t"
  else if (n =? 10)%nat then esc "n"
  else if (n =? 12)%nat then esc "f"
  else if (n =? 13)%nat then esc "r"
  else if (n <? 32)%nat then
    esc ("u00" ++ String.String (hex_digit (n / 16)) (String.String (hex_digit (n mod 16)) ""))
  else String.String c "".

Fixpoint escape (s : string) : string :=
  match s with
  | EmptyString => EmptyString
  | String.String c r => escape_char c ++ escape r
  end.

Definition quote (s : string) : string :=
  String.String dquote (escape s ++ String.String dquote "").

(** [JSON.stringify(v)] for a [v] that is not [undefined] itself: a member
    whose value is [undefined] is left out of an object and printed as
    [null] inside an array. *)
Fixpoint stringify (v : value) : string :=
  match v with
  | JUndefined | JNull => "null"
  | JBool true => "true"
  | JBool false => "false"
  | JNum n => Z_to_string n
  | JStr s => quote s
  | JArr xs => "[" ++ String.concat "," (map stringify xs) ++ "]"
  | JObj fs =>
      "{" ++ String.concat ","
               ((fix members (l : list (string * value)) : list string :=
                   match l with
                   | [] => []
                   | (_, JUndefined) :: rest => members rest
                   | (k, v') :: rest => (quote k ++ ":" ++ stringify v') :: members rest
                   end) fs)
          ++ "}"
  end.

(** [JSON.parse(JSON.stringify(v))]: what is left of [v] after a round
    trip through its serialization. *)
Fixpoint reparse (v : value) : value :=
  match v with
  | JUndefined => JNull
  | JArr xs => JArr (map reparse xs)
  | JObj fs =>
      JObj ((fix members (l : list (string * value)) : list (string * value) :=
               match l with
               | [] => []
               | (_, JUndefined) :: rest => members rest
               | (k, v') :: rest => (k, reparse v') :: members rest
               end) fs)
  | _ => v
  end.

End Js.


(* ------------------------------------------------------------------ *)
(** * Types of the v2 surface                                           *)
(* ------------------------------------------------------------------ *)

(** [RelayEvent["build"]]: [{ pr?: number; commit_sha: string }]. *)
Record Build : Type := {
  commit_sha : string;
  pr : option Z
}.

(** [ScopeResult] as [validateEvent] builds it. *)
Record ScopeResult : Type := {
  sr_id : string;
  sr_status : string;
  sr_notes : option string
}.

(** The object [event] that [validateEvent] returns.  A member that the
    validator copies from the payload without a coercion is a [value]
    ([JUndefined] when the payload has none). *)
Record RelayEvent : Type := {
  event_id : string;
  repo : string;
  issue_number : Z;
  role : string;
  agent : string;
  event_type : string;
  summary : option string;
  environment : option string;
  build : option Build;
  overall_verdict : value;
  scope_results : option (list ScopeResult);
  severity : value;
  repro_steps : value;
  expected : value;
  actual : value;
  evidence_urls : option (list string);
  artifacts : value;
  details : value
}.

(** [{ ok: true; event } | { ok: false; message }]. *)
Inductive validation : Type :=
| Valid (event : RelayEvent)
| Invalid (message : string).

Definition RELAY_STATUS_MARKER : string := "<!-- RELAY_STATUS v2 -->".

(** [/^[0-9a-f]{7,40}$/i.test(s)]. *)
Definition is_hex_char (c : ascii) : bool :=
  let n := nat_of_ascii c in
  ((48 <=? n) && (n <=? 57) || (97 <=? n) && (n <=? 102) || (65 <=? n) && (n <=? 70))%nat.

Fixpoint all_chars (p : ascii -> bool) (s : string) : bool :=
  match s with
  | EmptyString => true
  | String c r => p c && all_chars p r
  end.

Definition isHexSha (s : string) : bool :=
  ((7 <=? String.length s) && (String.length s <=? 40))%nat && all_chars is_hex_char s.

(** [/^[^/]+\/[^/]+$/.test(s)]: one slash, with text on both sides. *)
Definition not_slash (c : ascii) : bool := negb (Ascii.eqb c "/").

Fixpoint slug_from (seen : bool) (s : string) : bool :=
  match s with
  | EmptyString => false
  | String c r =>
      if Ascii.eqb c "/"
      then seen && negb (r =? "")%string && all_chars not_slash r
      else slug_from true r
  end.

Definition isRepoSlug (s : string) : bool := slug_from false s.

Definition opt_str (o : option string) : value :=
  match o with
  | Some s => JStr s
  | None => JUndefined
  end.

Definition opt_num (o : option Z) : value :=
  match o with
  | Some n => JNum n
  | None => JUndefined
  end.

Definition ScopeResult_object (r : ScopeResult) : value :=
  JObj [("id", JStr (sr_id r)); ("status", JStr (sr_status r)); ("notes", opt_str (sr_notes r))].

Definition Build_object (b : Build) : value :=
  JObj [("commit_sha", JStr (commit_sha b)); ("pr", opt_num (pr b))].

(** The JavaScript object that a [RelayEvent] stands for: the object literal
    at the end of [validateEvent], members in its order. *)
Definition RelayEvent_object (ev : RelayEvent) : value :=
  JObj [ ("event_id", JStr (event_id ev));
         ("repo", JStr (repo ev));
         ("issue_number", JNum (issue_number ev));
         ("role", JStr (role ev));
         ("agent", JStr (agent ev));
         ("event_type", JStr (event_type ev));
         ("summary", opt_str (summary ev));
         ("environment", opt_str (environment ev));
         ("build", match build ev with
                   | Some b => Build_object b
                   | None => JUndefined
                   end);
         ("overall_verdict", overall_verdict ev);
         ("scope_results", match scope_results ev with
                           | Some rs => JArr (map ScopeResult_object rs)
                           | None => JUndefined
                           end);
         ("severity", severity ev);
         ("repro_steps", repro_steps ev);
         ("expected", expected ev);
         ("actual", actual ev);
         ("evidence_urls", match evidence_urls ev with
                           | Some us => JArr (map JStr us)
                           | None => JUndefined
                           end);
         ("artifacts", artifacts ev);
         ("details", details ev) ].

(** The names that [validateEvent] reads from the payload. *)
Definition schema_fields : list string :=
  [ "event_id"; "repo"; "issue_number"; "role"; "agent"; "event_type"; "build";
    "environment"; "overall_verdict"; "scope_results"; "severity";
    "repro_steps"; "expected"; "actual"; "evidence_urls"; "summary";
    "artifacts"; "details" ].

(* ------------------------------------------------------------------ *)
(** * Storage, forge and the world of a request                         *)
(* ------------------------------------------------------------------ *)

(** A row of table [events] (migration: [event_id TEXT PRIMARY KEY]).  The
    column [overall_verdict] holds the value the handler binds to it. *)
Record EventRow : Type := {
  row_event_id : string;
  row_repo : string;
  row_issue_number : Z;
  row_event_type : string;
  row_role : string;
  row_agent : string;
  row_environment : option string;
  row_overall_verdict : value;
  row_created_at : string;
  row_payload_hash : string;
  row_payload_json : string
}.

(** A row of table [relay_status_comment], primary key [(repo, issue_number)]. *)
Record CommentRow : Type := {
  map_repo : string;
  map_issue_number : Z;
  map_comment_id : string;
  map_updated_at : string
}.

(** The D1 database [env.DB], rows in insertion order. *)
Record DB : Type := {
  events : list EventRow;
  relay_status_comment : list CommentRow
}.

(** The requests the v2 pipeline sends to the forge through [githubFetch]:
    method and path, with the body where there is one. *)
Inductive ForgeCall : Type :=
| MintToken
| GetPull (repo : string) (prNumber : Z)
| GetIssue (repo : string) (issueNumber : Z)
| ListComments (repo : string) (issueNumber : Z) (perPage : Z) (page : Z)
| CreateComment (repo : string) (issueNumber : Z) (body : string)
| UpdateComment (repo : string) (commentId : string) (body : string)
| PutLabels (repo : string) (issueNumber : Z) (labels : list value).

(** The forge's answer: [res.status], [res.text()] and [res.json()]
    ([None] when the body is not JSON and [res.json()] rejects). *)
Record ForgeResponse : Type := {
  status : Z;
  text : string;
  json : option value
}.

Definition res_ok (r : ForgeResponse) : bool :=
  (200 <=? status r) && (status r <=? 299).

(** What one request runs in: the database, the forge calls made so far
    (oldest first) and the number of clock readings taken. *)
Record World : Type := {
  db : DB;
  calls : list ForgeCall;
  ticks : nat
}.

(** An [async] function of the source. *)
Definition M (A : Type) : Type := World -> outcome A * World.

Definition ret {A} (a : A) : M A := fun w => (Return a, w).

Definition throw {A} (e : exn) : M A := fun w => (Throw e, w).

Definition bind {A B} (c : M A) (k : A -> M B) : M B :=
  fun w =>
    match c w with
    | (Return a, w') => k a w'
    | (Throw e, w') => (Throw e, w')
    end.

(** [try { c } catch { h }]: what [c] did to the world stays done. *)
Definition try_catch {A} (c : M A) (h : exn -> M A) : M A :=
  fun w =>
    match c w with
    | (Return a, w') => (Return a, w')
    | (Throw e, w') => h e w'
    end.

(** A synchronous computation that may throw, inside an [async] one. *)
Definition lift {A} (o : outcome A) : M A := fun w => (o, w).

Declare Scope relay_scope.
Delimit Scope relay_scope with relay.
Notation "x <- c ;; k" := (bind c (fun x => k))
  (at level 61, c at next level, right associativity) : relay_scope.
Notation "c ;;; k" := (bind c (fun _ => k))
  (at level 61, right associativity) : relay_scope.
Notation "x <~ c ;; k" := (obind c (fun x => k))
  (at level 61, c at next level, right associativity) : relay_scope.
Open Scope relay_scope.

Definition get_db : M DB := fun w => (Return (db w), w).

Definition put_db (d : DB) : M unit :=
  fun w => (Return tt, {| db := d; calls := calls w; ticks := ticks w |}).

(** The worker's answer: status and body.  A body built by [v2Json] is
    the data it serializes. *)
Inductive HttpBody : Type :=
| BodyJson (data : value)
| BodyText (s : string).

Record HttpResponse : Type := {
  http_status : Z;
  http_body : HttpBody
}.

(** The inbound request, as far as the handler reads it: the header
    [x-relay-key] and the body text. *)
Record Request : Type := {
  x_relay_key : option string;
  req_body : string
}.

(** The bindings of [Env] the v2 pipeline reads besides the database. *)
Record Env : Type := {
  RELAY_SHARED_SECRET : string;
  LABEL_RULES_JSON : string
}.

Definition v2Json (data : value) (st : Z) : HttpResponse :=
  {| http_status := st; http_body := BodyJson data |}.

Definition badRequest (message : string) (details_ : value) : HttpResponse :=
  v2Json (JObj [("error", JStr message); ("details", details_)]) 400.

Definition conflict (message : string) (details_ : value) : HttpResponse :=
  v2Json (JObj [("error", JStr message); ("details", details_)]) 409.

Definition unauthorized : HttpResponse :=
  {| http_status := 401; http_body := BodyText "Unauthorized" |}.

(** The argument of [renderRelayStatusMarkdown]. *)
Record Provenance : Type := {
  pv_pr : option Z;
  pv_commit : option string;
  pv_verified : option bool;
  pv_prHead : option string;
  pv_environment : option string
}.

(** A row of the recent-activity query. *)
Record RecentRow : Type := {
  rc_created_at : string;
  rc_event_type : string;
  rc_agent : string
}.

Record RenderInput : Type := {
  in_issue : value;
  in_repo : string;
  in_issueNumber : Z;
  in_provenance : Provenance;
  in_latestDev : value;
  in_latestQa : value;
  in_recent : list RecentRow
}.

(** The line feed of [join("\n")]. *)
Definition LF : string := String "010"%char "".

(* ------------------------------------------------------------------ *)
(** * Example data                                                      *)
(* ------------------------------------------------------------------ *)

(** The scenarios of the specification, as data: payloads, the validated
    events, forges and worlds.  They instantiate the parameters of the
    worker in the examples that follow the properties. *)
Module Examples.

(** [Number] on the strings of decimal digits; the examples pass numbers
    as numbers. *)
Fixpoint digits (acc : Z) (s : string) : option Z :=
  match s with
  | EmptyString => Some acc
  | String c r =>
      let n := nat_of_ascii c in
      if ((48 <=? n) && (n <=? 57))%nat
      then digits (10 * acc + Z.of_nat (n - 48)) r
      else None
  end.

Definition number (s : string) : option Z := digits 0 s.

(** [JSON.parse] on the serializations of the values in [known]. *)
Definition parse_known (known : list value) (s : string) : option value :=
  option_map Js.reparse (find (fun v => (Js.stringify v =? s)%string) known).

(** A stand-in for SHA-256; the properties hold for any function. *)
Definition digest (s : string) : string := "sha256:" ++ s.

Definition clock (n : nat) : string :=
  "2024-05-06T07:08:0" ++ Js.Z_to_string (Z.of_nat (n mod 10)) ++ ".000Z".

(** Scenario 1 of the specification. *)
Definition payload_pass : value :=
  JObj [ ("event_id", JStr "evt-00000001");
         ("repo", JStr "acme/web");
         ("issue_number", JNum 42);
         ("role", JStr "QA");
         ("agent", JStr "qa-bot");
         ("event_type", JStr "qa.result_submitted");
         ("overall_verdict", JStr "PASS");
         ("build", JObj [("pr", JNum 7); ("commit_sha", JStr "ABC1234DEF")]) ].

Definition event_pass : RelayEvent :=
  {| event_id := "evt-00000001";
     repo := "acme/web";
     issue_number := 42;
     role := "QA";
     agent := "qa-bot";
     event_type := "qa.result_submitted";
     summary := None;
     environment := None;
     build := Some {| commit_sha := "abc1234def"; pr := Some 7 |};
     overall_verdict := JStr "PASS";
     scope_results := None;
     severity := JUndefined;
     repro_steps := JUndefined;
     expected := JUndefined;
     actual := JUndefined;
     evidence_urls := None;
     artifacts := JUndefined;
     details := JUndefined |}.

(** Scenario 1 with a field that the schema does not know. *)
Definition payload_extra : value :=
  JObj [ ("event_id", JStr "evt-00000001");
         ("repo", JStr "acme/web");
         ("trace_id", JStr "abc-123");
         ("issue_number", JNum 42);
         ("role", JStr "QA");
         ("agent", JStr "qa-bot");
         ("event_type", JStr "qa.result_submitted");
         ("overall_verdict", JStr "PASS");
         ("build", JObj [("pr", JNum 7); ("commit_sha", JStr "ABC1234DEF")]) ].

(** An event without a build. *)
Definition payload_nobuild : value :=
  JObj [ ("event_id", JStr "evt-00000002");
         ("repo", JStr "acme/web");
         ("issue_number", JNum 42);
         ("role", JStr "DEV");
         ("agent", JStr "dev-bot");
         ("event_type", JStr "dev.update");
         ("summary", JStr "fixed the login form") ].

Definition event_nobuild : RelayEvent :=
  {| event_id := "evt-00000002";
     repo := "acme/web";
     issue_number := 42;
     role := "DEV";
     agent := "dev-bot";
     event_type := "dev.update";
     summary := Some "fixed the login form";
     environment := None;
     build := None;
     overall_verdict := JUndefined;
     scope_results := None;
     severity := JUndefined;
     repro_steps := JUndefined;
     expected := JUndefined;
     actual := JUndefined;
     evidence_urls := None;
     artifacts := JUndefined;
     details := JUndefined |}.

(** A FAIL report whose conditional members are not strings: an array, a
    number, a boolean and an object. *)
Definition payload_fail_array : value :=
  JObj [ ("event_id", JStr "evt-00000003");
         ("repo", JStr "acme/web");
         ("issue_number", JNum 42);
         ("role", JStr "QA");
         ("agent", JStr "qa-bot");
         ("event_type", JStr "qa.result_submitted");
         ("overall_verdict", JStr "FAIL");
         ("severity", JArr [JStr "P0"]);
         ("repro_steps", JNum 12345);
         ("expected", JBool true);
         ("actual", JObj []) ].

Definition event_fail_array : RelayEvent :=
  {| event_id := "evt-00000003";
     repo := "acme/web";
     issue_number := 42;
     role := "QA";
     agent := "qa-bot";
     event_type := "qa.result_submitted";
     summary := None;
     environment := None;
     build := None;
     overall_verdict := JStr "FAIL";
     scope_results := None;
     severity := JArr [JStr "P0"];
     repro_steps := JNum 12345;
     expected := JBool true;
     actual := JObj [];
     evidence_urls := None;
     artifacts := JUndefined;
     details := JUndefined |}.

(** Scenario 5: a FAIL report without a severity. *)
Definition payload_fail_bare : value :=
  JObj [ ("event_id", JStr "evt-00000004");
         ("repo", JStr "acme/web");
         ("issue_number", JNum 42);
         ("role", JStr "QA");
         ("agent", JStr "qa-bot");
         ("event_type", JStr "qa.result_submitted");
         ("overall_verdict", JStr "FAIL") ].

(** The same, with a [null] among the scope results. *)
Definition payload_fail_null_scope : value :=
  JObj [ ("event_id", JStr "evt-00000005");
         ("repo", JStr "acme/web");
         ("issue_number", JNum 42);
         ("role", JStr "QA");
         ("agent", JStr "qa-bot");
         ("event_type", JStr "qa.result_submitted");
         ("overall_verdict", JStr "FAIL");
         ("scope_results", JArr [JNull]) ].

(** The rules of scenario 6. *)
Definition rules : value :=
  JObj [ ("qa.result_submitted",
          JObj [ ("PASS", JObj [ ("add", JArr [JStr "status:verified"]);
                                 ("remove", JArr [JStr "status:qa"]) ]);
                 ("FAIL", JObj [ ("add", JArr [JStr "status:rejected"]);
                                 ("remove", JArr [JStr "status:qa"]) ]) ]) ].

Definition issue42 : value :=
  JObj [ ("number", JNum 42);
         ("labels", JArr [ JObj [("name", JStr "status:qa")];
                           JObj [("name", JStr "prio:P1")] ]);
         ("assignees", JArr [ JObj [("login", JStr "octocat")] ]) ].

Definition parse : string -> option value :=
  parse_known [ payload_pass; payload_extra; payload_nobuild; payload_fail_array;
                payload_fail_bare; payload_fail_null_scope; rules;
                RelayEvent_object event_pass; RelayEvent_object event_nobuild;
                RelayEvent_object event_fail_array ].

Definition request_of (payload : value) : Request :=
  {| x_relay_key := Some "s3cret"; req_body := Js.stringify payload |}.

Definition env : Env :=
  {| RELAY_SHARED_SECRET := "s3cret"; LABEL_RULES_JSON := Js.stringify rules |}.

Definition ok_json (v : value) : ForgeResponse :=
  {| status := 200; text := Js.stringify v; json := Some v |}.

Definition marker_comment : value :=
  JObj [ ("id", JNum 77); ("body", JStr (RELAY_STATUS_MARKER ++ LF ++ "## Relay Status")) ].

(** A forge with one issue, no status comment yet; the head of pull
    request 7 is [head]. *)
Definition forge_with_head (head : string) (history : list ForgeCall) (call : ForgeCall)
  : ForgeResponse :=
  match call with
  | MintToken => ok_json (JObj [("token", JStr "ghs_token")])
  | GetPull _ _ => ok_json (JObj [("head", JObj [("sha", JStr head)])])
  | GetIssue _ _ => ok_json issue42
  | ListComments _ _ _ _ => ok_json (JArr [])
  | CreateComment _ _ _ => ok_json (JObj [("id", JNum 1001)])
  | UpdateComment _ _ _ => ok_json (JObj [("id", JNum 1001)])
  | PutLabels _ _ labels => ok_json (JArr labels)
  end.

(** A forge that holds a status comment and refuses its update. *)
Definition forge_refusing_update (history : list ForgeCall) (call : ForgeCall)
  : ForgeResponse :=
  match call with
  | ListComments _ _ _ _ => ok_json (JArr [marker_comment])
  | UpdateComment _ _ _ => {| status := 502; text := "Bad Gateway"; json := None |}
  | _ => forge_with_head "abc1234def" history call
  end.

Definition empty_world : World :=
  {| db := {| events := []; relay_status_comment := [] |}; calls := []; ticks := 0 |}.

(** The table after scenario 1 was stored. *)
Definition stored_pass (verdict hash : string) : EventRow :=
  {| row_event_id := "evt-00000001";
     row_repo := "acme/web";
     row_issue_number := 42;
     row_event_type := "qa.result_submitted";
     row_role := "QA";
     row_agent := "qa-bot";
     row_environment := None;
     row_overall_verdict := JStr verdict;
     row_created_at := clock 0;
     row_payload_hash := hash;
     row_payload_json := Js.stringify (RelayEvent_object event_pass) |}.

Definition world_with (row : EventRow) : World :=
  {| db := {| events := [row]; relay_status_comment := [] |}; calls := []; ticks := 1 |}.

(** A world whose mapping table points at comment 77. *)
Definition mapped_world : World :=
  {| db := {| events := [];
              relay_status_comment :=
                [ {| map_repo := "acme/web"; map_issue_number := 42;
                     map_comment_id := "77"; map_updated_at := clock 0 |} ] |};
     calls := []; ticks := 1 |}.

Definition render_input : RenderInput :=
  {| in_issue := issue42;
     in_repo := "acme/web";
     in_issueNumber := 42;
     in_provenance := {| pv_pr := Some 7;
                         pv_commit := Some "abc1234def";
                         pv_verified := Some false;
                         pv_prHead := Some "ffffffffff";
                         pv_environment := None |};
     in_latestDev := JNull;
     in_latestQa := Js.reparse (RelayEvent_object event_pass);
     in_recent := [ {| rc_created_at := clock 0;
                       rc_event_type := "qa.result_submitted";
                       rc_agent := "qa-bot" |} ] |}.

End Examples.

(* ------------------------------------------------------------------ *)
(** * The worker                                                        *)
(* ------------------------------------------------------------------ *)

Section Relay.

(** [Number(s)] for a string [s]: [None] when the result is [NaN] or
    infinite (or not an integer of the model). *)
Variable Number_of_string : string -> option Z.

(** [JSON.parse(s)]: [None] when it throws. *)
Variable JSON_parse : string -> option value.

(** SHA-256 of the UTF-8 encoding, in hexadecimal. *)
Variable sha256Hex : string -> string.

(** [new Date().toISOString()] at the n-th reading of the clock. *)
Variable clock : nat -> string.

(** The forge: its answer to a call, given the calls it has served. *)
Variable forge : list ForgeCall -> ForgeCall -> ForgeResponse.

Variable env : Env.

Definition nowIso : M string :=
  fun w => (Return (clock (ticks w)),
            {| db := db w; calls := calls w; ticks := S (ticks w) |}).

Definition requireAuth (req : Request) : option HttpResponse :=
  match x_relay_key req with
  | None => Some unauthorized
  | Some key =>
      if (key =? "")%string || negb (key =? RELAY_SHARED_SECRET env)%string
      then Some unauthorized
      else None
  end.

Definition safeInt (x : value) : option Z :=
  match x with
  | JStr s => Number_of_string s
  | JNum n => Some n
  | _ => None
  end.

(** ** Event validation *)

(** [String(x || "").trim()]. *)
Definition trimmed (x : value) : string :=
  Js.trim (Js.String (Js.or x (JStr ""))).

(** One element of [e.scope_results.map(...)]. *)
Definition scope_entry (r : value) : outcome ScopeResult :=
  id_ <~ Js.member r "id" ;;
  status_ <~ Js.member r "status" ;;
  notes_ <~ Js.member r "notes" ;;
  Return {| sr_id := trimmed id_;
            sr_status := trimmed status_;
            sr_notes := if Js.nullish notes_ then None else Some (Js.String notes_) |}.

Fixpoint map_outcome {A B} (f : A -> outcome B) (l : list A) : outcome (list B) :=
  match l with
  | [] => Return []
  | x :: rest =>
      y <~ f x ;;
      ys <~ map_outcome f rest ;;
      Return (y :: ys)
  end.

(** The [for] loop over the mapped scope results: the first complaint. *)
Fixpoint scope_complaint (rs : list ScopeResult) : option string :=
  match rs with
  | [] => None
  | r :: rest =>
      if (sr_id r =? "")%string then Some "scope_results[].id is required"
      else if negb (Js.one_of ["PASS"; "FAIL"; "SKIPPED"] (sr_status r))
      then Some "scope_results[].status must be PASS|FAIL|SKIPPED"
      else scope_complaint rest
  end.

(** The [for] loop over [repro_steps], [expected], [actual]. *)
Fixpoint required_complaint (e : value) (ks : list string) : option string :=
  match ks with
  | [] => None
  | k :: rest =>
      if negb (Js.truthy (Js.prop e k))
         || (Js.length (Js.trim (Js.String (Js.prop e k))) <? 3)%nat
      then Some (k ++ " is required for FAIL/BLOCKED (min length 3)")
      else required_complaint e rest
  end.

(** The block [if (e.build) { ... }]: a rejection, or [build]. *)
Definition validate_build (e_build : value) : validation + option Build :=
  if Js.truthy e_build then
    if negb (Js.typeof_object e_build) then inl (Invalid "build must be an object") else
    let commit_sha := Js.toLowerCase (trimmed (Js.prop e_build "commit_sha")) in
    let pr := if negb (Js.nullish (Js.prop e_build "pr"))
              then safeInt (Js.prop e_build "pr") else None in
    if (commit_sha =? "")%string || negb (isHexSha commit_sha)
    then inl (Invalid "build.commit_sha must be a hex sha (7-40 chars)")
    else inr (Some {| commit_sha := commit_sha;
                      pr := match pr with
                            | Some n => if n =? 0 then None else Some n
                            | None => None
                            end |})
  else inr None.

(** The block [if (e.scope_results != null) { ... }]: it throws on a
    [null] entry, rejects, or gives [scope_results]. *)
Definition validate_scope (e_scope : value)
  : outcome (validation + option (list ScopeResult)) :=
  if negb (Js.nullish e_scope) then
    match e_scope with
    | JArr (r :: items) =>
        rs <~ map_outcome scope_entry (r :: items) ;;
        match scope_complaint rs with
        | Some message => Return (inl (Invalid message))
        | None => Return (inr (Some rs))
        end
    | _ => Return (inl (Invalid "scope_results must be a non-empty array"))
    end
  else Return (inr None).

(** The block [if (overall_verdict === "FAIL" || overall_verdict ===
    "BLOCKED") { ... }]: the message of its first complaint. *)
Definition validate_conditional (e overall_verdict : value) : option string :=
  if Js.is_str overall_verdict "FAIL" || Js.is_str overall_verdict "BLOCKED" then
    if negb (Js.truthy (Js.prop e "severity"))
       || negb (Js.one_of ["P0"; "P1"; "P2"; "P3"] (Js.String (Js.prop e "severity")))
    then Some "severity is required for FAIL/BLOCKED and must be P0|P1|P2|P3"
    else required_complaint e ["repro_steps"; "expected"; "actual"]
  else None.

(** [evidence_urls]: [inl] stands for the [null] of a non-array. *)
Definition validate_evidence (e_urls : value) : unit + option (list string) :=
  if Js.truthy e_urls
  then match e_urls with
       | JArr us => inr (Some (map Js.String us))
       | _ => inl tt
       end
  else inr None.

Definition validateEvent (e : value) : outcome validation :=
  if negb (Js.truthy e) || negb (Js.typeof_object e)
  then Return (Invalid "Body must be a JSON object") else
  let event_id := trimmed (Js.prop e "event_id") in
  let repo := trimmed (Js.prop e "repo") in
  let issue_number := safeInt (Js.prop e "issue_number") in
  let role := trimmed (Js.prop e "role") in
  let agent := trimmed (Js.prop e "agent") in
  let event_type := trimmed (Js.prop e "event_type") in
  if (event_id =? "")%string || (Js.length event_id <? 8)%nat
  then Return (Invalid "event_id is required (min length 8)") else
  if (repo =? "")%string || negb (isRepoSlug repo)
  then Return (Invalid "repo must be 'org/repo'") else
  match issue_number with
  | None => Return (Invalid "issue_number must be a positive integer")
  | Some issue_number =>
  if (issue_number =? 0) || (issue_number <? 1)
  then Return (Invalid "issue_number must be a positive integer") else
  if negb (Js.one_of ["QA"; "DEV"; "PM"; "MENTOR"] role)
  then Return (Invalid "role must be QA|DEV|PM|MENTOR") else
  if (agent =? "")%string || (Js.length agent <? 2)%nat
  then Return (Invalid "agent is required") else
  if (event_type =? "")%string
  then Return (Invalid "event_type is required") else
  match validate_build (Js.prop e "build") with
  | inl rejected => Return rejected
  | inr build =>
  let environment :=
    if Js.truthy (Js.prop e "environment")
    then Some (Js.String (Js.prop e "environment")) else None in
  if match environment with
     | Some s => negb (s =? "")%string && negb (Js.one_of ["preview"; "production"; "dev"] s)
     | None => false
     end
  then Return (Invalid "environment must be preview|production|dev") else
  let overall_verdict := Js.prop e "overall_verdict" in
  if Js.truthy overall_verdict
     && negb (Js.value_one_of ["PASS"; "FAIL"; "BLOCKED"; "PASS_UNVERIFIED"; "FAIL_UNCONFIRMED"]
                              overall_verdict)
  then Return (Invalid "overall_verdict invalid") else
  scoped <~ validate_scope (Js.prop e "scope_results") ;;
  match scoped with
  | inl rejected => Return rejected
  | inr scope_results =>
  match validate_conditional e overall_verdict with
  | Some message => Return (Invalid message)
  | None =>
  match validate_evidence (Js.prop e "evidence_urls") with
  | inl _ => Return (Invalid "evidence_urls must be an array of strings")
  | inr evidence_urls =>
  Return (Valid
    {| event_id := event_id;
       repo := repo;
       issue_number := issue_number;
       role := role;
       agent := agent;
       event_type := event_type;
       summary := if negb (Js.nullish (Js.prop e "summary"))
                  then Some (Js.String (Js.prop e "summary")) else None;
       environment := environment;
       build := build;
       overall_verdict := overall_verdict;
       scope_results := scope_results;
       severity := Js.prop e "severity";
       repro_steps := Js.prop e "repro_steps";
       expected := Js.prop e "expected";
       actual := Js.prop e "actual";
       evidence_urls := evidence_urls;
       artifacts := if Js.isArray (Js.prop e "artifacts")
                    then Js.prop e "artifacts" else JUndefined;
       details := Js.prop e "details" |})
  end end end end end.

(** ** Array-like reads *)

(** The index that a canonical numeric property name denotes. *)
Definition digit_of (c : ascii) : option nat :=
  let n := nat_of_ascii c in
  if ((48 <=? n) && (n <=? 57))%nat then Some (n - 48)%nat else None.

Fixpoint digits_value (acc : nat) (s : string) : option nat :=
  match s with
  | EmptyString => Some acc
  | String c r =>
      match digit_of c with
      | Some d => digits_value (10 * acc + d)%nat r
      | None => None
      end
  end.

Definition array_index (k : string) : option nat :=
  match k with
  | EmptyString => None
  | String c r =>
      if Ascii.eqb c "0" && negb (r =? "")%string then None else digits_value 0%nat k
  end.

Definition chars (s : string) : list value :=
  map (fun c => JStr (String c "")) (list_ascii_of_string s).

(** [v[k]] for a computed name [k] and a [v] that is neither [null] nor
    [undefined]: own properties, the elements and the length of an array
    or a string.  An inherited member (a method) reads as [JUndefined];
    the callers only test it for a rule, which no method holds. *)
Definition elem (v : value) (k : string) : value :=
  let indexed (xs : list value) :=
    match array_index k with
    | Some i => nth i xs JUndefined
    | None => if (k =? "length")%string then JNum (Z.of_nat (List.length xs)) else JUndefined
    end in
  match v with
  | JObj fs => Js.assoc k fs
  | JArr xs => indexed xs
  | JStr s => indexed (chars s)
  | _ => JUndefined
  end.

(** ** Forge client *)

(** [githubFetch]: the call is recorded and the forge answers.  The
    token travels in a header and is not part of the recorded call. *)
Definition githubFetch (token : value) (call : ForgeCall) : M ForgeResponse :=
  fun w => (Return (forge (calls w) call),
            {| db := db w; calls := (calls w ++ [call])%list; ticks := ticks w |}).

Definition res_json (res : ForgeResponse) : M value :=
  match json res with
  | Some v => ret v
  | None => throw (SyntaxError "Unexpected token in JSON")
  end.

(** [throw new Error(`${what}: ${res.status} ${txt}`)]. *)
Definition forge_error {A} (what : string) (res : ForgeResponse) : M A :=
  throw (Error (what ++ ": " ++ Js.Z_to_string (status res) ++ " " ++ text res)).

(** The app JWT is signed with the configured key; the model starts at
    the exchange of the JWT for an installation token. *)
Definition getInstallationToken : M value :=
  res <- githubFetch JUndefined MintToken ;;
  if negb (res_ok res) then forge_error "GitHub installation token error" res else
  data <- res_json res ;;
  lift (Js.member data "token").

Definition getPullRequestHeadSha (ghToken : value) (repo : string) (prNumber : Z) : M string :=
  res <- githubFetch ghToken (GetPull repo prNumber) ;;
  if negb (res_ok res) then forge_error "GitHub PR fetch error" res else
  pr <- res_json res ;;
  head <- lift (Js.member pr "head") ;;
  ret (Js.toLowerCase (Js.String (Js.or (Js.opt_member head "sha") (JStr "")))).

Definition getIssueDetails (ghToken : value) (repo : string) (issueNumber : Z) : M value :=
  res <- githubFetch ghToken (GetIssue repo issueNumber) ;;
  if negb (res_ok res) then forge_error "GitHub issue fetch error" res else
  res_json res.

Definition listIssueComments (ghToken : value) (repo : string) (issueNumber : Z) (page : Z)
  : M value :=
  res <- githubFetch ghToken (ListComments repo issueNumber 100 page) ;;
  if negb (res_ok res) then forge_error "GitHub list comments error" res else
  res_json res.

Definition createIssueComment (ghToken : value) (repo : string) (issueNumber : Z) (body : string)
  : M value :=
  res <- githubFetch ghToken (CreateComment repo issueNumber body) ;;
  if negb (res_ok res) then forge_error "GitHub create comment error" res else
  res_json res.

Definition updateIssueComment (ghToken : value) (repo : string) (commentId : string) (body : string)
  : M value :=
  res <- githubFetch ghToken (UpdateComment repo commentId body) ;;
  if negb (res_ok res) then forge_error "GitHub update comment error" res else
  res_json res.

Definition putIssueLabels (ghToken : value) (repo : string) (issueNumber : Z) (labels : list value)
  : M value :=
  res <- githubFetch ghToken (PutLabels repo issueNumber labels) ;;
  if negb (res_ok res) then forge_error "GitHub update labels error" res else
  res_json res.

(** ** Label transitions *)

Definition parseLabelRules : option value :=
  match JSON_parse (LABEL_RULES_JSON env) with
  | None => None
  | Some parsed =>
      if negb (Js.truthy parsed) || negb (Js.typeof_object parsed) then None else Some parsed
  end.

(** SameValueZero, the equality of [Set].  Objects and arrays are equal
    by identity only; the ones compared here come from distinct places of
    parsed JSON and are never the same object. *)
Definition same_value_zero (a b : value) : bool :=
  match a, b with
  | JUndefined, JUndefined => true
  | JNull, JNull => true
  | JBool x, JBool y => Bool.eqb x y
  | JNum x, JNum y => x =? y
  | JStr x, JStr y => (x =? y)%string
  | _, _ => false
  end.

Definition set_add (s : list value) (x : value) : list value :=
  if existsb (same_value_zero x) s then s else (s ++ [x])%list.

Definition set_delete (s : list value) (x : value) : list value :=
  filter (fun y => negb (same_value_zero y x)) s.

(** [Array.from(next)] after [new Set(current)], the adds and the deletes. *)
Definition next_labels (current add remove : list value) : list value :=
  fold_left set_delete remove (fold_left set_add add (fold_left set_add current [])).

Definition array_or_empty (v : value) : list value :=
  match v with
  | JArr xs => xs
  | _ => []
  end.

(** [xs.map(l => (typeof l === "string" ? l : l.name))], then
    [filter(Boolean)], for an [xs] that must be an array to have [map]. *)
Definition label_name (l : value) : outcome value :=
  if Js.typeof_string l then Return l else Js.member l "name".

Definition label_names (labels : value) : outcome (list value) :=
  match labels with
  | JArr ls =>
      names <~ map_outcome label_name ls ;;
      Return (filter Js.truthy names)
  | _ => Throw (TypeError "map is not a function")
  end.

Definition applyLabelRules (ghToken : value) (repo : string) (issueNumber : Z)
           (eventType : string) (verdict : value) : M unit :=
  match parseLabelRules with
  | None => ret tt
  | Some rules =>
      let typeRule := elem rules eventType in
      if negb (Js.truthy typeRule) then ret tt else
      let key := if Js.nullish verdict then "_" else Js.String verdict in
      let rule := Js.or (elem typeRule key) (elem typeRule "_") in
      if negb (Js.truthy rule) then ret tt else
      let add := array_or_empty (Js.prop rule "add") in
      let remove := array_or_empty (Js.prop rule "remove") in
      issue <- getIssueDetails ghToken repo issueNumber ;;
      labels <- lift (Js.member issue "labels") ;;
      current <- lift (label_names (Js.or labels (JArr []))) ;;
      putIssueLabels ghToken repo issueNumber (next_labels current add remove) ;;;
      ret tt
  end.

(** ** Rolling comment upsert *)

Definition same_issue (repo : string) (issueNumber : Z) (r : CommentRow) : bool :=
  (map_repo r =? repo)%string && (map_issue_number r =? issueNumber).

(** [SELECT comment_id FROM relay_status_comment WHERE repo = ? AND issue_number = ?]. *)
Definition select_comment (repo : string) (issueNumber : Z) : M (option CommentRow) :=
  d <- get_db ;;
  ret (find (same_issue repo issueNumber) (relay_status_comment d)).

(** [UPDATE relay_status_comment SET updated_at = ? WHERE repo = ? AND issue_number = ?]. *)
Definition touch_comment (now repo : string) (issueNumber : Z) : M unit :=
  d <- get_db ;;
  put_db {| events := events d;
            relay_status_comment :=
              map (fun r => if same_issue repo issueNumber r
                            then {| map_repo := map_repo r;
                                    map_issue_number := map_issue_number r;
                                    map_comment_id := map_comment_id r;
                                    map_updated_at := now |}
                            else r)
                  (relay_status_comment d) |}.

(** [INSERT OR REPLACE INTO relay_status_comment ... VALUES (?, ?, ?, ?)]. *)
Definition replace_comment (repo : string) (issueNumber : Z) (commentId now : string) : M unit :=
  d <- get_db ;;
  put_db {| events := events d;
            relay_status_comment :=
              (filter (fun r => negb (same_issue repo issueNumber r)) (relay_status_comment d)
               ++ [ {| map_repo := repo;
                       map_issue_number := issueNumber;
                       map_comment_id := commentId;
                       map_updated_at := now |} ])%list |}.

(** [comments.find(c => typeof c.body === "string" && c.body.includes(RELAY_STATUS_MARKER))]. *)
Definition has_marker (c : value) : outcome bool :=
  b <~ Js.member c "body" ;;
  Return match b with
         | JStr s => Js.includes s RELAY_STATUS_MARKER
         | _ => false
         end.

Fixpoint find_marker (cs : list value) : outcome value :=
  match cs with
  | [] => Return JUndefined
  | c :: rest =>
      hit <~ has_marker c ;;
      if hit then Return c else find_marker rest
  end.

(** The [while (page <= 3 && !found)] loop, entered with [found] unset;
    [fuel] bounds the iterations. *)
Fixpoint scan_comments (fuel : nat) (ghToken : value) (repo : string) (issueNumber : Z)
         (page : Z) : M value :=
  match fuel with
  | O => ret JNull
  | S fuel' =>
      if page <=? 3 then
        comments <- listIssueComments ghToken repo issueNumber page ;;
        match comments with
        | JArr cs =>
            hit <- lift (find_marker cs) ;;
            let found := Js.or hit JNull in
            if (Z.of_nat (List.length cs) <? 100) then ret found
            else if Js.truthy found then ret found
            else scan_comments fuel' ghToken repo issueNumber (page + 1)
        | _ => throw (TypeError "find is not a function")
        end
      else ret JNull
  end.

(** Tier 3, [// 3) Create new comment]. *)
Definition upsert_create (ghToken : value) (repo : string) (issueNumber : Z)
           (body : string) : M string :=
  created <- createIssueComment ghToken repo issueNumber body ;;
  id_ <- lift (Js.member created "id") ;;
  let commentId := Js.String id_ in
  now <- nowIso ;;
  replace_comment repo issueNumber commentId now ;;;
  ret commentId.

(** Tier 2, [// 2) Search GitHub comments for marker], and what follows it. *)
Definition upsert_scan (ghToken : value) (repo : string) (issueNumber : Z)
           (body : string) : M string :=
  found <- scan_comments 3 ghToken repo issueNumber 1 ;;
  if Js.truthy (Js.opt_member found "id") then
    let commentId := Js.String (Js.opt_member found "id") in
    updateIssueComment ghToken repo commentId body ;;;
    now <- nowIso ;;
    replace_comment repo issueNumber commentId now ;;;
    ret commentId
  else upsert_create ghToken repo issueNumber body.

(** Tier 1, [// 1) Try D1 mapping]: the mapped comment id when the update
    went through, [None] to fall through. *)
Definition upsert_mapped (ghToken : value) (repo : string) (issueNumber : Z)
           (body : string) : M (option string) :=
  mapped <- select_comment repo issueNumber ;;
  match mapped with
  | Some row =>
      if negb (map_comment_id row =? "")%string then
        try_catch
          (updateIssueComment ghToken repo (map_comment_id row) body ;;;
           now <- nowIso ;;
           touch_comment now repo issueNumber ;;;
           ret (Some (map_comment_id row)))
          (fun _ => ret None)
      else ret None
  | None => ret None
  end.

Definition upsertRollingComment (ghToken : value) (repo : string) (issueNumber : Z)
           (body : string) : M string :=
  updated <- upsert_mapped ghToken repo issueNumber body ;;
  match updated with
  | Some commentId => ret commentId
  | None => upsert_scan ghToken repo issueNumber body
  end.

(** ** Rolling comment rendering *)

Definition normalizeLabels (issue : value) : outcome (list value) :=
  labels <~ Js.member issue "labels" ;;
  names <~ map_outcome label_name (array_or_empty labels) ;;
  Return (filter Js.truthy names).

Definition extractOwner (issue : value) : outcome string :=
  assignees <~ Js.member issue "assignees" ;;
  match array_or_empty assignees with
  | first :: _ =>
      login <~ Js.member first "login" ;;
      Return ("@" ++ Js.String login)
  | [] =>
      let login := Js.opt_member (Js.prop issue "assignee") "login" in
      if Js.truthy login then Return ("@" ++ Js.String login) else Return "unassigned"
  end.

(** [labels.find(l => l.startsWith("status:"))]: a label that is not a
    string has no [startsWith]. *)
Fixpoint find_status (labels : list value) : outcome (option string) :=
  match labels with
  | [] => Return None
  | JStr s :: rest =>
      if Js.startsWith s "status:" then Return (Some s) else find_status rest
  | _ :: _ => Throw (TypeError "startsWith is not a function")
  end.

Definition pickStatus (labels : list value) : outcome string :=
  found <~ find_status labels ;;
  Return match found with
         | Some s => String.substring 7 (String.length s - 7) s
         | None => "unknown"
         end.

Definition formatShortSha (sha : option string) : string :=
  match sha with
  | None => "n/a"
  | Some s => if (s =? "")%string then "n/a" else "`" ++ Js.slice s 0 7 ++ "`"
  end.

(** [xs.length ? xs.map(line).join("\n") : none] for an [xs] that is
    truthy: only an array has both a length and [map]. *)
Definition lines_or (xs : value) (line : value -> outcome string) (none : string)
  : outcome string :=
  match xs with
  | JArr [] => Return none
  | JArr items =>
      ls <~ map_outcome line items ;;
      Return (String.concat LF ls)
  | JStr s =>
      if (s =? "")%string then Return none else Throw (TypeError "map is not a function")
  | JObj fs =>
      if Js.truthy (Js.assoc "length" fs)
      then Throw (TypeError "map is not a function") else Return none
  | JUndefined | JNull => Throw (TypeError "Cannot read properties of null or undefined: length")
  | _ => Return none
  end.

Definition scope_line (s : value) : outcome string :=
  id_ <~ Js.member s "id" ;;
  Return ("  - " ++ Js.String id_ ++ " — " ++ Js.String (Js.prop s "status")
          ++ (if Js.truthy (Js.prop s "notes")
              then " (" ++ Js.String (Js.prop s "notes") ++ ")" else "")).

Definition evidence_line (u : value) : outcome string :=
  Return ("  - " ++ Js.String u).

Definition recent_line (r : RecentRow) : string :=
  "- " ++ Js.slice (rc_created_at r) 11 16 ++ "Z — " ++ rc_event_type r ++ " — " ++ rc_agent r.

Definition renderRelayStatusMarkdown (input : RenderInput) : outcome string :=
  labels <~ normalizeLabels (in_issue input) ;;
  owner <~ extractOwner (in_issue input) ;;
  status_ <~ pickStatus labels ;;
  let pr := match pv_pr (in_provenance input) with
            | Some n => if n =? 0 then "n/a" else "#" ++ Js.Z_to_string n
            | None => "n/a"
            end in
  let commit := formatShortSha (pv_commit (in_provenance input)) in
  let env_ := match pv_environment (in_provenance input) with
              | Some e => if (e =? "")%string then "unknown" else e
              | None => "unknown"
              end in
  let prov := match pv_verified (in_provenance input) with
              | None => "n/a"
              | Some true => "VERIFIED (matches PR head)"
              | Some false =>
                  "UNVERIFIED (PR head: "
                  ++ formatShortSha (pv_prHead (in_provenance input)) ++ ")"
              end in
  let qaVerdict := Js.or (Js.opt_member (in_latestQa input) "overall_verdict") (JStr "n/a") in
  let qaScope := Js.or (Js.opt_member (in_latestQa input) "scope_results") (JArr []) in
  let qaEvidence := Js.or (Js.opt_member (in_latestQa input) "evidence_urls") (JArr []) in
  let devSummary :=
    if Js.truthy (Js.opt_member (in_latestDev input) "summary")
    then Js.opt_member (in_latestDev input) "summary" else JStr "" in
  scopeLines <~ lines_or qaScope scope_line "  - n/a" ;;
  evidenceLines <~ lines_or qaEvidence evidence_line "  - n/a" ;;
  let recentLines :=
    match in_recent input with
    | [] => "- n/a"
    | rows => String.concat LF (map recent_line rows)
    end in
  Return (String.concat LF
    [ RELAY_STATUS_MARKER;
      "";
      "## Relay Status — ISSUE #" ++ Js.Z_to_string (in_issueNumber input);
      "";
      "### Current State";
      "- Status: `" ++ status_ ++ "`";
      "- Labels: " ++ match labels with
                      | [] => "n/a"
                      | _ => String.concat ", " (map (fun l => "`" ++ Js.String l ++ "`") labels)
                      end;
      "- Owner: " ++ owner;
      "";
      "### Build Provenance";
      "- Environment: `" ++ env_ ++ "`";
      "- PR: " ++ pr;
      "- Commit: " ++ commit;
      "- Provenance: " ++ prov;
      "";
      "### Latest Dev Update";
      (if Js.truthy devSummary then "- Summary: " ++ Js.String devSummary else "- Summary: n/a");
      "";
      "### Latest QA Result";
      "- Verdict: `" ++ Js.String qaVerdict ++ "`";
      "- Scope:";
      scopeLines;
      "- Evidence:";
      evidenceLines;
      "";
      "### Recent Activity";
      recentLines;
      "" ]).

(** ** Event store queries *)

(** [SELECT payload_hash FROM events WHERE event_id = ?]. *)
Definition select_event (id_ : string) : M (option EventRow) :=
  d <- get_db ;;
  ret (find (fun r => (row_event_id r =? id_)%string) (events d)).

(** [INSERT INTO events ...]: the primary key refuses a second row with
    the same [event_id]. *)
Definition insert_event (row : EventRow) : M unit :=
  d <- get_db ;;
  if existsb (fun r => (row_event_id r =? row_event_id row)%string) (events d)
  then throw (Error "D1_ERROR: UNIQUE constraint failed: events.event_id")
  else put_db {| events := (events d ++ [row])%list;
                 relay_status_comment := relay_status_comment d |}.

(** [ORDER BY created_at DESC].  SQL leaves the order of rows with equal
    [created_at] open; here the later insert comes first. *)
Fixpoint insert_desc (r : EventRow) (sorted : list EventRow) : list EventRow :=
  match sorted with
  | [] => [r]
  | x :: rest =>
      if String.leb (row_created_at x) (row_created_at r)
      then r :: sorted
      else x :: insert_desc r rest
  end.

Definition order_desc (rows : list EventRow) : list EventRow :=
  fold_left (fun acc r => insert_desc r acc) rows [].

Definition on_issue (repo : string) (issueNumber : Z) (r : EventRow) : bool :=
  (row_repo r =? repo)%string && (row_issue_number r =? issueNumber).

Definition getLatestEventByType (repo : string) (issueNumber : Z) (eventType : string)
  : M (option EventRow) :=
  d <- get_db ;;
  ret (hd_error
         (order_desc
            (filter (fun r => on_issue repo issueNumber r
                              && (row_event_type r =? eventType)%string)
                    (events d)))).

Definition getRecentEvents (repo : string) (issueNumber : Z) (limit : nat)
  : M (list RecentRow) :=
  d <- get_db ;;
  ret (map (fun r => {| rc_created_at := row_created_at r;
                        rc_event_type := row_event_type r;
                        rc_agent := row_agent r |})
           (firstn limit (order_desc (filter (on_issue repo issueNumber) (events d))))).

Definition safeParseEvent (payloadJson : string) : value :=
  match JSON_parse payloadJson with
  | Some e => if Js.truthy e && Js.typeof_object e then e else JNull
  | None => JNull
  end.

(** ** The events handler *)

(** The provenance check of [handlePostEvents]: [provenanceVerified],
    [prHeadSha] and [effectiveVerdict] after it. *)
Definition provenanceCheck (ghToken : value) (event : RelayEvent)
  : M (option bool * option string * value) :=
  match build event with
  | Some b =>
      match pr b with
      | Some prNumber =>
          if negb (prNumber =? 0) && negb (commit_sha b =? "")%string then
            prHeadSha <- getPullRequestHeadSha ghToken (repo event) prNumber ;;
            let provenanceVerified := (prHeadSha =? Js.toLowerCase (commit_sha b))%string in
            ret (Some provenanceVerified, Some prHeadSha,
                 if negb provenanceVerified && Js.is_str (overall_verdict event) "PASS"
                 then JStr "PASS_UNVERIFIED" else overall_verdict event)
          else ret (None, None, overall_verdict event)
      | None => ret (None, None, overall_verdict event)
      end
  | None => ret (None, None, overall_verdict event)
  end.

(** [x ?? null]. *)
Definition or_null (v : value) : value :=
  match v with
  | JUndefined => JNull
  | _ => v
  end.

Definition opt_bool (o : option bool) : value :=
  match o with
  | Some b => JBool b
  | None => JNull
  end.

(** [JSON.stringify(event)], the canonical payload. *)
Definition payload_json_of (event : RelayEvent) : string :=
  Js.stringify (RelayEvent_object event).

(** [sha256Hex(payloadJson)]. *)
Definition payload_hash_of (event : RelayEvent) : string :=
  sha256Hex (payload_json_of event).

(** The row that [handlePostEvents] binds to its [INSERT INTO events]. *)
Definition event_row (event : RelayEvent) (effectiveVerdict : value) (now : string)
  : EventRow :=
  {| row_event_id := event_id event;
     row_repo := repo event;
     row_issue_number := issue_number event;
     row_event_type := event_type event;
     row_role := role event;
     row_agent := agent event;
     row_environment := environment event;
     row_overall_verdict := or_null effectiveVerdict;
     row_created_at := now;
     row_payload_hash := payload_hash_of event;
     row_payload_json := payload_json_of event |}.

(** The part of [handlePostEvents] under [// Persist event]. *)
Definition persistEvent (event : RelayEvent) (effectiveVerdict : value) : M unit :=
  now <- nowIso ;;
  insert_event (event_row event effectiveVerdict now).

(** The answer to a stored event. *)
Definition stored_response (event : RelayEvent) (commentId : string)
           (effectiveVerdict : value) (provenanceVerified : option bool) : HttpResponse :=
  v2Json (JObj [ ("ok", JBool true);
                 ("event_id", JStr (event_id event));
                 ("stored", JBool true);
                 ("rolling_comment_id", JStr commentId);
                 ("verdict", effectiveVerdict);
                 ("provenance_verified", opt_bool provenanceVerified) ]) 201.

(** The rest of [handlePostEvents], from [// Fetch issue for rendering]
    to the answer: render, upsert the rolling comment, apply the label
    transitions. *)
Definition publish (ghToken : value) (event : RelayEvent)
           (provenanceVerified : option bool) (prHeadSha : option string)
           (effectiveVerdict : value) : M HttpResponse :=
  issue <- getIssueDetails ghToken (repo event) (issue_number event) ;;
  latestDevRow <- getLatestEventByType (repo event) (issue_number event) "dev.update" ;;
  latestQaRow <- getLatestEventByType (repo event) (issue_number event) "qa.result_submitted" ;;
  let latestDev := match latestDevRow with
                   | Some r => safeParseEvent (row_payload_json r)
                   | None => JNull
                   end in
  let latestQa := match latestQaRow with
                  | Some r => safeParseEvent (row_payload_json r)
                  | None => JNull
                  end in
  recent <- getRecentEvents (repo event) (issue_number event) 5 ;;
  let provenance := {| pv_pr := match build event with Some b => pr b | None => None end;
                       pv_commit := match build event with
                                    | Some b => Some (commit_sha b)
                                    | None => None
                                    end;
                       pv_verified := provenanceVerified;
                       pv_prHead := prHeadSha;
                       pv_environment := environment event |} in
  body <- lift (renderRelayStatusMarkdown
                  {| in_issue := issue;
                     in_repo := repo event;
                     in_issueNumber := issue_number event;
                     in_provenance := provenance;
                     in_latestDev := latestDev;
                     in_latestQa := latestQa;
                     in_recent := recent |}) ;;
  commentId <- upsertRollingComment ghToken (repo event) (issue_number event) body ;;
  applyLabelRules ghToken (repo event) (issue_number event) (event_type event)
                  effectiveVerdict ;;;
  ret (stored_response event commentId effectiveVerdict provenanceVerified).

Definition handlePostEvents (req : Request) (getGhToken : M value) : M HttpResponse :=
  match requireAuth req with
  | Some authErr => ret authErr
  | None =>
  match JSON_parse (req_body req) with
  | None => ret (badRequest "Invalid JSON body" JUndefined)
  | Some payload =>
  validated <- lift (validateEvent payload) ;;
  match validated with
  | Invalid message => ret (badRequest message JUndefined)
  | Valid event =>
  let payloadJson := payload_json_of event in
  let payloadHash := payload_hash_of event in
  existing <- select_event (event_id event) ;;
  match existing with
  | Some row =>
      if negb (row_payload_hash row =? payloadHash)%string
      then ret (conflict "event_id already exists with different payload"
                  (JObj [ ("event_id", JStr (event_id event));
                          ("existing_hash", JStr (row_payload_hash row));
                          ("new_hash", JStr payloadHash) ]))
      else ret (v2Json (JObj [ ("ok", JBool true);
                               ("idempotent", JBool true);
                               ("event_id", JStr (event_id event)) ]) 200)
  | None =>
  ghToken <- getGhToken ;;
  checked <- provenanceCheck ghToken event ;;
  let '(provenanceVerified, prHeadSha, effectiveVerdict) := checked in
  persistEvent event effectiveVerdict ;;;
  publish ghToken event provenanceVerified prHeadSha effectiveVerdict
  end end end end.

(** [String(err?.message || err)]. *)
Definition exn_details (err : exn) : string :=
  match err with
  | TypeError what => what
  | SyntaxError what => what
  | Error message => if (message =? "")%string then "Error" else message
  end.

(** The route [POST /v2/events] of [fetch].  The token closure
    [getGhToken] mints on first use; the handler uses it once. *)
Definition fetch_v2_events (req : Request) (w : World) : HttpResponse * World :=
  match handlePostEvents req getInstallationToken w with
  | (Return res, w') => (res, w')
  | (Throw err, w') =>
      (v2Json (JObj [ ("error", JStr "Internal error");
                      ("details", JStr (exn_details err)) ]) 500, w')
  end.

(** ** Repository paths *)

(** [s.split("/")]: the texts between the slashes, at least one. *)
Fixpoint split_slash (s : string) : list string :=
  match s with
  | EmptyString => [EmptyString]
  | String c r =>
      if Ascii.eqb c "/" then EmptyString :: split_slash r
      else match split_slash r with
           | x :: xs => String c x :: xs
           | [] => [String c EmptyString]
           end
  end.

(** [const [owner, name] = repo.split("/")]: a part that the text does not
    have is [undefined]. *)
Definition splitRepo (repo : string) : value * value :=
  let parts := map JStr (split_slash repo) in
  (nth 0 parts JUndefined, nth 1 parts JUndefined).

(** The prefix [`/repos/${owner}/${name}`] of the path of every forge
    operation on a repository. *)
Definition repo_path (repo : string) : string :=
  let (owner, name) := splitRepo repo in
  "/repos/" ++ Js.String owner ++ "/" ++ Js.String name.

(** ** Notions used by the statements *)

(** [s] starts with [p] and a line feed: [p] is the first line of [s]. *)
Definition first_line_is (p s : string) : Prop :=
  exists rest, s = p ++ LF ++ rest.




Definition is_string (v : value) : Prop := exists s, v = JStr s.



(** The row with a given [event_id], if the table has one. *)
Definition stored_event (id_ : string) (w : World) : option EventRow :=
  find (fun r => (row_event_id r =? id_)%string) (events (db w)).

(** The answers of the idempotency check. *)
Definition idempotent_response (event : RelayEvent) : HttpResponse :=
  v2Json (JObj [ ("ok", JBool true);
                 ("idempotent", JBool true);
                 ("event_id", JStr (event_id event)) ]) 200.

Definition conflict_response (event : RelayEvent) (existing_hash : string) : HttpResponse :=
  conflict "event_id already exists with different payload"
    (JObj [ ("event_id", JStr (event_id event));
            ("existing_hash", JStr existing_hash);
            ("new_hash", JStr (payload_hash_of event)) ]).

(** A computation keeps a relation between the world it starts in and
    the world it ends in, whether it returns or throws. *)
Definition preserves (R : World -> World -> Prop) {A} (c : M A) : Prop :=
  forall w, R w (snd (c w)).

(** Whatever a computation returns satisfies [P]. *)
Definition returns {A} (P : A -> Prop) (c : M A) : Prop :=
  forall w a, fst (c w) = Return a -> P a.

(** The table [events] is the same. *)
Definition same_events (w w' : World) : Prop :=
  events (db w') = events (db w).

(** The forge calls made before are still there, in order. *)
Definition more_calls (w w' : World) : Prop :=
  exists added, calls w' = (calls w ++ added)%list.

(** What a nullable column of D1 holds for a member of the event: [NULL]
    when the member is missing. *)
Definition column (v : value) : value :=
  match v with
  | JUndefined => JNull
  | _ => v
  end.





(** Two SHAs are equal up to the case of their letters. *)
Definition eq_ignore_case (a b : string) : bool :=
  (Js.toLowerCase a =? Js.toLowerCase b)%string.

(** The world after one more forge call. *)
Definition after_call (w : World) (call : ForgeCall) : World :=
  {| db := db w; calls := (calls w ++ [call])%list; ticks := ticks w |}.

(** The forge answers the token exchange with a 2xx whose JSON body is an
    object and holds [token]. *)
Definition token_answer (history : list ForgeCall) (token : value) : Prop :=
  res_ok (forge history MintToken) = true
  /\ exists data, json (forge history MintToken) = Some data
                  /\ Js.member data "token" = Return token.

(** The forge answers [GET /repos/<repo>/pulls/<n>] with a 2xx whose JSON
    body is an object; [sha] is the text of its [head.sha] (empty when
    there is none). *)
Definition pr_head_answer (history : list ForgeCall) (repo : string) (prNumber : Z)
           (sha : string) : Prop :=
  res_ok (forge history (GetPull repo prNumber)) = true
  /\ exists pull head,
       json (forge history (GetPull repo prNumber)) = Some pull
       /\ Js.member pull "head" = Return head
       /\ sha = Js.String (Js.or (Js.opt_member head "sha") (JStr "")).

(** The verdict that the provenance check leaves: [PASS] becomes
    [PASS_UNVERIFIED] when the comparison failed, anything else stays. *)
Definition downgraded (verified : bool) (verdict : value) : value :=
  if negb verified && Js.is_str verdict "PASS" then JStr "PASS_UNVERIFIED" else verdict.

(** Only forge calls were made: database and clock are as before. *)
Definition only_calls (w w' : World) : Prop :=
  db w' = db w /\ ticks w' = ticks w.

(** [s] has the member [k: v] of a JSON object in it, as serialized. *)
Definition carries_member (s k : string) (v : value) : Prop :=
  exists before after_,
    s = before ++ (Js.quote k ++ ":" ++ Js.stringify v) ++ after_.

(** The forge accepts the update of a comment: a 2xx with a JSON body. *)
Definition update_succeeds (history : list ForgeCall) (repo commentId body : string) : Prop :=
  res_ok (forge history (UpdateComment repo commentId body)) = true
  /\ json (forge history (UpdateComment repo commentId body)) <> None.

(** The forge refuses the update of a comment with a non-2xx status. *)
Definition update_refused (history : list ForgeCall) (repo commentId body : string) : Prop :=
  res_ok (forge history (UpdateComment repo commentId body)) = false.


(** While the upsert runs, the forge lists [pages i] as page [i] of the
    issue's comments. *)
Definition listing (history : list ForgeCall) (repo : string) (issueNumber : Z)
           (pages : Z -> list value) : Prop :=
  forall later page,
    res_ok (forge (history ++ later)%list (ListComments repo issueNumber 100 page)) = true
    /\ json (forge (history ++ later)%list (ListComments repo issueNumber 100 page))
       = Some (JArr (pages page)).

(** A comment whose body is a string that contains the marker. *)
Definition carries_marker (c : value) : bool :=
  match Js.prop c "body" with
  | JStr s => Js.includes s RELAY_STATUS_MARKER
  | _ => false
  end.

(** Comments as the forge's REST schema has them: objects with an id. *)
Definition comment_typed (c : value) : bool :=
  negb (Js.nullish c) && Js.truthy (Js.prop c "id").

(** The marker scan in the words of the specification: comments are
    listed page by page, 100 per page, for at most [budget] pages; the
    first comment whose body contains the marker wins; a page of fewer
    than 100 comments is the last one.  The result is the winner, if any,
    and the pages that were listed. *)
Fixpoint marker_scan (pages : Z -> list value) (budget : nat) (page : Z)
  : option value * list Z :=
  match budget with
  | O => (None, [])
  | S budget' =>
      match find carries_marker (pages page) with
      | Some c => (Some c, [page])
      | None =>
          if (Z.of_nat (List.length (pages page)) <? 100) then (None, [page])
          else let (winner, listed) := marker_scan pages budget' (page + 1) in
               (winner, page :: listed)
      end
  end.

(** The world after forge calls [added]. *)
Definition after_calls (w : World) (added : list ForgeCall) : World :=
  {| db := db w; calls := (calls w ++ added)%list; ticks := ticks w |}.

(** The world after the mapping row of an issue was written at [now]. *)
Definition with_mapping (w : World) (rows : list CommentRow) : World :=
  {| db := {| events := events (db w); relay_status_comment := rows |};
     calls := calls w;
     ticks := S (ticks w) |}.

Definition bumped_rows (now repo : string) (issueNumber : Z) (rows : list CommentRow)
  : list CommentRow :=
  map (fun r => if same_issue repo issueNumber r
                then {| map_repo := map_repo r;
                        map_issue_number := map_issue_number r;
                        map_comment_id := map_comment_id r;
                        map_updated_at := now |}
                else r) rows.

Definition upserted_rows (repo : string) (issueNumber : Z) (commentId now : string)
           (rows : list CommentRow) : list CommentRow :=
  (filter (fun r => negb (same_issue repo issueNumber r)) rows
   ++ [ {| map_repo := repo;
           map_issue_number := issueNumber;
           map_comment_id := commentId;
           map_updated_at := now |} ])%list.


Definition list_calls (repo : string) (issueNumber : Z) (listed : list Z) : list ForgeCall :=
  map (ListComments repo issueNumber 100) listed.

(** The rule for an event in the words of the specification: the rules
    are a two-level map, [rules[event_type][verdict]]; the exact verdict
    key is looked up first (when there is a verdict), then ["_"]; a missing
    event type or a missing rule gives none. *)
Definition rule_for (rules : value) (eventType : string) (verdict : value) : option value :=
  let typeRule := elem rules eventType in
  if negb (Js.truthy typeRule) then None else
  let exact := if Js.nullish verdict then JUndefined else elem typeRule (Js.String verdict) in
  if Js.truthy exact then Some exact
  else if Js.truthy (elem typeRule "_") then Some (elem typeRule "_")
  else None.

(** The forge answers [GET /repos/<repo>/issues/<n>] with the object [issue]. *)
Definition issue_answer (history : list ForgeCall) (repo : string) (issueNumber : Z)
           (issue : value) : Prop :=
  res_ok (forge history (GetIssue repo issueNumber)) = true
  /\ json (forge history (GetIssue repo issueNumber)) = Some issue
  /\ Js.nullish issue = false.





Definition conditional_fields : list string :=
  ["severity"; "repro_steps"; "expected"; "actual"].


(** An entry of [scope_results] as the validator leaves it. *)
Definition wellformed_scope (r : ScopeResult) : Prop :=
  sr_id r <> "" /\ Js.trim (sr_id r) = sr_id r
  /\ Js.one_of ["PASS"; "FAIL"; "SKIPPED"] (sr_status r) = true.

(** An event as the validator leaves it: what every stored payload
    satisfies. *)
Definition wellformed (ev : RelayEvent) : Prop :=
  (Js.trim (event_id ev) = event_id ev /\ (8 <= Js.length (event_id ev))%nat)
  /\ (Js.trim (repo ev) = repo ev /\ isRepoSlug (repo ev) = true)
  /\ 1 <= issue_number ev
  /\ Js.one_of ["QA"; "DEV"; "PM"; "MENTOR"] (role ev) = true
  /\ (Js.trim (agent ev) = agent ev /\ (2 <= Js.length (agent ev))%nat)
  /\ (Js.trim (event_type ev) = event_type ev /\ event_type ev <> "")
  /\ (forall b, build ev = Some b ->
                isHexSha (commit_sha b) = true
                /\ Js.toLowerCase (commit_sha b) = commit_sha b
                /\ pr b <> Some 0)
  /\ (forall s, environment ev = Some s ->
                s = "" \/ Js.one_of ["preview"; "production"; "dev"] s = true)
  /\ (Js.truthy (overall_verdict ev) = true ->
      Js.value_one_of ["PASS"; "FAIL"; "BLOCKED"; "PASS_UNVERIFIED"; "FAIL_UNCONFIRMED"]
                      (overall_verdict ev) = true)
  /\ (forall rs, scope_results ev = Some rs -> rs <> [] /\ Forall wellformed_scope rs)
  /\ (artifacts ev = JUndefined \/ Js.isArray (artifacts ev) = true).

(** The members of an object after a round trip through JSON: the inner
    loop of [Js.reparse]. *)
Fixpoint reparse_members (l : list (string * value)) : list (string * value) :=
  match l with
  | [] => []
  | (_, JUndefined) :: rest => reparse_members rest
  | (k, v) :: rest => (k, Js.reparse v) :: reparse_members rest
  end.

(** A member read back after the round trip: a member that was
    [undefined] is not there any more. *)
Definition reread (v : value) : value :=
  match v with
  | JUndefined => JUndefined
  | _ => Js.reparse v
  end.

(** JSON data: a value that a round trip through JSON leaves as it is,
    as every value that [JSON.parse] returns. *)
Definition json_data (v : value) : Prop := Js.reparse v = v.

(** The event that the validator builds from the canonical payload of
    [ev]: [ev] itself, but an empty [environment] is read as none. *)
Definition settled (ev : RelayEvent) : RelayEvent :=
  {| event_id := event_id ev;
     repo := repo ev;
     issue_number := issue_number ev;
     role := role ev;
     agent := agent ev;
     event_type := event_type ev;
     summary := summary ev;
     environment := match environment ev with
                    | Some s => if (s =? "")%string then None else Some s
                    | None => None
                    end;
     build := build ev;
     overall_verdict := overall_verdict ev;
     scope_results := scope_results ev;
     severity := severity ev;
     repro_steps := repro_steps ev;
     expected := expected ev;
     actual := actual ev;
     evidence_urls := evidence_urls ev;
     artifacts := artifacts ev;
     details := details ev |}.

(** What [handlePostEvents] does with a validated event that is not
    stored yet: everything after the idempotency check. *)
Definition ingest (getGhToken : M value) (event : RelayEvent) : M HttpResponse :=
  ghToken <- getGhToken ;;
  checked <- provenanceCheck ghToken event ;;
  let '(provenanceVerified, prHeadSha, effectiveVerdict) := checked in
  persistEvent event effectiveVerdict ;;;
  publish ghToken event provenanceVerified prHeadSha effectiveVerdict.

(** The answer of the route to an exception. *)
Definition internal_error (err : exn) : HttpResponse :=
  v2Json (JObj [ ("error", JStr "Internal error");
                 ("details", JStr (exn_details err)) ]) 500.

(** No two rows of [events] have the same [event_id]. *)
Definition unique_event_ids (w : World) : Prop :=
  NoDup (map row_event_id (events (db w))).

(** A computation makes at most [n] forge calls, all of them in [P],
    whether it returns or throws. *)
Definition within (P : ForgeCall -> Prop) (n : nat) {A} (c : M A) : Prop :=
  forall w, exists added,
    calls (snd (c w)) = (calls w ++ added)%list
    /\ (List.length added <= n)%nat
    /\ Forall P added.

(** The forge calls of the rolling-comment upsert on an issue: updates
    and one creation of a comment, and listings of the issue's comments at
    100 per page, pages 1 to 3. *)
Inductive upsert_call (repo : string) (issueNumber : Z) : ForgeCall -> Prop :=
| upsert_list (page : Z) :
    1 <= page <= 3 -> upsert_call repo issueNumber (ListComments repo issueNumber 100 page)
| upsert_update (commentId body : string) :
    upsert_call repo issueNumber (UpdateComment repo commentId body)
| upsert_new (body : string) :
    upsert_call repo issueNumber (CreateComment repo issueNumber body).

(** The forge calls of the event route for an event: the token exchange
    and calls on the event's repository, issue and pull request. *)
Inductive event_call (event : RelayEvent) : ForgeCall -> Prop :=
| event_token : event_call event MintToken
| event_pull (b : Build) (prNumber : Z) :
    build event = Some b -> pr b = Some prNumber ->
    event_call event (GetPull (repo event) prNumber)
| event_issue : event_call event (GetIssue (repo event) (issue_number event))
| event_upsert (call : ForgeCall) :
    upsert_call (repo event) (issue_number event) call -> event_call event call
| event_labels (labels : list value) :
    event_call event (PutLabels (repo event) (issue_number event) labels).

(** The mapping row of an issue: what tier 1 of the upsert reads. *)
Definition mapping (repo : string) (issueNumber : Z) (w : World) : option CommentRow :=
  find (same_issue repo issueNumber) (relay_status_comment (db w)).

(** The primary key of table [relay_status_comment]. *)
Definition mapping_key (r : CommentRow) : string * Z :=
  (map_repo r, map_issue_number r).

Definition unique_mappings (w : World) : Prop :=
  NoDup (map mapping_key (relay_status_comment (db w))).

(** What an upsert on [(repo, issueNumber)] leaves alone: the events,
    the mapping rows of the other issues, and the key of the table. *)
Definition other_mappings_kept (repo : string) (issueNumber : Z) (w w' : World) : Prop :=
  events (db w') = events (db w)
  /\ (forall repo' n', repo' <> repo \/ n' <> issueNumber ->
                       mapping repo' n' w' = mapping repo' n' w)
  /\ (unique_mappings w -> unique_mappings w').

(** The issue is mapped to the comment. *)
Definition mapped_to (repo : string) (issueNumber : Z) (commentId : string) (w : World)
  : Prop :=
  exists row, mapping repo issueNumber w = Some row /\ map_comment_id row = commentId.

(** Whenever a computation returns, its result and the world it leaves
    satisfy [Q]. *)
Definition ensures {A} (Q : A -> World -> Prop) (c : M A) : Prop :=
  forall w a w', c w = (Return a, w') -> Q a w'.

(** Only forge calls were made since: the database is as it was. *)
Definition same_db (w w' : World) : Prop := db w' = db w.

(** Rows in descending order of [created_at]: no row is older than a row
    after it. *)
Fixpoint newest_first (rows : list EventRow) : Prop :=
  match rows with
  | [] => True
  | x :: rest =>
      (forall y, In y rest -> String.leb (row_created_at y) (row_created_at x) = true)
      /\ newest_first rest
  end.

(** The columns that the recent-activity query selects. *)
Definition recent_of (r : EventRow) : RecentRow :=
  {| rc_created_at := row_created_at r;
     rc_event_type := row_event_type r;
     rc_agent := row_agent r |}.

(* ---------------------------------------------------------------- *)
(** * Properties                                                      *)
(* ---------------------------------------------------------------- *)

(** ** Steps of a computation *)

Lemma obind_Return {A B} (o : outcome A) (k : A -> outcome B) (b : B) :
  obind o k = Return b -> exists a, o = Return a /\ k a = Return b.
Proof.
  destruct o as [a|e]; simpl; intros H; [exists a; auto | discriminate].
Qed.

Lemma Return_inj {A} (a b : A) : Return a = Return b -> a = b.
Proof. congruence. Qed.

Lemma bind_run {A B} (c : M A) (k : A -> M B) (w : World) :
  bind c k w = match c w with
               | (Return a, w') => k a w'
               | (Throw e, w') => (Throw e, w')
               end.
Proof. reflexivity. Qed.

Lemma concat_first (sep x y : string) (l : list string) :
  String.concat sep (x :: y :: l) = x ++ sep ++ String.concat sep (y :: l).
Proof. reflexivity. Qed.

(** ** The renderer *)

Lemma render_begins_with_marker (input : RenderInput) (body : string) :
  renderRelayStatusMarkdown input = Return body ->
  first_line_is RELAY_STATUS_MARKER body.
Proof.
  unfold renderRelayStatusMarkdown. intros H.
  repeat (apply obind_Return in H; destruct H as [? [_ H]]).
  apply Return_inj in H. subst body.
  rewrite concat_first. eexists. reflexivity.
Qed.









(** *** C8 *)


(** ** The validator *)

Ltac invert_validation H :=
  repeat match type of H with
         | (if ?c then _ else _) = _ => destruct c eqn:?; try discriminate H
         | match ?x with _ => _ end = _ => destruct x eqn:?; try discriminate H
         | obind ?o _ = _ => destruct o eqn:?; cbn [obind] in H; try discriminate H
         end.

Lemma validate_build_rejects (x : value) (v : validation) :
  validate_build x = inl v -> exists message, v = Invalid message.
Proof.
  unfold validate_build. intros H. cbv zeta in H.
  invert_validation H; inversion H; eexists; reflexivity.
Qed.

Lemma validate_build_accepts (x : value) (b : Build) :
  validate_build x = inr (Some b) -> commit_sha b <> "" /\ pr b <> Some 0.
Proof.
  unfold validate_build. intros H. cbv zeta in H.
  invert_validation H; inversion H; subst; simpl.
  split.
  - match goal with
    | Hor : (_ =? "")%string || _ = false |- _ =>
        apply orb_false_iff in Hor; destruct Hor as [Hne _];
        apply String.eqb_neq in Hne; exact Hne
    end.
  - destruct (if negb (Js.nullish (Js.prop x "pr")) then safeInt (Js.prop x "pr") else None)
      as [n|]; [|discriminate].
    destruct (n =? 0) eqn:Hn; [discriminate|].
    intros Hp. injection Hp as ->. discriminate.
Qed.

Lemma validate_scope_rejects (x : value) (v : validation) :
  validate_scope x = Return (inl v) -> exists message, v = Invalid message.
Proof.
  unfold validate_scope. intros H.
  invert_validation H; inversion H; eexists; reflexivity.
Qed.

(** What an accepted payload went through, and the event it became. *)
Lemma validateEvent_Valid (e : value) (ev : RelayEvent) :
  validateEvent e = Return (Valid ev) ->
  (forall b, build ev = Some b -> commit_sha b <> "" /\ pr b <> Some 0)
  /\ overall_verdict ev = Js.prop e "overall_verdict"
  /\ validate_conditional e (Js.prop e "overall_verdict") = None.
Proof.
  unfold validateEvent. intros H. cbv zeta in H.
  invert_validation H.
  - apply Return_inj in H. subst.
    match goal with
    | Hb : validate_build _ = inl _ |- _ =>
        destruct (validate_build_rejects _ _ Hb); discriminate
    end.
  - apply Return_inj in H. subst.
    match goal with
    | Hs : validate_scope _ = Return (inl _) |- _ =>
        destruct (validate_scope_rejects _ _ Hs); discriminate
    end.
  - apply Return_inj in H. injection H as <-. simpl.
    split; [|split; reflexivity].
    intros b ->. eapply validate_build_accepts; eassumption.
Qed.

(** ** The events handler: idempotency *)

Lemma handlePostEvents_existing (req : Request) (g : M value) (w : World)
      (payload : value) (ev : RelayEvent) (row : EventRow) :
  requireAuth req = None ->
  JSON_parse (req_body req) = Some payload ->
  validateEvent payload = Return (Valid ev) ->
  stored_event (event_id ev) w = Some row ->
  handlePostEvents req g w =
    (Return (if negb (row_payload_hash row =? payload_hash_of ev)%string
             then conflict_response ev (row_payload_hash row)
             else idempotent_response ev), w).
Proof.
  intros Hauth Hparse Hvalid Hrow.
  unfold handlePostEvents. rewrite Hauth, Hparse.
  rewrite bind_run. unfold lift. rewrite Hvalid. cbv iota.
  rewrite bind_run.
  change (select_event (event_id ev) w) with (Return (stored_event (event_id ev) w), w).
  rewrite Hrow. cbv iota.
  destruct (negb (row_payload_hash row =? payload_hash_of ev)%string); reflexivity.
Qed.

(** *** C2 *)


(** ** What the parts of the pipeline leave alone *)

Create HintDb frame.

Section Frame.

Variable R : World -> World -> Prop.
Hypothesis R_refl : forall w, R w w.
Hypothesis R_trans : forall w1 w2 w3, R w1 w2 -> R w2 w3 -> R w1 w3.
Hypothesis R_call :
  forall w call,
    R w {| db := db w; calls := (calls w ++ [call])%list; ticks := ticks w |}.
Hypothesis R_tick :
  forall w, R w {| db := db w; calls := calls w; ticks := S (ticks w) |}.
Hypothesis R_comments :
  forall w rows,
    R w {| db := {| events := events (db w); relay_status_comment := rows |};
           calls := calls w; ticks := ticks w |}.

Lemma preserves_ret {A} (a : A) : preserves R (ret a).
Proof. intros w. apply R_refl. Qed.

Lemma preserves_throw {A} (e : exn) : preserves R (@throw A e).
Proof. intros w. apply R_refl. Qed.

Lemma preserves_lift {A} (o : outcome A) : preserves R (lift o).
Proof. intros w. apply R_refl. Qed.

Lemma preserves_bind {A B} (c : M A) (k : A -> M B) :
  preserves R c -> (forall a, preserves R (k a)) -> preserves R (bind c k).
Proof.
  intros Hc Hk w. unfold bind. specialize (Hc w).
  destruct (c w) as [[a|e] w1]; simpl in *; [|assumption].
  eapply R_trans; [eassumption | apply Hk].
Qed.

Lemma preserves_try_catch {A} (c : M A) (h : exn -> M A) :
  preserves R c -> (forall e, preserves R (h e)) -> preserves R (try_catch c h).
Proof.
  intros Hc Hh w. unfold try_catch. specialize (Hc w).
  destruct (c w) as [[a|e] w1]; simpl in *; [assumption|].
  eapply R_trans; [eassumption | apply Hh].
Qed.

Lemma preserves_get_db : preserves R get_db.
Proof. intros w. apply R_refl. Qed.

Lemma preserves_nowIso : preserves R nowIso.
Proof. intros w. apply R_tick. Qed.

Lemma preserves_githubFetch (token : value) (call : ForgeCall) :
  preserves R (githubFetch token call).
Proof. intros w. apply R_call. Qed.

Lemma preserves_res_json (res : ForgeResponse) : preserves R (res_json res).
Proof. unfold res_json. destruct (json res); intros w; apply R_refl. Qed.

Lemma preserves_forge_error {A} (what : string) (res : ForgeResponse) :
  preserves R (@forge_error A what res).
Proof. intros w. apply R_refl. Qed.

Lemma preserves_touch_comment (now repo : string) (n : Z) :
  preserves R (touch_comment now repo n).
Proof. intros w. apply R_comments. Qed.

Lemma preserves_replace_comment (repo : string) (n : Z) (commentId now : string) :
  preserves R (replace_comment repo n commentId now).
Proof. intros w. apply R_comments. Qed.

Lemma preserves_select_comment (repo : string) (n : Z) :
  preserves R (select_comment repo n).
Proof. intros w. apply R_refl. Qed.

#[local] Hint Resolve preserves_ret preserves_throw preserves_lift preserves_get_db
     preserves_nowIso preserves_githubFetch preserves_res_json
     preserves_forge_error preserves_touch_comment preserves_replace_comment
     preserves_select_comment : frame.

Ltac frame :=
  repeat first
    [ solve [auto with frame]
    | progress intros
    | apply preserves_bind
    | apply preserves_try_catch
    | match goal with
      | |- preserves _ (if ?b then _ else _) => destruct b
      | |- preserves _ (match ?x with _ => _ end) => destruct x
      end ].

Lemma preserves_getInstallationToken : preserves R getInstallationToken.
Proof. unfold getInstallationToken. frame. Qed.

Lemma preserves_getPullRequestHeadSha (t : value) (repo : string) (n : Z) :
  preserves R (getPullRequestHeadSha t repo n).
Proof. unfold getPullRequestHeadSha. frame. Qed.

Lemma preserves_getIssueDetails (t : value) (repo : string) (n : Z) :
  preserves R (getIssueDetails t repo n).
Proof. unfold getIssueDetails. frame. Qed.

Lemma preserves_listIssueComments (t : value) (repo : string) (n page : Z) :
  preserves R (listIssueComments t repo n page).
Proof. unfold listIssueComments. frame. Qed.

Lemma preserves_createIssueComment (t : value) (repo : string) (n : Z) (body : string) :
  preserves R (createIssueComment t repo n body).
Proof. unfold createIssueComment. frame. Qed.

Lemma preserves_updateIssueComment (t : value) (repo id_ body : string) :
  preserves R (updateIssueComment t repo id_ body).
Proof. unfold updateIssueComment. frame. Qed.

Lemma preserves_putIssueLabels (t : value) (repo : string) (n : Z) (labels : list value) :
  preserves R (putIssueLabels t repo n labels).
Proof. unfold putIssueLabels. frame. Qed.

#[local] Hint Resolve preserves_getInstallationToken preserves_getPullRequestHeadSha
     preserves_getIssueDetails preserves_listIssueComments
     preserves_createIssueComment preserves_updateIssueComment
     preserves_putIssueLabels : frame.

Lemma preserves_scan_comments (fuel : nat) (t : value) (repo : string) (n page : Z) :
  preserves R (scan_comments fuel t repo n page).
Proof.
  revert page. induction fuel as [|fuel IH]; intros page; simpl; frame.
Qed.

#[local] Hint Resolve preserves_scan_comments : frame.

Lemma preserves_upsertRollingComment (t : value) (repo : string) (n : Z) (body : string) :
  preserves R (upsertRollingComment t repo n body).
Proof.
  unfold upsertRollingComment, upsert_mapped, upsert_scan, upsert_create. frame.
Qed.

Lemma preserves_applyLabelRules (t : value) (repo : string) (n : Z)
      (eventType : string) (verdict : value) :
  preserves R (applyLabelRules t repo n eventType verdict).
Proof. unfold applyLabelRules. frame. Qed.

Lemma preserves_provenanceCheck (t : value) (ev : RelayEvent) :
  preserves R (provenanceCheck t ev).
Proof. unfold provenanceCheck. frame. Qed.

#[local] Hint Resolve preserves_upsertRollingComment preserves_applyLabelRules : frame.

Lemma preserves_getLatestEventByType (repo : string) (n : Z) (eventType : string) :
  preserves R (getLatestEventByType repo n eventType).
Proof. intros w. apply R_refl. Qed.

Lemma preserves_getRecentEvents (repo : string) (n : Z) (limit : nat) :
  preserves R (getRecentEvents repo n limit).
Proof. intros w. apply R_refl. Qed.

#[local] Hint Resolve preserves_getLatestEventByType preserves_getRecentEvents : frame.

Lemma preserves_publish (t : value) (ev : RelayEvent) (pv : option bool)
      (ph : option string) (eff : value) :
  preserves R (publish t ev pv ph eff).
Proof. unfold publish. frame. Qed.

End Frame.

Lemma same_events_publish (t : value) (ev : RelayEvent) (pv : option bool)
      (ph : option string) (eff : value) :
  preserves same_events (publish t ev pv ph eff).
Proof.
  apply preserves_publish; unfold same_events; intros; simpl; congruence.
Qed.

Lemma more_calls_publish (t : value) (ev : RelayEvent) (pv : option bool)
      (ph : option string) (eff : value) :
  preserves more_calls (publish t ev pv ph eff).
Proof.
  apply preserves_publish; unfold more_calls; simpl.
  - intros w. exists []. symmetry. apply app_nil_r.
  - intros w1 w2 w3 [a1 H1] [a2 H2]. exists (a1 ++ a2)%list.
    rewrite H2, H1. symmetry. apply app_assoc.
  - intros w call. eexists. reflexivity.
  - intros w. exists []. symmetry. apply app_nil_r.
  - intros w rows. exists []. symmetry. apply app_nil_r.
Qed.

Lemma returns_bind {A B} (P : B -> Prop) (c : M A) (k : A -> M B) :
  (forall a, returns P (k a)) -> returns P (bind c k).
Proof.
  intros Hk w b. unfold bind.
  destruct (c w) as [[a|e] w1] eqn:Hc; simpl; [apply Hk | discriminate].
Qed.

Lemma returns_ret {A} (P : A -> Prop) (a : A) : P a -> returns P (ret a).
Proof. intros Ha w b Hb. simpl in Hb. injection Hb as <-. exact Ha. Qed.

(** When [publish] returns, it returns the 201 answer with the effective
    verdict and the provenance flag it was given. *)
Lemma publish_returns (t : value) (ev : RelayEvent) (pv : option bool)
      (ph : option string) (eff : value) :
  returns (fun res => exists commentId, res = stored_response ev commentId eff pv)
          (publish t ev pv ph eff).
Proof.
  unfold publish.
  repeat (apply returns_bind; intros).
  apply returns_ret. eexists. reflexivity.
Qed.


(** ** The events handler: a new event *)

Lemma getInstallationToken_run (w : World) (token : value) :
  token_answer (calls w) token ->
  getInstallationToken w = (Return token, after_call w MintToken).
Proof.
  intros [Hok [data [Hjson Htoken]]].
  unfold getInstallationToken. rewrite bind_run. unfold githubFetch.
  rewrite Hok. cbn [negb]. rewrite bind_run. unfold res_json. rewrite Hjson.
  unfold ret, lift. rewrite Htoken. reflexivity.
Qed.

Lemma getPullRequestHeadSha_run (t : value) (repo : string) (n : Z) (sha : string)
      (w : World) :
  pr_head_answer (calls w) repo n sha ->
  getPullRequestHeadSha t repo n w
  = (Return (Js.toLowerCase sha), after_call w (GetPull repo n)).
Proof.
  intros [Hok [pull [head [Hjson [Hhead ->]]]]].
  unfold getPullRequestHeadSha. rewrite bind_run. unfold githubFetch.
  rewrite Hok. cbn [negb]. rewrite bind_run. unfold res_json. rewrite Hjson.
  unfold ret at 1. rewrite bind_run. unfold lift. rewrite Hhead. reflexivity.
Qed.

Lemma provenanceCheck_present (t : value) (ev : RelayEvent) (b : Build) (n : Z)
      (sha : string) (w : World) :
  build ev = Some b -> pr b = Some n -> n <> 0 -> commit_sha b <> "" ->
  pr_head_answer (calls w) (repo ev) n sha ->
  provenanceCheck t ev w
  = (Return (Some (eq_ignore_case sha (commit_sha b)),
             Some (Js.toLowerCase sha),
             downgraded (eq_ignore_case sha (commit_sha b)) (overall_verdict ev)),
     after_call w (GetPull (repo ev) n)).
Proof.
  intros Hb Hp Hn Hc Hans. unfold provenanceCheck. rewrite Hb, Hp.
  apply Z.eqb_neq in Hn. rewrite Hn.
  apply String.eqb_neq in Hc. rewrite Hc. cbn [negb andb].
  rewrite bind_run, (getPullRequestHeadSha_run _ _ _ _ _ Hans). reflexivity.
Qed.

Lemma provenanceCheck_absent (t : value) (ev : RelayEvent) (w : World) :
  build ev = None \/ (exists b, build ev = Some b /\ pr b = None) ->
  provenanceCheck t ev w = (Return (None, None, overall_verdict ev), w).
Proof.
  unfold provenanceCheck. intros [-> | [b [-> ->]]]; reflexivity.
Qed.

Lemma find_none_existsb {A} (f : A -> bool) (l : list A) :
  find f l = None -> existsb f l = false.
Proof.
  induction l as [|x l IH]; simpl; [reflexivity|].
  destruct (f x); [discriminate | exact IH].
Qed.

Lemma persistEvent_run (ev : RelayEvent) (eff : value) (w : World) :
  stored_event (event_id ev) w = None ->
  persistEvent ev eff w
  = (Return tt,
     {| db := {| events := (events (db w) ++ [event_row ev eff (clock (ticks w))])%list;
                 relay_status_comment := relay_status_comment (db w) |};
        calls := calls w;
        ticks := S (ticks w) |}).
Proof.
  intros Hnone. apply find_none_existsb in Hnone.
  unfold persistEvent, insert_event, nowIso, bind, get_db, put_db. simpl.
  rewrite Hnone. reflexivity.
Qed.

(** The run of a request that is authenticated, valid and new, once the
    token is minted and the provenance check has returned. *)
Lemma handlePostEvents_new (req : Request) (w : World) (payload : value)
      (ev : RelayEvent) (token : value) (pv : option bool) (ph : option string)
      (eff : value) (w2 : World) :
  requireAuth req = None ->
  JSON_parse (req_body req) = Some payload ->
  validateEvent payload = Return (Valid ev) ->
  stored_event (event_id ev) w = None ->
  token_answer (calls w) token ->
  provenanceCheck token ev (after_call w MintToken) = (Return (pv, ph, eff), w2) ->
  events (db w2) = events (db w) ->
  forall res w', fetch_v2_events req w = (res, w') ->
    events (db w') = (events (db w) ++ [event_row ev eff (clock (ticks w2))])%list
    /\ more_calls w2 w'
    /\ (http_status res = 201 ->
        exists commentId, res = stored_response ev commentId eff pv).
Proof.
  intros Hauth Hparse Hvalid Hnone Htoken Hcheck Hevents res w'.
  unfold fetch_v2_events, handlePostEvents. rewrite Hauth, Hparse.
  rewrite bind_run. unfold lift. rewrite Hvalid. cbv iota.
  rewrite bind_run.
  change (select_event (event_id ev) w) with (Return (stored_event (event_id ev) w), w).
  rewrite Hnone. cbv iota.
  rewrite bind_run, (getInstallationToken_run _ _ Htoken).
  rewrite bind_run, Hcheck. cbv iota beta.
  rewrite bind_run, persistEvent_run
    by (unfold stored_event; rewrite Hevents; exact Hnone).
  match goal with
  | |- context [publish ?t ?e ?a ?b ?c ?w3] =>
      pose proof (same_events_publish t e a b c w3) as Hsame;
      pose proof (more_calls_publish t e a b c w3) as Hmore;
      pose proof (publish_returns t e a b c w3) as Hret;
      destruct (publish t e a b c w3) as [[res0|err] w3'] eqn:Hpub
  end; simpl in Hsame, Hmore, Hret; intros Hrun; injection Hrun as <- <-.
  - unfold same_events in Hsame. simpl in Hsame. rewrite Hsame, Hevents.
    split; [reflexivity|]. split; [exact Hmore|].
    intros _. apply Hret. reflexivity.
  - unfold same_events in Hsame. simpl in Hsame. rewrite Hsame, Hevents.
    split; [reflexivity|]. split; [exact Hmore|].
    simpl. discriminate.
Qed.

(** The row, the answer and the effective verdict, spelled out. *)
Lemma event_row_spelled (ev : RelayEvent) (eff : value) (now : string) :
  event_row ev eff now
  = {| row_event_id := event_id ev;
       row_repo := repo ev;
       row_issue_number := issue_number ev;
       row_event_type := event_type ev;
       row_role := role ev;
       row_agent := agent ev;
       row_environment := environment ev;
       row_overall_verdict := column eff;
       row_created_at := now;
       row_payload_hash := sha256Hex (Js.stringify (RelayEvent_object ev));
       row_payload_json := Js.stringify (RelayEvent_object ev) |}.
Proof. reflexivity. Qed.

Lemma stored_response_spelled (ev : RelayEvent) (commentId : string) (eff : value)
      (pv : option bool) :
  stored_response ev commentId eff pv
  = {| http_status := 201;
       http_body :=
         BodyJson (JObj [ ("ok", JBool true);
                          ("event_id", JStr (event_id ev));
                          ("stored", JBool true);
                          ("rolling_comment_id", JStr commentId);
                          ("verdict", eff);
                          ("provenance_verified",
                           match pv with Some b => JBool b | None => JNull end) ]) |}.
Proof. reflexivity. Qed.

Lemma downgraded_spelled (verified : bool) (verdict : value) :
  downgraded verified verdict
  = if negb verified && Js.is_str verdict "PASS" then JStr "PASS_UNVERIFIED" else verdict.
Proof. reflexivity. Qed.

Lemma ticks_after_call (w : World) (call : ForgeCall) : ticks (after_call w call) = ticks w.
Proof. reflexivity. Qed.

(** *** C1 *)

(** C1.  For a validated, new event and a minted token.  When the event
    has both [build.pr] and [build.commit_sha] and the forge answers the
    pull-request fetch, the pipeline issues that fetch right after the
    token exchange and compares the head SHA with the reported one without
    regard to case.  The effective verdict is [PASS_UNVERIFIED] when the
    comparison is false and the caller's verdict is [PASS], and the
    caller's verdict otherwise: it is what the [overall_verdict] column of
    the one inserted row holds and what the [verdict] of the 201 answer
    holds, next to [provenance_verified], the outcome of the comparison.
    When [build] or [build.pr] is absent the row and the answer hold the
    caller's verdict and [provenance_verified] is [null]. *)
Theorem C1_provenance_downgrade
        (req : Request) (w : World) (payload : value) (ev : RelayEvent) (token : value) :
  requireAuth req = None ->
  JSON_parse (req_body req) = Some payload ->
  validateEvent payload = Return (Valid ev) ->
  stored_event (event_id ev) w = None ->
  token_answer (calls w) token ->
  (forall b n sha,
      build ev = Some b -> pr b = Some n ->
      pr_head_answer (calls w ++ [MintToken]) (repo ev) n sha ->
      let verified := eq_ignore_case sha (commit_sha b) in
      let effective :=
        if negb verified && Js.is_str (overall_verdict ev) "PASS"
        then JStr "PASS_UNVERIFIED" else overall_verdict ev in
      forall res w', fetch_v2_events req w = (res, w') ->
        (exists later,
            calls w' = (calls w ++ [MintToken; GetPull (repo ev) n] ++ later)%list)
        /\ events (db w')
           = (events (db w)
              ++ [{| row_event_id := event_id ev;
                     row_repo := repo ev;
                     row_issue_number := issue_number ev;
                     row_event_type := event_type ev;
                     row_role := role ev;
                     row_agent := agent ev;
                     row_environment := environment ev;
                     row_overall_verdict := column effective;
                     row_created_at := clock (ticks w);
                     row_payload_hash := sha256Hex (Js.stringify (RelayEvent_object ev));
                     row_payload_json := Js.stringify (RelayEvent_object ev) |}])%list
        /\ (http_status res = 201 ->
            exists commentId,
              res = {| http_status := 201;
                       http_body :=
                         BodyJson (JObj [ ("ok", JBool true);
                                          ("event_id", JStr (event_id ev));
                                          ("stored", JBool true);
                                          ("rolling_comment_id", JStr commentId);
                                          ("verdict", effective);
                                          ("provenance_verified", JBool verified) ]) |}))
  /\ (build ev = None \/ (exists b, build ev = Some b /\ pr b = None) ->
      forall res w', fetch_v2_events req w = (res, w') ->
        events (db w')
        = (events (db w)
           ++ [{| row_event_id := event_id ev;
                  row_repo := repo ev;
                  row_issue_number := issue_number ev;
                  row_event_type := event_type ev;
                  row_role := role ev;
                  row_agent := agent ev;
                  row_environment := environment ev;
                  row_overall_verdict := column (overall_verdict ev);
                  row_created_at := clock (ticks w);
                  row_payload_hash := sha256Hex (Js.stringify (RelayEvent_object ev));
                  row_payload_json := Js.stringify (RelayEvent_object ev) |}])%list
        /\ (http_status res = 201 ->
            exists commentId,
              res = {| http_status := 201;
                       http_body :=
                         BodyJson (JObj [ ("ok", JBool true);
                                          ("event_id", JStr (event_id ev));
                                          ("stored", JBool true);
                                          ("rolling_comment_id", JStr commentId);
                                          ("verdict", overall_verdict ev);
                                          ("provenance_verified", JNull) ]) |})).
Proof.
  intros Hauth Hparse Hvalid Hnone Htoken. split.
  - intros b n sha Hb Hp Hans verified effective res w' Hrun.
    destruct (validateEvent_Valid _ _ Hvalid) as [Hbuild _].
    destruct (Hbuild b Hb) as [Hsha Hpr].
    assert (Hn : n <> 0) by (intros ->; apply Hpr, Hp).
    pose proof (provenanceCheck_present token ev b n sha (after_call w MintToken)
                  Hb Hp Hn Hsha Hans) as Hcheck.
    destruct (handlePostEvents_new _ _ _ _ _ _ _ _ _ Hauth Hparse Hvalid Hnone Htoken
                Hcheck eq_refl res w' Hrun) as [Hev [[later Hcalls] Hres]].
    rewrite event_row_spelled, !ticks_after_call, downgraded_spelled in Hev.
    split; [|split].
    + exists later. rewrite Hcalls. simpl. rewrite <- !app_assoc. reflexivity.
    + exact Hev.
    + intros H201. destruct (Hres H201) as [commentId Hc]. exists commentId.
      rewrite Hc, stored_response_spelled, downgraded_spelled. reflexivity.
  - intros Habsent res w' Hrun.
    pose proof (provenanceCheck_absent token ev (after_call w MintToken) Habsent) as Hcheck.
    destruct (handlePostEvents_new _ _ _ _ _ _ _ _ _ Hauth Hparse Hvalid Hnone Htoken
                Hcheck eq_refl res w' Hrun) as [Hev [_ Hres]].
    rewrite event_row_spelled, !ticks_after_call in Hev.
    split; [exact Hev|].
    intros H201. destruct (Hres H201) as [commentId Hc]. exists commentId.
    rewrite Hc, stored_response_spelled. reflexivity.
Qed.

(** ** The canonical payload *)

Lemma append_assoc (a b c : string) : (a ++ b) ++ c = a ++ (b ++ c).
Proof. induction a as [|x a IH]; simpl; [reflexivity | rewrite IH; reflexivity]. Qed.

Lemma append_empty_r (a : string) : a ++ "" = a.
Proof. induction a as [|x a IH]; simpl; [reflexivity | rewrite IH; reflexivity]. Qed.

Lemma concat_middle (sep x : string) (l1 l2 : list string) :
  exists before after_, String.concat sep (l1 ++ x :: l2) = before ++ x ++ after_.
Proof.
  induction l1 as [|y l1 [before [after_ IH]]].
  - exists "". destruct l2 as [|z l2]; simpl.
    + exists "". symmetry. apply append_empty_r.
    + eexists. reflexivity.
  - simpl app. destruct (l1 ++ x :: l2)%list as [|z l] eqn:Hl.
    + destruct l1; discriminate.
    + exists (y ++ sep ++ before), after_.
      change (String.concat sep (y :: z :: l)) with (y ++ sep ++ String.concat sep (z :: l)).
      rewrite IH, !append_assoc. reflexivity.
Qed.

Lemma stringify_member (fs1 fs2 : list (string * value)) (k : string) (v : value) :
  v <> JUndefined ->
  carries_member (Js.stringify (JObj (fs1 ++ (k, v) :: fs2))) k v.
Proof.
  intros Hv. unfold carries_member.
  cbn [Js.stringify].
  match goal with
  | |- context [String.concat "," (?F _)] => set (members := F)
  end.
  assert (Hsplit : members (fs1 ++ (k, v) :: fs2)%list
                   = (members fs1
                        ++ (Js.quote k ++ ":" ++ Js.stringify v)%string :: members fs2)%list).
  { induction fs1 as [|[k' v'] fs1 IH].
    - simpl. destruct v; try reflexivity. contradiction.
    - simpl app. cbn [members]. unfold members at 1 3. fold members.
      destruct v'; rewrite IH; reflexivity. }
  rewrite Hsplit.
  destruct (concat_middle "," (Js.quote k ++ ":" ++ Js.stringify v) (members fs1) (members fs2))
    as [before [after_ Hc]].
  rewrite Hc. exists ("{" ++ before), (after_ ++ "}").
  rewrite !append_assoc. reflexivity.
Qed.

(** The canonical payload spells out the verdict of the validated event. *)
Lemma payload_json_verdict (ev : RelayEvent) :
  overall_verdict ev <> JUndefined ->
  carries_member (payload_json_of ev) "overall_verdict" (overall_verdict ev).
Proof.
  intros Hv. unfold payload_json_of, RelayEvent_object.
  match goal with
  | |- carries_member (Js.stringify (JObj (?a :: ?b :: ?c :: ?d :: ?e :: ?f :: ?g :: ?h :: ?i :: ?rest))) _ _ =>
      change (a :: b :: c :: d :: e :: f :: g :: h :: i :: rest)
        with ([a; b; c; d; e; f; g; h; i] ++ rest)%list
  end.
  apply stringify_member, Hv.
Qed.

Lemma only_calls_provenanceCheck (t : value) (ev : RelayEvent) :
  preserves only_calls (provenanceCheck t ev).
Proof.
  apply preserves_provenanceCheck; unfold only_calls; simpl.
  - intros w. split; reflexivity.
  - intros w1 w2 w3 [Hd1 Ht1] [Hd2 Ht2]. split; congruence.
  - intros w call. split; reflexivity.
Qed.

Lemma find_app_new {A} (f : A -> bool) (l : list A) (x : A) :
  find f l = None -> f x = true -> find f (l ++ [x]) = Some x.
Proof.
  intros Hl Hx. induction l as [|y l IH]; simpl in *.
  - rewrite Hx. reflexivity.
  - destruct (f y); [discriminate | apply IH, Hl].
Qed.

(** *** C10 *)

(** C10.  The payload hash and the canonical payload are computed from the
    validated event before the provenance check.  So for a validated, new
    event, whatever the check leaves as effective verdict: the inserted row
    takes every column from the validated event and the clock except
    [overall_verdict], which holds the effective verdict, as does the
    [verdict] of the 201 answer; the stored [payload_json] still spells
    out the caller's own verdict; and the same request sent again finds the
    row with an equal hash and gets the idempotent answer, leaving the
    world as it is. *)
Theorem C10_downgrade_leaves_payload
        (req : Request) (w : World) (payload : value) (ev : RelayEvent) (token : value) :
  requireAuth req = None ->
  JSON_parse (req_body req) = Some payload ->
  validateEvent payload = Return (Valid ev) ->
  stored_event (event_id ev) w = None ->
  token_answer (calls w) token ->
  forall pv ph eff w2,
    provenanceCheck token ev (after_call w MintToken) = (Return (pv, ph, eff), w2) ->
    forall res w', fetch_v2_events req w = (res, w') ->
      (exists row,
          events (db w') = (events (db w) ++ [row])%list
          /\ row = {| row_event_id := event_id ev;
                      row_repo := repo ev;
                      row_issue_number := issue_number ev;
                      row_event_type := event_type ev;
                      row_role := role ev;
                      row_agent := agent ev;
                      row_environment := environment ev;
                      row_overall_verdict := or_null eff;
                      row_created_at := clock (ticks w);
                      row_payload_hash := sha256Hex (Js.stringify (RelayEvent_object ev));
                      row_payload_json := Js.stringify (RelayEvent_object ev) |}
          /\ (overall_verdict ev <> JUndefined ->
              carries_member (row_payload_json row) "overall_verdict"
                             (Js.prop payload "overall_verdict")))
      /\ (http_status res = 201 ->
          exists commentId, res = stored_response ev commentId eff pv)
      /\ (forall res2 w'', fetch_v2_events req w' = (res2, w'') ->
                           res2 = idempotent_response ev /\ w'' = w').
Proof.
  intros Hauth Hparse Hvalid Hnone Htoken pv ph eff w2 Hcheck res w' Hrun.
  destruct (only_calls_provenanceCheck token ev (after_call w MintToken)) as [Hdb Hticks].
  rewrite Hcheck in Hdb, Hticks. simpl in Hdb, Hticks.
  assert (Hevents : events (db w2) = events (db w)) by (rewrite Hdb; reflexivity).
  destruct (handlePostEvents_new _ _ _ _ _ _ _ _ _ Hauth Hparse Hvalid Hnone Htoken
              Hcheck Hevents res w' Hrun) as [Hev [_ Hres]].
  rewrite Hticks in Hev.
  destruct (validateEvent_Valid _ _ Hvalid) as [_ [Hverdict _]].
  split; [|split].
  - eexists. split; [exact Hev|]. split; [reflexivity|].
    intros Hv. rewrite <- Hverdict. apply (payload_json_verdict ev Hv).
  - exact Hres.
  - intros res2 w'' Hrun2.
    assert (Hrow : stored_event (event_id ev) w'
                   = Some (event_row ev eff (clock (ticks w)))).
    { unfold stored_event. rewrite Hev. apply find_app_new; [exact Hnone|].
      simpl. apply String.eqb_refl. }
    unfold fetch_v2_events in Hrun2.
    rewrite (handlePostEvents_existing _ _ _ _ _ _ Hauth Hparse Hvalid Hrow) in Hrun2.
    simpl row_payload_hash in Hrun2. rewrite String.eqb_refl in Hrun2.
    simpl in Hrun2. injection Hrun2 as <- <-. split; reflexivity.
Qed.

(** ** The rolling-comment upsert *)

Lemma updateIssueComment_ok (t : value) (repo id_ body : string) (w : World) :
  update_succeeds (calls w) repo id_ body ->
  exists v, updateIssueComment t repo id_ body w
            = (Return v, after_call w (UpdateComment repo id_ body)).
Proof.
  intros [Hok Hjson]. unfold updateIssueComment. rewrite bind_run. unfold githubFetch.
  rewrite Hok. cbn [negb]. unfold res_json.
  destruct (json (forge (calls w) (UpdateComment repo id_ body))) as [v|];
    [exists v; reflexivity | contradiction].
Qed.

Lemma updateIssueComment_fails (t : value) (repo id_ body : string) (w : World) :
  ~ update_succeeds (calls w) repo id_ body ->
  exists e, updateIssueComment t repo id_ body w
            = (Throw e, after_call w (UpdateComment repo id_ body)).
Proof.
  intros Hno. unfold updateIssueComment. rewrite bind_run. unfold githubFetch.
  destruct (res_ok (forge (calls w) (UpdateComment repo id_ body))) eqn:Hok; cbn [negb].
  - unfold res_json.
    destruct (json (forge (calls w) (UpdateComment repo id_ body))) as [v|] eqn:Hjson.
    + exfalso. apply Hno. split; [exact Hok | rewrite Hjson; discriminate].
    + eexists. reflexivity.
  - eexists. reflexivity.
Qed.

Lemma updateIssueComment_refused (t : value) (repo id_ body : string) (w : World) :
  update_refused (calls w) repo id_ body ->
  updateIssueComment t repo id_ body w
  = (Throw (Error ("GitHub update comment error: "
                   ++ Js.Z_to_string (status (forge (calls w) (UpdateComment repo id_ body)))
                   ++ " " ++ text (forge (calls w) (UpdateComment repo id_ body)))),
     after_call w (UpdateComment repo id_ body)).
Proof.
  intros Hno. unfold updateIssueComment. rewrite bind_run. unfold githubFetch.
  unfold update_refused in Hno. rewrite Hno. reflexivity.
Qed.

Lemma listing_later (history later : list ForgeCall) (repo : string) (n : Z)
      (pages : Z -> list value) :
  listing history repo n pages -> listing (history ++ later) repo n pages.
Proof.
  intros H later' page. rewrite <- app_assoc. apply H.
Qed.

Lemma listIssueComments_run (t : value) (repo : string) (n page : Z)
      (pages : Z -> list value) (w : World) :
  listing (calls w) repo n pages ->
  listIssueComments t repo n page w
  = (Return (JArr (pages page)), after_call w (ListComments repo n 100 page)).
Proof.
  intros H. destruct (H [] page) as [Hok Hjson]. rewrite app_nil_r in Hok, Hjson.
  unfold listIssueComments. rewrite bind_run. unfold githubFetch.
  rewrite Hok. cbn [negb]. unfold res_json. rewrite Hjson. reflexivity.
Qed.

Lemma find_marker_typed (cs : list value) :
  forallb comment_typed cs = true ->
  find_marker cs = Return match find carries_marker cs with
                          | Some c => c
                          | None => JUndefined
                          end.
Proof.
  induction cs as [|c cs IH]; simpl; [reflexivity|].
  intros H. apply andb_true_iff in H. destruct H as [Hc Hcs].
  unfold comment_typed in Hc. apply andb_true_iff in Hc. destruct Hc as [Hc _].
  apply negb_true_iff in Hc.
  unfold has_marker.
  assert (Hm : Js.member c "body" = Return (Js.prop c "body"))
    by (destruct c; try discriminate; reflexivity).
  rewrite Hm. cbn [obind]. unfold carries_marker.
  destruct (Js.prop c "body"); try (apply IH, Hcs).
  destruct (Js.includes s RELAY_STATUS_MARKER); [reflexivity | apply IH, Hcs].
Qed.

Lemma find_typed (f : value -> bool) (cs : list value) (c : value) :
  forallb comment_typed cs = true -> find f cs = Some c -> comment_typed c = true.
Proof.
  intros Hall Hfind. apply find_some in Hfind. destruct Hfind as [Hin _].
  rewrite forallb_forall in Hall. apply Hall, Hin.
Qed.

Lemma comment_typed_truthy (c : value) : comment_typed c = true -> Js.truthy c = true.
Proof.
  unfold comment_typed. destruct c; simpl; try discriminate; try reflexivity.
Qed.

Lemma after_calls_nil (w : World) : after_calls w [] = w.
Proof. destruct w. unfold after_calls. simpl. rewrite app_nil_r. reflexivity. Qed.

Lemma after_calls_cons (w : World) (call : ForgeCall) (l : list ForgeCall) :
  after_calls (after_call w call) l = after_calls w (call :: l).
Proof. unfold after_calls, after_call. simpl. rewrite <- app_assoc. reflexivity. Qed.

Lemma after_calls_snoc (w : World) (l : list ForgeCall) (call : ForgeCall) :
  after_call (after_calls w l) call = after_calls w (l ++ [call]).
Proof. unfold after_calls, after_call. simpl. rewrite <- app_assoc. reflexivity. Qed.

(** The loop of the source computes the scan of the specification. *)
Lemma scan_comments_spec (t : value) (repo : string) (n : Z) (pages : Z -> list value) :
  (forall page, forallb comment_typed (pages page) = true) ->
  forall fuel page w,
    listing (calls w) repo n pages ->
    page + Z.of_nat fuel = 4 ->
    scan_comments fuel t repo n page w
    = (Return match fst (marker_scan pages fuel page) with
              | Some c => c
              | None => JNull
              end,
       after_calls w (list_calls repo n (snd (marker_scan pages fuel page)))).
Proof.
  intros Htyped. induction fuel as [|fuel IH]; intros page w Hlist Hpage.
  - simpl. unfold ret. rewrite after_calls_nil. reflexivity.
  - cbn [scan_comments marker_scan].
    assert (Hle : (page <=? 3) = true) by (apply Z.leb_le; lia).
    rewrite Hle, bind_run, (listIssueComments_run _ _ _ _ _ _ Hlist).
    rewrite bind_run. unfold lift. rewrite (find_marker_typed _ (Htyped page)).
    destruct (find carries_marker (pages page)) as [c|] eqn:Hfind.
    + pose proof (comment_typed_truthy _ (find_typed _ _ _ (Htyped page) Hfind)) as Hc.
      unfold Js.or. rewrite Hc. cbv iota.
      destruct (Z.of_nat (List.length (pages page)) <? 100);
        [reflexivity | rewrite Hc; reflexivity].
    + unfold Js.or. cbn [Js.truthy]. cbv iota. cbn [Js.truthy]. cbv iota.
      destruct (Z.of_nat (List.length (pages page)) <? 100); [reflexivity|].
      rewrite IH; [|apply listing_later, Hlist | lia].
      destruct (marker_scan pages fuel (page + 1)) as [winner listed]. simpl.
      rewrite after_calls_cons. reflexivity.
Qed.


Lemma marker_scan_typed (pages : Z -> list value) (budget : nat) (page : Z) (c : value) :
  (forall page, forallb comment_typed (pages page) = true) ->
  fst (marker_scan pages budget page) = Some c ->
  comment_typed c = true /\ carries_marker c = true.
Proof.
  intros Htyped. revert page. induction budget as [|budget IH]; intros page; simpl;
    [discriminate|].
  destruct (find carries_marker (pages page)) as [c'|] eqn:Hfind; simpl.
  - intros Hc. injection Hc as <-. split.
    + eapply find_typed; [apply Htyped | exact Hfind].
    + apply find_some in Hfind. apply Hfind.
  - destruct (Z.of_nat (List.length (pages page)) <? 100); simpl; [discriminate|].
    specialize (IH (page + 1)).
    destruct (marker_scan pages budget (page + 1)). simpl in *. exact IH.
Qed.


Lemma update_refused_not_succeeds (history : list ForgeCall) (repo id_ body : string) :
  update_refused history repo id_ body -> ~ update_succeeds history repo id_ body.
Proof. unfold update_refused. intros Hr [Hok _]. congruence. Qed.

(** Tier 1. *)

Lemma upsert_mapped_hit (t : value) (repo : string) (n : Z) (body : string)
      (w : World) (row : CommentRow) :
  find (same_issue repo n) (relay_status_comment (db w)) = Some row ->
  map_comment_id row <> "" ->
  update_succeeds (calls w) repo (map_comment_id row) body ->
  upsert_mapped t repo n body w
  = (Return (Some (map_comment_id row)),
     with_mapping (after_call w (UpdateComment repo (map_comment_id row) body))
                  (bumped_rows (clock (ticks w)) repo n (relay_status_comment (db w)))).
Proof.
  intros Hrow Hid Hok. unfold upsert_mapped. rewrite bind_run.
  change (select_comment repo n w)
    with (Return (find (same_issue repo n) (relay_status_comment (db w))), w).
  rewrite Hrow. cbv iota.
  apply String.eqb_neq in Hid. rewrite Hid. cbn [negb].
  unfold try_catch. rewrite bind_run.
  destruct (updateIssueComment_ok t _ _ _ _ Hok) as [v Hv]. rewrite Hv.
  reflexivity.
Qed.

Lemma upsert_mapped_falls_through (t : value) (repo : string) (n : Z) (body : string)
      (w : World) (row : CommentRow) :
  find (same_issue repo n) (relay_status_comment (db w)) = Some row ->
  map_comment_id row <> "" ->
  ~ update_succeeds (calls w) repo (map_comment_id row) body ->
  upsert_mapped t repo n body w
  = (Return None, after_call w (UpdateComment repo (map_comment_id row) body)).
Proof.
  intros Hrow Hid Hno. unfold upsert_mapped. rewrite bind_run.
  change (select_comment repo n w)
    with (Return (find (same_issue repo n) (relay_status_comment (db w))), w).
  rewrite Hrow. cbv iota.
  apply String.eqb_neq in Hid. rewrite Hid. cbn [negb].
  unfold try_catch. rewrite bind_run.
  destruct (updateIssueComment_fails t _ _ _ _ Hno) as [e He]. rewrite He.
  reflexivity.
Qed.


(** Tiers 2 and 3. *)

Lemma upsert_scan_update (t : value) (repo : string) (n : Z) (body : string)
      (pages : Z -> list value) (w : World) (c : value) :
  (forall page, forallb comment_typed (pages page) = true) ->
  listing (calls w) repo n pages ->
  fst (marker_scan pages 3 1) = Some c ->
  let w1 := after_calls w (list_calls repo n (snd (marker_scan pages 3 1))) in
  let commentId := Js.String (Js.prop c "id") in
  (update_succeeds (calls w1) repo commentId body ->
   upsert_scan t repo n body w
   = (Return commentId,
      with_mapping (after_call w1 (UpdateComment repo commentId body))
                   (upserted_rows repo n commentId (clock (ticks w))
                                  (relay_status_comment (db w)))))
  /\ (~ update_succeeds (calls w1) repo commentId body ->
      exists e, upsert_scan t repo n body w
                = (Throw e, after_call w1 (UpdateComment repo commentId body)))
  /\ (update_refused (calls w1) repo commentId body ->
      upsert_scan t repo n body w
      = (Throw (Error ("GitHub update comment error: "
                       ++ Js.Z_to_string
                            (status (forge (calls w1) (UpdateComment repo commentId body)))
                       ++ " "
                       ++ text (forge (calls w1) (UpdateComment repo commentId body)))),
         after_call w1 (UpdateComment repo commentId body))).
Proof.
  intros Htyped Hlist Hwin w1 commentId.
  destruct (marker_scan_typed _ _ _ _ Htyped Hwin) as [Hc _].
  assert (Hid : Js.truthy (Js.opt_member c "id") = true /\ Js.opt_member c "id" = Js.prop c "id").
  { unfold comment_typed in Hc. apply andb_true_iff in Hc. destruct Hc as [Hn Ht].
    destruct c; try discriminate; simpl in *; split; auto. }
  destruct Hid as [Hid Hopt].
  assert (Hscan : upsert_scan t repo n body w
                  = bind (updateIssueComment t repo commentId body)
                      (fun _ => bind nowIso (fun now =>
                         bind (replace_comment repo n commentId now)
                           (fun _ => ret commentId))) w1).
  { unfold upsert_scan. rewrite bind_run.
    rewrite (scan_comments_spec t repo n pages Htyped 3 1 w Hlist eq_refl).
    rewrite Hwin. cbv iota. rewrite Hid, Hopt. reflexivity. }
  rewrite Hscan. split; [|split].
  - intros Hok. rewrite bind_run.
    destruct (updateIssueComment_ok t _ _ _ _ Hok) as [v Hv]. rewrite Hv. reflexivity.
  - intros Hno. rewrite bind_run.
    destruct (updateIssueComment_fails t _ _ _ _ Hno) as [e He]. rewrite He.
    exists e. reflexivity.
  - intros Hno. rewrite bind_run, (updateIssueComment_refused t _ _ _ _ Hno). reflexivity.
Qed.


Lemma upsert_first_tier (t : value) (repo : string) (n : Z) (body : string) (w : World)
      (r : option string) (w1 : World) :
  upsert_mapped t repo n body w = (Return r, w1) ->
  upsertRollingComment t repo n body w
  = match r with
    | Some commentId => (Return commentId, w1)
    | None => upsert_scan t repo n body w1
    end.
Proof.
  intros H. unfold upsertRollingComment. rewrite bind_run, H. destruct r; reflexivity.
Qed.


(** *** C3 *)


(** *** C5 (as amended) *)

(** C5, amended.  A non-2xx answer to the update-comment call on the
    mapping-table path does not end the upsert: it goes on with the marker
    scan, from the world in which that call was made.  On the marker-scan
    path the call is not guarded: a non-2xx answer makes the upsert throw
    the forge error, after the update call and without creating a
    comment. *)
Theorem C5_update_failure_by_path
        (t : value) (repo : string) (n : Z) (body : string) (w : World) :
  (forall row,
      find (same_issue repo n) (relay_status_comment (db w)) = Some row ->
      map_comment_id row <> "" ->
      update_refused (calls w) repo (map_comment_id row) body ->
      upsertRollingComment t repo n body w
      = upsert_scan t repo n body
          (after_call w (UpdateComment repo (map_comment_id row) body)))
  /\ (forall pages c,
        (forall page, forallb comment_typed (pages page) = true) ->
        listing (calls w) repo n pages ->
        fst (marker_scan pages 3 1) = Some c ->
        let w1 := after_calls w (list_calls repo n (snd (marker_scan pages 3 1))) in
        let update := UpdateComment repo (Js.String (Js.prop c "id")) body in
        update_refused (calls w1) repo (Js.String (Js.prop c "id")) body ->
        upsert_scan t repo n body w
        = (Throw (Error ("GitHub update comment error: "
                         ++ Js.Z_to_string (status (forge (calls w1) update))
                         ++ " " ++ text (forge (calls w1) update))),
           after_call w1 update)).
Proof.
  split.
  - intros row Hrow Hid Hno.
    apply update_refused_not_succeeds in Hno.
    rewrite (upsert_first_tier _ _ _ _ _ _ _
               (upsert_mapped_falls_through t _ _ _ _ _ Hrow Hid Hno)).
    reflexivity.
  - intros pages c Htyped Hlist Hwin w1 update Hno.
    apply (upsert_scan_update t repo n body pages w c Htyped Hlist Hwin), Hno.
Qed.

(** ** Label transitions *)

Lemma same_value_zero_string_l (x : string) (v : value) :
  same_value_zero (JStr x) v = true <-> v = JStr x.
Proof.
  destruct v; simpl; split; intros H; try discriminate.
  - apply String.eqb_eq in H. subst. reflexivity.
  - injection H as ->. apply String.eqb_refl.
Qed.

Lemma same_value_zero_string_r (x : string) (v : value) :
  same_value_zero v (JStr x) = true <-> v = JStr x.
Proof.
  destruct v; simpl; split; intros H; try discriminate.
  - apply String.eqb_eq in H. subst. reflexivity.
  - injection H as ->. apply String.eqb_refl.
Qed.

Lemma set_add_in (s : list value) (x v : value) :
  is_string x -> (In v (set_add s x) <-> In v s \/ v = x).
Proof.
  intros [sx ->]. unfold set_add.
  destruct (existsb (same_value_zero (JStr sx)) s) eqn:Hex.
  - apply existsb_exists in Hex. destruct Hex as [y [Hy Heq]].
    apply same_value_zero_string_l in Heq. subst y.
    split; [auto | intros [H | ->]; assumption].
  - rewrite in_app_iff. simpl. split.
    + intros [H | [<- | []]]; [left | right]; auto.
    + intros [H | ->]; [left | right; left]; auto.
Qed.

Lemma set_add_NoDup (s : list value) (x : value) :
  is_string x -> NoDup s -> NoDup (set_add s x).
Proof.
  intros [sx ->] Hs. unfold set_add.
  destruct (existsb (same_value_zero (JStr sx)) s) eqn:Hex; [assumption|].
  apply NoDup_app; [assumption | repeat constructor; intros [] |].
  intros v Hv [<- | []].
  assert (Htrue : existsb (same_value_zero (JStr sx)) s = true).
  { apply existsb_exists. exists (JStr sx). split; [assumption|].
    apply same_value_zero_string_l. reflexivity. }
  congruence.
Qed.

Lemma fold_set_add (l s : list value) :
  Forall is_string l ->
  (forall v, In v (fold_left set_add l s) <-> In v s \/ In v l)
  /\ (NoDup s -> NoDup (fold_left set_add l s)).
Proof.
  intros Hl. revert s. induction Hl as [|x l Hx _ IH]; intros s; simpl.
  - split; [|auto]. intros v. split; [auto | intros [H | []]; exact H].
  - destruct (IH (set_add s x)) as [Hin Hnd]. split.
    + intros v. rewrite Hin, (set_add_in s x v Hx). split.
      * intros [[H | ->] | H]; auto.
      * intros [H | [<- | H]]; auto.
    + intros Hs. apply Hnd, set_add_NoDup; assumption.
Qed.

Lemma set_delete_in (s : list value) (x v : value) :
  is_string x -> (In v (set_delete s x) <-> In v s /\ v <> x).
Proof.
  intros [sx ->]. unfold set_delete. rewrite filter_In.
  split; intros [Hin Hne]; split; try assumption.
  - intros ->. rewrite (proj2 (same_value_zero_string_r sx (JStr sx)) eq_refl) in Hne.
    discriminate.
  - apply negb_true_iff.
    destruct (same_value_zero v (JStr sx)) eqn:Heq; [|reflexivity].
    apply same_value_zero_string_r in Heq. contradiction.
Qed.

Lemma fold_set_delete (l s : list value) :
  Forall is_string l ->
  (forall v, In v (fold_left set_delete l s) <-> In v s /\ ~ In v l)
  /\ (NoDup s -> NoDup (fold_left set_delete l s)).
Proof.
  intros Hl. revert s. induction Hl as [|x l Hx _ IH]; intros s; simpl.
  - split; [|auto]. intros v. split; [intros H; split; [exact H | intros []] | intros [H _]; exact H].
  - destruct (IH (set_delete s x)) as [Hin Hnd]. split.
    + intros v. rewrite Hin, (set_delete_in s x v Hx). split.
      * intros [[H Hne] Hnot]. split; [exact H|].
        intros [<- | Hl]; [apply Hne; reflexivity | apply Hnot, Hl].
      * intros [H Hnot]. split; [split; [exact H|] |].
        -- intros ->. apply Hnot. left. reflexivity.
        -- intros Hl. apply Hnot. right. exact Hl.
    + intros Hs. apply Hnd. unfold set_delete. apply NoDup_filter, Hs.
Qed.

(** [next = (current ∪ add) \ remove], without repetitions. *)
Lemma next_labels_spec (current add remove : list value) :
  Forall is_string current -> Forall is_string add -> Forall is_string remove ->
  NoDup (next_labels current add remove)
  /\ forall v, In v (next_labels current add remove)
               <-> (In v current \/ In v add) /\ ~ In v remove.
Proof.
  intros Hc Ha Hr. unfold next_labels.
  destruct (fold_set_add current [] Hc) as [Hin1 Hnd1].
  destruct (fold_set_add add (fold_left set_add current []) Ha) as [Hin2 Hnd2].
  destruct (fold_set_delete remove (fold_left set_add add (fold_left set_add current [])) Hr)
    as [Hin3 Hnd3].
  split.
  - apply Hnd3, Hnd2, Hnd1. constructor.
  - intros v. rewrite Hin3, Hin2, Hin1. simpl. split.
    + intros [[[[] | H] | H] Hnot]; auto.
    + intros [[H | H] Hnot]; auto.
Qed.

Lemma applyLabelRules_lookup (t : value) (repo : string) (n : Z) (eventType : string)
      (verdict rules : value) :
  parseLabelRules = Some rules ->
  applyLabelRules t repo n eventType verdict
  = match rule_for rules eventType verdict with
    | None => ret tt
    | Some rule =>
        issue <- getIssueDetails t repo n ;;
        labels <- lift (Js.member issue "labels") ;;
        current <- lift (label_names (Js.or labels (JArr []))) ;;
        putIssueLabels t repo n
          (next_labels current (array_or_empty (Js.prop rule "add"))
                       (array_or_empty (Js.prop rule "remove"))) ;;;
        ret tt
    end.
Proof.
  intros Hrules. unfold applyLabelRules, rule_for. rewrite Hrules.
  destruct (negb (Js.truthy (elem rules eventType))); [reflexivity|].
  unfold Js.or.
  destruct (Js.nullish verdict).
  - cbn [Js.truthy]. cbv iota.
    destruct (Js.truthy (elem (elem rules eventType) "_")) eqn:Hd;
      cbv iota; rewrite ?Hd; reflexivity.
  - destruct (Js.truthy (elem (elem rules eventType) (Js.String verdict))) eqn:He;
      cbv iota; rewrite ?He; [reflexivity|].
    destruct (Js.truthy (elem (elem rules eventType) "_")) eqn:Hd;
      cbv iota; rewrite ?Hd; reflexivity.
Qed.

Lemma putIssueLabels_world (t : value) (repo : string) (n : Z) (labels : list value)
      (w : World) :
  snd (putIssueLabels t repo n labels w) = after_call w (PutLabels repo n labels).
Proof.
  unfold putIssueLabels. rewrite bind_run. unfold githubFetch.
  destruct (negb (res_ok (forge (calls w) (PutLabels repo n labels)))); [reflexivity|].
  unfold res_json.
  destruct (json (forge (calls w) (PutLabels repo n labels))); reflexivity.
Qed.

Lemma getIssueDetails_run (t : value) (repo : string) (n : Z) (issue : value) (w : World) :
  issue_answer (calls w) repo n issue ->
  getIssueDetails t repo n w = (Return issue, after_call w (GetIssue repo n)).
Proof.
  intros [Hok [Hjson _]]. unfold getIssueDetails. rewrite bind_run. unfold githubFetch.
  rewrite Hok. cbn [negb]. unfold res_json. rewrite Hjson. reflexivity.
Qed.

(** *** C4 *)

(** C4.  The label transition engine looks up [rules[T][V]] and falls back
    to [rules[T]["_"]] when there is no verdict or no rule under the exact
    key.  When the configured rules are not valid JSON (or not an object),
    or the event type or the rule is missing, it does nothing: no forge
    call, no change.
    Otherwise it fetches the issue, and with the issue's current labels it
    issues exactly one call, the replacement of the full label set with
    [next]; for labels that are strings, [next] has no repetition and holds
    exactly the labels that are current or added and not removed, so a
    current label that the rule does not remove is kept. *)
Theorem C4_label_transitions
        (t : value) (repo : string) (n : Z) (eventType : string) (verdict : value)
        (w : World) :
  (JSON_parse (LABEL_RULES_JSON env) = None -> parseLabelRules = None)
  /\ (parseLabelRules = None ->
      applyLabelRules t repo n eventType verdict w = (Return tt, w))
  /\ (forall rules,
        parseLabelRules = Some rules ->
        (rule_for rules eventType verdict = None ->
         applyLabelRules t repo n eventType verdict w = (Return tt, w))
        /\ (forall rule issue current,
              rule_for rules eventType verdict = Some rule ->
              issue_answer (calls w) repo n issue ->
              label_names (Js.or (Js.prop issue "labels") (JArr [])) = Return current ->
              let add := array_or_empty (Js.prop rule "add") in
              let remove := array_or_empty (Js.prop rule "remove") in
              let next := next_labels current add remove in
              (forall r w',
                  applyLabelRules t repo n eventType verdict w = (r, w') ->
                  w' = after_calls w [GetIssue repo n; PutLabels repo n next])
              /\ (Forall is_string current -> Forall is_string add ->
                  Forall is_string remove ->
                  NoDup next
                  /\ forall v, In v next <-> (In v current \/ In v add) /\ ~ In v remove))).
Proof.
  split; [|split].
  - intros Hparse. unfold parseLabelRules. rewrite Hparse. reflexivity.
  - intros Hnone. unfold applyLabelRules. rewrite Hnone. reflexivity.
  - intros rules Hrules. rewrite (applyLabelRules_lookup _ _ _ _ _ _ Hrules). split.
    + intros ->. reflexivity.
    + intros rule issue current -> Hissue Hcurrent add remove next. split.
      * intros r w'. rewrite bind_run, (getIssueDetails_run _ _ _ _ _ Hissue).
        rewrite bind_run. unfold lift.
        assert (Hm : Js.member issue "labels" = Return (Js.prop issue "labels")).
        { destruct Hissue as [_ [_ Hnn]]. destruct issue; try discriminate; reflexivity. }
        rewrite Hm, bind_run, Hcurrent, bind_run.
        pose proof (putIssueLabels_world t repo n next (after_call w (GetIssue repo n))) as Hput.
        fold add remove next.
        destruct (putIssueLabels t repo n next (after_call w (GetIssue repo n)))
          as [[v|e] w2]; simpl in Hput; subst w2;
          intros H; injection H as _ <-; apply after_calls_snoc.
      * apply next_labels_spec.
Qed.

(** ** The validator: what it reads *)

Ltac in_list := solve [simpl; repeat (first [left; reflexivity | right])].


(** The validator reads the payload through the members of the schema
    only. *)
Lemma validateEvent_ext (e e' : value) :
  Js.truthy e = Js.truthy e' ->
  Js.typeof_object e = Js.typeof_object e' ->
  (forall k, In k schema_fields -> Js.prop e k = Js.prop e' k) ->
  validateEvent e = validateEvent e'.
Proof.
  intros Ht Ho Hp. unfold validateEvent, validate_conditional.
  cbn [required_complaint]. rewrite Ht, Ho.
  repeat match goal with
         | |- context [Js.prop e ?k] => rewrite (Hp k) by in_list
         end.
  reflexivity.
Qed.

Lemma assoc_outside (k k' : string) (v : value) (fs1 fs2 : list (string * value)) :
  k' <> k -> Js.assoc k' (fs1 ++ (k, v) :: fs2) = Js.assoc k' (fs1 ++ fs2).
Proof.
  intros Hne. induction fs1 as [|[k1 v1] fs1 IH]; simpl.
  - apply String.eqb_neq in Hne. rewrite Hne. reflexivity.
  - destruct (k' =? k1)%string; [reflexivity | exact IH].
Qed.

Lemma payload_json_details (ev : RelayEvent) :
  details ev <> JUndefined ->
  carries_member (payload_json_of ev) "details" (details ev).
Proof.
  intros Hv. unfold payload_json_of, RelayEvent_object.
  match goal with
  | |- carries_member (Js.stringify (JObj ?l)) _ _ =>
      change l with (firstn 17 l ++ [("details", details ev)] ++ [])%list
  end.
  apply stringify_member, Hv.
Qed.

Lemma validateEvent_details (e : value) (ev : RelayEvent) :
  validateEvent e = Return (Valid ev) -> details ev = Js.prop e "details".
Proof.
  unfold validateEvent. intros H. cbv zeta in H.
  invert_validation H.
  - apply Return_inj in H. subst.
    match goal with
    | Hb : validate_build _ = inl _ |- _ =>
        destruct (validate_build_rejects _ _ Hb); discriminate
    end.
  - apply Return_inj in H. subst.
    match goal with
    | Hs : validate_scope _ = Return (inl _) |- _ =>
        destruct (validate_scope_rejects _ _ Hs); discriminate
    end.
  - apply Return_inj in H. injection H as <-. reflexivity.
Qed.

(** *** C6 (as amended) *)

(** C6, amended.  A member of the payload that the event schema does not
    name does not cause rejection, and it is not kept: the validator gives
    the same result, and so the same event, the same [payload_json] and
    the same hash, as for the payload without that member.  What a caller
    adds survives only inside a member that the validator copies as it is;
    [details] is spelled out in [payload_json]. *)
Theorem C6_unknown_fields_are_dropped
        (fs1 fs2 : list (string * value)) (k : string) (v : value) :
  ~ In k schema_fields ->
  validateEvent (JObj (fs1 ++ (k, v) :: fs2)) = validateEvent (JObj (fs1 ++ fs2))
  /\ forall ev,
       validateEvent (JObj (fs1 ++ (k, v) :: fs2)) = Return (Valid ev) ->
       details ev = Js.assoc "details" (fs1 ++ fs2)
       /\ (details ev <> JUndefined ->
           carries_member (payload_json_of ev) "details" (details ev)).
Proof.
  intros Hk.
  assert (Hsame : validateEvent (JObj (fs1 ++ (k, v) :: fs2))
                  = validateEvent (JObj (fs1 ++ fs2))).
  { apply validateEvent_ext; try reflexivity.
    intros k' Hk'. simpl. apply assoc_outside. intros ->. contradiction. }
  split; [exact Hsame|].
  intros ev Hev. rewrite Hsame in Hev. split.
  - apply (validateEvent_details _ _ Hev).
  - apply payload_json_details.
Qed.

(** ** The validator: conditional requirements *)



Lemma handlePostEvents_invalid (req : Request) (g : M value) (w : World)
      (payload : value) (message : string) :
  requireAuth req = None ->
  JSON_parse (req_body req) = Some payload ->
  validateEvent payload = Return (Invalid message) ->
  handlePostEvents req g w = (Return (badRequest message JUndefined), w).
Proof.
  intros Hauth Hparse Hvalid. unfold handlePostEvents. rewrite Hauth, Hparse.
  rewrite bind_run. unfold lift. rewrite Hvalid. reflexivity.
Qed.


(** *** C7 (as amended) *)


(* ---------------------------------------------------------------- *)
(** * Further properties of the event route                           *)
(* ---------------------------------------------------------------- *)

(** ** Texts *)

Lemma is_space_lower (c : ascii) : Js.is_space (Js.lower_char c) = Js.is_space c.
Proof. destruct c as [[] [] [] [] [] [] [] []]; reflexivity. Qed.

Lemma byte_is_lower (n : nat) (c : ascii) :
  (128 <= n)%nat -> Js.byte_is n (Js.lower_char c) = Js.byte_is n c.
Proof.
  intros Hn. unfold Js.byte_is.
  destruct c as [[] [] [] [] [] [] [] []]; try reflexivity;
    match goal with
    | |- (?x =? n)%nat = (?y =? n)%nat =>
        let x' := eval vm_compute in x in
        let y' := eval vm_compute in y in
        change ((x' =? n)%nat = (y' =? n)%nat);
        destruct (Nat.eqb_spec x' n); destruct (Nat.eqb_spec y' n); (reflexivity || lia)
    end.
Qed.

Lemma is_space2_lower (a b : ascii) :
  Js.is_space2 (Js.lower_char a) (Js.lower_char b) = Js.is_space2 a b.
Proof. unfold Js.is_space2. rewrite !byte_is_lower by lia. reflexivity. Qed.

Lemma third_byte_lower (c : ascii) :
  (let n := nat_of_ascii (Js.lower_char c) in
   ((128 <=? n)%nat && (n <=? 138)%nat) || (n =? 168)%nat || (n =? 169)%nat || (n =? 175)%nat)
  = (let n := nat_of_ascii c in
     ((128 <=? n)%nat && (n <=? 138)%nat) || (n =? 168)%nat || (n =? 169)%nat || (n =? 175)%nat).
Proof. destruct c as [[] [] [] [] [] [] [] []]; reflexivity. Qed.

Lemma is_space3_lower (a b c : ascii) :
  Js.is_space3 (Js.lower_char a) (Js.lower_char b) (Js.lower_char c) = Js.is_space3 a b c.
Proof.
  unfold Js.is_space3. rewrite !byte_is_lower by lia. rewrite third_byte_lower. reflexivity.
Qed.

Lemma lower_char_idempotent (c : ascii) :
  Js.lower_char (Js.lower_char c) = Js.lower_char c.
Proof. destruct c as [[] [] [] [] [] [] [] []]; reflexivity. Qed.

Lemma toLowerCase_idempotent (s : string) :
  Js.toLowerCase (Js.toLowerCase s) = Js.toLowerCase s.
Proof.
  induction s as [|c r IH]; [reflexivity|].
  cbn [Js.toLowerCase]. rewrite lower_char_idempotent, IH. reflexivity.
Qed.

Lemma toLowerCase_empty (s : string) :
  (Js.toLowerCase s =? "")%string = (s =? "")%string.
Proof. destruct s; reflexivity. Qed.

(** One white-space character at the head of a text, and what follows it. *)
Definition ws_prefix (s : string) : option string :=
  match s with
  | EmptyString => None
  | String a r1 =>
      if Js.is_space a then Some r1 else
      match r1 with
      | EmptyString => None
      | String b r2 =>
          if Js.is_space2 a b then Some r2 else
          match r2 with
          | EmptyString => None
          | String c r3 => if Js.is_space3 a b c then Some r3 else None
          end
      end
  end.

Lemma trimStart_step (s : string) :
  Js.trimStart s = match ws_prefix s with Some r => Js.trimStart r | None => s end.
Proof.
  destruct s as [|a [|b [|c r3]]]; cbn [ws_prefix]; try reflexivity;
    destruct (Js.is_space a) eqn:Ha;
    try destruct (Js.is_space2 a b) eqn:Hab;
    try destruct (Js.is_space3 a b c) eqn:Habc;
    cbn [Js.trimStart]; rewrite ?Ha, ?Hab, ?Habc; reflexivity.
Qed.

Lemma ws_prefix_shorter (s r : string) :
  ws_prefix s = Some r -> (String.length r < String.length s)%nat.
Proof.
  destruct s as [|a [|b [|c r3]]]; cbn [ws_prefix];
    repeat match goal with
           | |- context [if ?c then _ else _] => destruct c
           end; intros H; inversion H; subst; cbn [String.length]; lia.
Qed.

Lemma ws_prefix_lower (s : string) :
  ws_prefix (Js.toLowerCase s) = option_map Js.toLowerCase (ws_prefix s).
Proof.
  destruct s as [|a [|b [|c r3]]]; cbn [ws_prefix Js.toLowerCase];
    rewrite ?is_space_lower, ?is_space2_lower, ?is_space3_lower;
    repeat match goal with
           | |- context [if ?c then _ else _] => destruct c
           end; reflexivity.
Qed.

Lemma ws_prefix_app (s r y : string) :
  ws_prefix s = Some r -> ws_prefix (s ++ y) = Some (r ++ y)%string.
Proof.
  destruct s as [|a [|b [|c r3]]]; cbn [ws_prefix append];
    repeat match goal with
           | |- context [if ?c then _ else _] => destruct c
           end; intros H; inversion H; subst; reflexivity.
Qed.

(** Induction on a text along the white space at its head. *)
Lemma by_ws_prefix (P : string -> Prop) :
  (forall s, (forall r, ws_prefix s = Some r -> P r) -> P s) -> forall s, P s.
Proof.
  intros step s.
  assert (H : forall n s, (String.length s < n)%nat -> P s).
  { induction n as [|n IH]; intros t Ht; [lia|].
    apply step. intros r Hr. apply IH.
    apply ws_prefix_shorter in Hr. lia. }
  apply (H (S (String.length s))). lia.
Qed.

Lemma trimStart_toLowerCase (s : string) :
  Js.trimStart (Js.toLowerCase s) = Js.toLowerCase (Js.trimStart s).
Proof.
  induction s as [s IH] using by_ws_prefix.
  rewrite (trimStart_step s), (trimStart_step (Js.toLowerCase s)), ws_prefix_lower.
  destruct (ws_prefix s) as [r|]; cbn [option_map]; [apply IH; reflexivity | reflexivity].
Qed.

Lemma trimEnd_toLowerCase (s : string) :
  Js.trimEnd (Js.toLowerCase s) = Js.toLowerCase (Js.trimEnd s).
Proof.
  induction s as [|c r IH]; [reflexivity|].
  change (Js.toLowerCase (String c r)) with (String (Js.lower_char c) (Js.toLowerCase r)) at 1.
  cbn [Js.trimEnd].
  change (String (Js.lower_char c) (Js.toLowerCase r)) with (Js.toLowerCase (String c r)).
  rewrite trimStart_toLowerCase, toLowerCase_empty, IH.
  destruct (Js.trimStart (String c r) =? "")%string; reflexivity.
Qed.

Lemma trim_toLowerCase (s : string) :
  Js.trim (Js.toLowerCase s) = Js.toLowerCase (Js.trim s).
Proof. unfold Js.trim. rewrite trimStart_toLowerCase, trimEnd_toLowerCase. reflexivity. Qed.

(** What [trimStart] leaves does not begin with white space. *)
Lemma trimStart_head (s : string) : ws_prefix (Js.trimStart s) = None.
Proof.
  induction s as [s IH] using by_ws_prefix.
  rewrite trimStart_step. destruct (ws_prefix s) as [r|] eqn:H; [apply IH; reflexivity | exact H].
Qed.

(** White space before a text goes with it. *)
Lemma trimStart_app (z y : string) :
  Js.trimStart z = "" -> Js.trimStart (z ++ y) = Js.trimStart y.
Proof.
  induction z as [z IH] using by_ws_prefix. intros Hz.
  rewrite trimStart_step in Hz. destruct (ws_prefix z) as [r|] eqn:H.
  - rewrite (trimStart_step (z ++ y)), (ws_prefix_app z r y H). apply IH; [reflexivity | exact Hz].
  - subst z. reflexivity.
Qed.

(** [trimEnd] cuts a text before a run of white space. *)
Lemma trimEnd_split (s : string) :
  exists y, s = (Js.trimEnd s ++ y)%string /\ Js.trimStart y = "".
Proof.
  induction s as [|c r [y [Hy Hws]]]; [exists ""; split; reflexivity|].
  cbn [Js.trimEnd]. destruct (Js.trimStart (String c r) =? "")%string eqn:H.
  - apply String.eqb_eq in H. exists (String c r). split; [reflexivity | exact H].
  - exists y. split; [cbn [append]; f_equal; exact Hy | exact Hws].
Qed.

Lemma trimEnd_idempotent (s : string) : Js.trimEnd (Js.trimEnd s) = Js.trimEnd s.
Proof.
  induction s as [|c r IH]; [reflexivity|].
  cbn [Js.trimEnd]. destruct (Js.trimStart (String c r) =? "")%string eqn:H; [reflexivity|].
  cbn [Js.trimEnd]. rewrite IH.
  destruct (Js.trimStart (String c (Js.trimEnd r)) =? "")%string eqn:H'; [|reflexivity].
  apply String.eqb_eq in H'. destruct (trimEnd_split r) as [y [Hy Hws]].
  pose proof (trimStart_app (String c (Js.trimEnd r)) y H') as Happ.
  cbn [append] in Happ. rewrite <- Hy, Hws in Happ.
  rewrite Happ in H. discriminate H.
Qed.

(** A text that does not begin with white space keeps its head under
    [trimEnd]. *)
Lemma trimStart_trimEnd (t : string) :
  ws_prefix t = None -> Js.trimStart (Js.trimEnd t) = Js.trimEnd t.
Proof.
  intros H. rewrite trimStart_step.
  destruct (ws_prefix (Js.trimEnd t)) as [r|] eqn:Hr; [|reflexivity].
  destruct (trimEnd_split t) as [y [Hy _]].
  apply (ws_prefix_app _ _ y) in Hr. rewrite <- Hy, H in Hr. discriminate Hr.
Qed.

Lemma trim_idempotent (s : string) : Js.trim (Js.trim s) = Js.trim s.
Proof.
  unfold Js.trim. rewrite (trimStart_trimEnd _ (trimStart_head s)).
  apply trimEnd_idempotent.
Qed.

(** [String(x || "").trim()] of a text is the trimmed text. *)
Lemma trimmed_text (s : string) : trimmed (JStr s) = Js.trim s.
Proof.
  unfold trimmed, Js.or. cbn [Js.truthy].
  destruct (s =? "")%string eqn:H; [|reflexivity].
  apply String.eqb_eq in H. subst. reflexivity.
Qed.

Lemma trimmed_trimmed (x : value) : Js.trim (trimmed x) = trimmed x.
Proof. unfold trimmed. apply trim_idempotent. Qed.

(** ** The validator: what it checked *)

(** Everything the validator tested on the way to an accepted event. *)
Lemma validateEvent_checks (e : value) (ev : RelayEvent) :
  validateEvent e = Return (Valid ev) ->
  (Js.truthy e = true /\ Js.typeof_object e = true)
  /\ (event_id ev = trimmed (Js.prop e "event_id")
      /\ (event_id ev =? "")%string = false
      /\ (Js.length (event_id ev) <? 8)%nat = false)
  /\ (repo ev = trimmed (Js.prop e "repo")
      /\ (repo ev =? "")%string = false /\ isRepoSlug (repo ev) = true)
  /\ (safeInt (Js.prop e "issue_number") = Some (issue_number ev)
      /\ (issue_number ev =? 0) = false /\ (issue_number ev <? 1) = false)
  /\ (role ev = trimmed (Js.prop e "role")
      /\ Js.one_of ["QA"; "DEV"; "PM"; "MENTOR"] (role ev) = true)
  /\ (agent ev = trimmed (Js.prop e "agent")
      /\ (agent ev =? "")%string = false /\ (Js.length (agent ev) <? 2)%nat = false)
  /\ (event_type ev = trimmed (Js.prop e "event_type") /\ (event_type ev =? "")%string = false)
  /\ validate_build (Js.prop e "build") = inr (build ev)
  /\ (environment ev = (if Js.truthy (Js.prop e "environment")
                        then Some (Js.String (Js.prop e "environment")) else None)
      /\ forall s, environment ev = Some s ->
                   s = "" \/ Js.one_of ["preview"; "production"; "dev"] s = true)
  /\ (overall_verdict ev = Js.prop e "overall_verdict"
      /\ (Js.truthy (overall_verdict ev) = true ->
          Js.value_one_of ["PASS"; "FAIL"; "BLOCKED"; "PASS_UNVERIFIED"; "FAIL_UNCONFIRMED"]
                          (overall_verdict ev) = true))
  /\ validate_scope (Js.prop e "scope_results") = Return (inr (scope_results ev))
  /\ validate_conditional e (Js.prop e "overall_verdict") = None
  /\ validate_evidence (Js.prop e "evidence_urls") = inr (evidence_urls ev)
  /\ summary ev = (if negb (Js.nullish (Js.prop e "summary"))
                   then Some (Js.String (Js.prop e "summary")) else None)
  /\ (severity ev = Js.prop e "severity" /\ repro_steps ev = Js.prop e "repro_steps"
      /\ expected ev = Js.prop e "expected" /\ actual ev = Js.prop e "actual")
  /\ artifacts ev = (if Js.isArray (Js.prop e "artifacts")
                     then Js.prop e "artifacts" else JUndefined)
  /\ details ev = Js.prop e "details".
Proof.
  unfold validateEvent. intros H. cbv zeta in H.
  invert_validation H.
  - apply Return_inj in H. subst.
    match goal with
    | Hb : validate_build _ = inl _ |- _ =>
        destruct (validate_build_rejects _ _ Hb); discriminate
    end.
  - apply Return_inj in H. subst.
    match goal with
    | Hs : validate_scope _ = Return (inl _) |- _ =>
        destruct (validate_scope_rejects _ _ Hs); discriminate
    end.
  - apply Return_inj in H. injection H as <-. cbn [event_id repo issue_number role agent
      event_type summary environment build overall_verdict scope_results severity
      repro_steps expected actual evidence_urls artifacts details].
    repeat match goal with
           | Hor : _ || _ = false |- _ => apply orb_false_iff in Hor; destruct Hor
           | Hn : negb _ = false |- _ => apply negb_false_iff in Hn
           end.
    repeat match goal with
           | |- _ /\ _ => split
           end; try reflexivity; try assumption.
    + intros s Hs.
      match goal with
      | Henv : match _ with Some _ => _ | None => false end = false |- _ =>
          rewrite Hs in Henv; destruct (s =? "")%string eqn:Hempty;
          [left; apply String.eqb_eq, Hempty
          | right; cbn [negb andb] in Henv; apply negb_false_iff, Henv]
      end.
    + intros Ht.
      match goal with
      | Hv : Js.truthy _ && negb _ = false |- _ =>
          rewrite Ht in Hv; cbn [andb] in Hv; apply negb_false_iff, Hv
      end.
Qed.

Lemma scope_complaint_none (rs : list ScopeResult) :
  scope_complaint rs = None ->
  Forall (fun r => sr_id r <> ""
                   /\ Js.one_of ["PASS"; "FAIL"; "SKIPPED"] (sr_status r) = true) rs.
Proof.
  induction rs as [|r rs IH]; intros H; [constructor|].
  cbn [scope_complaint] in H.
  destruct (sr_id r =? "")%string eqn:Hid; [discriminate|].
  destruct (Js.one_of ["PASS"; "FAIL"; "SKIPPED"] (sr_status r)) eqn:Hst;
    cbn [negb] in H; [|discriminate].
  constructor; [|apply IH, H].
  split; [apply String.eqb_neq, Hid | exact Hst].
Qed.

Lemma scope_entry_trimmed (x : value) (r : ScopeResult) :
  scope_entry x = Return r ->
  Js.trim (sr_id r) = sr_id r /\ Js.trim (sr_status r) = sr_status r.
Proof.
  unfold scope_entry. intros H.
  repeat (apply obind_Return in H; destruct H as [? [_ H]]).
  apply Return_inj in H. subst r. cbn [sr_id sr_status].
  split; apply trimmed_trimmed.
Qed.

Lemma map_outcome_Forall {A B} (f : A -> outcome B) (P : B -> Prop) (l : list A)
      (ys : list B) :
  (forall x y, f x = Return y -> P y) ->
  map_outcome f l = Return ys -> Forall P ys /\ List.length ys = List.length l.
Proof.
  intros Hf. revert ys. induction l as [|x l IH]; intros ys H.
  - apply Return_inj in H. subst. split; [constructor | reflexivity].
  - cbn [map_outcome] in H.
    apply obind_Return in H. destruct H as [y [Hy H]].
    apply obind_Return in H. destruct H as [ys' [Hys H]].
    apply Return_inj in H. subst ys.
    destruct (IH ys' Hys) as [Hall Hlen].
    split; [constructor; [eapply Hf; eassumption | assumption] | simpl; congruence].
Qed.

Lemma validate_scope_accepts (x : value) (rs : list ScopeResult) :
  validate_scope x = Return (inr (Some rs)) ->
  rs <> [] /\ Forall wellformed_scope rs.
Proof.
  unfold validate_scope. intros H.
  destruct (negb (Js.nullish x)); [|discriminate].
  destruct x as [| | | | |items|]; try discriminate.
  destruct items as [|r items]; [discriminate|].
  apply obind_Return in H. destruct H as [rs' [Hmap H]].
  destruct (scope_complaint rs') eqn:Hc; [discriminate|].
  apply Return_inj in H. injection H as <-.
  destruct (map_outcome_Forall scope_entry
              (fun r => Js.trim (sr_id r) = sr_id r /\ Js.trim (sr_status r) = sr_status r)
              _ _ scope_entry_trimmed Hmap) as [Htrim Hlen].
  split; [intros ->; discriminate|].
  pose proof (scope_complaint_none _ Hc) as Hok.
  clear Hmap Hc Hlen. induction Hok as [|r0 rs0 [Hid Hst] _ IH]; [constructor|].
  inversion Htrim as [|? ? [Ht _] Hrest]; subst.
  constructor; [|apply IH, Hrest].
  repeat split; assumption.
Qed.

Lemma validate_build_wellformed (x : value) (b : Build) :
  validate_build x = inr (Some b) ->
  isHexSha (commit_sha b) = true
  /\ Js.toLowerCase (commit_sha b) = commit_sha b
  /\ Js.trim (commit_sha b) = commit_sha b
  /\ commit_sha b <> ""
  /\ pr b <> Some 0.
Proof.
  intros H. destruct (validate_build_accepts _ _ H) as [Hne Hpr].
  unfold validate_build in H. cbv zeta in H.
  invert_validation H; inversion H; subst; cbn [commit_sha] in *.
  match goal with
  | Hor : _ || _ = false |- _ => apply orb_false_iff in Hor; destruct Hor as [_ Hhex]
  end.
  apply negb_false_iff in Hhex.
  repeat split; try assumption.
  - apply toLowerCase_idempotent.
  - unfold trimmed. rewrite trim_toLowerCase, trim_idempotent. reflexivity.
Qed.

Lemma leb_of_ltb_false (a b : nat) : (a <? b)%nat = false -> (b <= a)%nat.
Proof. intros H. apply Nat.ltb_ge, H. Qed.

Lemma validateEvent_wellformed (e : value) (ev : RelayEvent) :
  validateEvent e = Return (Valid ev) -> wellformed ev.
Proof.
  intros H. apply validateEvent_checks in H.
  destruct H as [_ [[Hid [_ Hid8]] [[Hrepo [_ Hslug]] [[_ [_ Hn]] [[Hrole Hroles]
    [[Hagent [_ Hagent2]] [[Htype Htype0] [Hbuild [[_ Henv] [[_ Hverdict] [Hscope
    [_ [_ [_ [_ [Hart _]]]]]]]]]]]]]]]].
  unfold wellformed.
  repeat match goal with |- _ /\ _ => split end.
  - rewrite Hid. apply trimmed_trimmed.
  - apply leb_of_ltb_false, Hid8.
  - rewrite Hrepo. apply trimmed_trimmed.
  - exact Hslug.
  - apply Z.ltb_ge in Hn. exact Hn.
  - exact Hroles.
  - rewrite Hagent. apply trimmed_trimmed.
  - apply leb_of_ltb_false, Hagent2.
  - rewrite Htype. apply trimmed_trimmed.
  - apply String.eqb_neq, Htype0.
  - intros b Hb. rewrite Hb in Hbuild.
    destruct (validate_build_wellformed _ _ Hbuild) as [H1 [H2 [_ [_ H3]]]].
    repeat split; assumption.
  - exact Henv.
  - exact Hverdict.
  - intros rs Hrs. rewrite Hrs in Hscope. apply (validate_scope_accepts _ _ Hscope).
  - rewrite Hart. destruct (Js.isArray (Js.prop e "artifacts")) eqn:Ha;
      [right; exact Ha | left; reflexivity].
Qed.

(** *** Accepted events *)

(** Whatever payload the validator accepts, the event it builds is well
    formed: identifiers and names are trimmed and long enough, the
    repository is an [owner/name] slug, the issue number is at least 1, the
    role is one of the four, a build carries a lower-case hexadecimal SHA
    of 7 to 40 characters and no pull request number 0, the environment is
    one of the three (or the empty text, which the check lets through), a
    verdict that is given is one of the five, and scope results are a
    non-empty list of entries with an id and one of the three statuses. *)
Theorem validated_event_is_wellformed (e : value) (ev : RelayEvent) :
  validateEvent e = Return (Valid ev) -> wellformed ev.
Proof. apply validateEvent_wellformed. Qed.


(** ** The canonical payload, read back *)

Lemma reparse_object (fs : list (string * value)) :
  Js.reparse (JObj fs) = JObj (reparse_members fs).
Proof.
  reflexivity.
Qed.

Lemma reparse_members_keys (fs : list (string * value)) (k : string) :
  In k (map fst (reparse_members fs)) -> In k (map fst fs).
Proof.
  induction fs as [|[k' v] fs IH]; [intros []|].
  cbn [reparse_members].
  destruct v; cbn [map fst In]; intros H;
    try (destruct H as [H | H]; [left; exact H | right; apply IH, H]).
  right. apply IH, H.
Qed.

Lemma assoc_absent (fs : list (string * value)) (k : string) :
  ~ In k (map fst fs) -> Js.assoc k fs = JUndefined.
Proof.
  induction fs as [|[k' v] fs IH]; [reflexivity|].
  cbn [map fst In Js.assoc]. intros H.
  destruct (k =? k')%string eqn:Hk.
  - apply String.eqb_eq in Hk. subst. exfalso. apply H. left. reflexivity.
  - apply IH. intros Hin. apply H. right. exact Hin.
Qed.

Lemma reparse_not_undefined (v : value) : Js.reparse v <> JUndefined.
Proof. destruct v; discriminate. Qed.

(** Reading a member of an object after the round trip. *)
Lemma assoc_reparse_members (fs : list (string * value)) (k : string) :
  NoDup (map fst fs) ->
  Js.assoc k (reparse_members fs) = reread (Js.assoc k fs).
Proof.
  induction fs as [|[k' v] fs IH]; [reflexivity|].
  cbn [map fst]. intros Hnd. inversion Hnd as [|? ? Hnot Hrest]; subst.
  cbn [Js.assoc]. destruct (k =? k')%string eqn:Hk.
  - apply String.eqb_eq in Hk. subst k'.
    destruct v; cbn [reparse_members Js.assoc]; rewrite ?String.eqb_refl; try reflexivity.
    apply assoc_absent. intros Hin. apply Hnot, reparse_members_keys, Hin.
  - rewrite <- (IH Hrest).
    destruct v; cbn [reparse_members Js.assoc]; rewrite ?Hk; reflexivity.
Qed.

Lemma reparse_members_length (fs : list (string * value)) :
  (List.length (reparse_members fs) <= List.length fs)%nat.
Proof.
  induction fs as [|[k v] fs IH]; [simpl; lia|].
  destruct v; cbn [reparse_members List.length]; lia.
Qed.

(** A member of JSON data is JSON data, or it is not there. *)
Lemma json_data_member (fs : list (string * value)) (k : string) :
  json_data (JObj fs) -> reread (Js.assoc k fs) = Js.assoc k fs.
Proof.
  unfold json_data. rewrite reparse_object. intros H. injection H as H.
  induction fs as [|[k' v] fs IH]; [reflexivity|].
  assert (Hv : v <> JUndefined).
  { intros ->. cbn [reparse_members] in H.
    pose proof (reparse_members_length fs) as Hlen. rewrite H in Hlen.
    simpl in Hlen. lia. }
  assert (Hcons : reparse_members ((k', v) :: fs) = (k', Js.reparse v) :: reparse_members fs)
    by (destruct v; try reflexivity; contradiction).
  rewrite Hcons in H. injection H as Hv' Hfs.
  cbn [Js.assoc]. destruct (k =? k')%string.
  - unfold reread. destruct v; try exact Hv'. contradiction.
  - apply IH, Hfs.
Qed.

Lemma json_data_prop (e : value) (k : string) :
  json_data e -> reread (Js.prop e k) = Js.prop e k.
Proof.
  destruct e; try reflexivity. apply json_data_member.
Qed.

Lemma canonical_prop (ev : RelayEvent) (k : string) :
  Js.prop (Js.reparse (RelayEvent_object ev)) k = reread (Js.prop (RelayEvent_object ev) k).
Proof.
  unfold RelayEvent_object. rewrite reparse_object. cbn [Js.prop].
  apply assoc_reparse_members. cbn [map fst].
  repeat (constructor;
          [cbn [In]; intros Hin;
           repeat (destruct Hin as [Hin | Hin]; [discriminate Hin|]); exact Hin|]).
  constructor.
Qed.

Lemma validate_conditional_ext (e e' verdict : value) :
  (forall k, In k conditional_fields -> Js.prop e k = Js.prop e' k) ->
  validate_conditional e verdict = validate_conditional e' verdict.
Proof.
  intros Hp. unfold validate_conditional. cbn [required_complaint].
  repeat match goal with
         | |- context [Js.prop e ?k] => rewrite (Hp k) by in_list
         end.
  reflexivity.
Qed.

Lemma validate_build_again (b : option Build) :
  (forall b', b = Some b' ->
              isHexSha (commit_sha b') = true
              /\ Js.toLowerCase (commit_sha b') = commit_sha b'
              /\ Js.trim (commit_sha b') = commit_sha b'
              /\ commit_sha b' <> ""
              /\ pr b' <> Some 0) ->
  validate_build (reread match b with
                         | Some b' => Build_object b'
                         | None => JUndefined
                         end) = inr b.
Proof.
  destruct b as [[cs p]|]; [|reflexivity].
  intros H. destruct (H _ eq_refl) as [Hhex [Hlow [Htrim [Hne Hpr]]]].
  cbn [commit_sha pr] in *.
  unfold Build_object, reread. rewrite reparse_object. unfold validate_build.
  cbn [Js.truthy Js.typeof_object negb Js.prop commit_sha pr].
  rewrite !assoc_reparse_members
    by (repeat (constructor;
                [cbn [In map fst]; intros Hin;
                 repeat (destruct Hin as [Hin | Hin]; [discriminate Hin|]); exact Hin|]);
        constructor).
  change (Js.assoc "commit_sha" [("commit_sha", JStr cs); ("pr", opt_num p)]) with (JStr cs).
  change (Js.assoc "pr" [("commit_sha", JStr cs); ("pr", opt_num p)]) with (opt_num p).
  cbn [reread Js.reparse]. rewrite trimmed_text, Htrim, Hlow, Hhex.
  apply String.eqb_neq in Hne. rewrite Hne. cbn [negb orb].
  destruct p as [n|]; cbn [opt_num reread Js.reparse Js.nullish negb safeInt].
  - destruct (n =? 0) eqn:Hn; [|reflexivity].
    apply Z.eqb_eq in Hn. subst. exfalso. apply Hpr. reflexivity.
  - reflexivity.
Qed.

Lemma one_of_trimmed (xs : list string) (s : string) :
  Forall (fun x => Js.trim x = x) xs -> Js.one_of xs s = true -> Js.trim s = s.
Proof.
  unfold Js.one_of. intros Hxs Hs. apply existsb_exists in Hs.
  destruct Hs as [x [Hin Heq]]. apply String.eqb_eq in Heq. subst x.
  rewrite Forall_forall in Hxs. apply Hxs, Hin.
Qed.

Lemma scope_entry_again (r : ScopeResult) :
  Js.trim (sr_id r) = sr_id r -> Js.trim (sr_status r) = sr_status r ->
  scope_entry (Js.reparse (ScopeResult_object r)) = Return r.
Proof.
  destruct r as [id_ st notes]. cbn [sr_id sr_status]. intros Hid Hst.
  unfold ScopeResult_object. rewrite reparse_object. unfold scope_entry.
  cbn [Js.member Js.prop obind sr_id sr_status sr_notes].
  rewrite !assoc_reparse_members
    by (repeat (constructor;
                [cbn [In map fst]; intros Hin;
                 repeat (destruct Hin as [Hin | Hin]; [discriminate Hin|]); exact Hin|]);
        constructor).
  change (Js.assoc "id" [("id", JStr id_); ("status", JStr st); ("notes", opt_str notes)])
    with (JStr id_).
  change (Js.assoc "status" [("id", JStr id_); ("status", JStr st); ("notes", opt_str notes)])
    with (JStr st).
  change (Js.assoc "notes" [("id", JStr id_); ("status", JStr st); ("notes", opt_str notes)])
    with (opt_str notes).
  cbn [reread Js.reparse]. rewrite !trimmed_text, Hid, Hst.
  destruct notes; reflexivity.
Qed.

Lemma map_scope_entry_again (rs : list ScopeResult) :
  Forall (fun r => Js.trim (sr_id r) = sr_id r /\ Js.trim (sr_status r) = sr_status r) rs ->
  map_outcome scope_entry (map Js.reparse (map ScopeResult_object rs)) = Return rs.
Proof.
  induction 1 as [|r rs [Hid Hst] _ IH]; [reflexivity|].
  cbn [map map_outcome]. rewrite (scope_entry_again r Hid Hst). cbn [obind].
  rewrite IH. reflexivity.
Qed.

Lemma validate_scope_checked (x : value) (rs : list ScopeResult) :
  validate_scope x = Return (inr (Some rs)) ->
  rs <> [] /\ scope_complaint rs = None
  /\ Forall (fun r => Js.trim (sr_id r) = sr_id r /\ Js.trim (sr_status r) = sr_status r) rs.
Proof.
  unfold validate_scope. intros H.
  destruct (negb (Js.nullish x)); [|discriminate].
  destruct x as [| | | | |items|]; try discriminate.
  destruct items as [|r items]; [discriminate|].
  apply obind_Return in H. destruct H as [rs' [Hmap H]].
  destruct (scope_complaint rs') eqn:Hc; [discriminate|].
  apply Return_inj in H. injection H as <-.
  destruct (map_outcome_Forall scope_entry
              (fun r => Js.trim (sr_id r) = sr_id r /\ Js.trim (sr_status r) = sr_status r)
              _ _ scope_entry_trimmed Hmap) as [Htrim Hlen].
  split; [intros ->; discriminate|]. split; assumption.
Qed.

Lemma validate_scope_again (rs : option (list ScopeResult)) :
  (forall rs', rs = Some rs' ->
     rs' <> [] /\ scope_complaint rs' = None
     /\ Forall (fun r => Js.trim (sr_id r) = sr_id r /\ Js.trim (sr_status r) = sr_status r)
               rs') ->
  validate_scope (reread match rs with
                         | Some rs' => JArr (map ScopeResult_object rs')
                         | None => JUndefined
                         end) = Return (inr rs).
Proof.
  destruct rs as [rs|]; [|reflexivity].
  intros H. destruct (H _ eq_refl) as [Hne [Hc Htrim]].
  pose proof (map_scope_entry_again rs Htrim) as Hmap.
  destruct rs as [|r rs]; [contradiction|].
  cbn [reread Js.reparse map] in *. unfold validate_scope. cbn [Js.nullish negb].
  rewrite Hmap. cbn [obind]. rewrite Hc. reflexivity.
Qed.

Lemma validate_evidence_again (us : option (list string)) :
  validate_evidence (reread match us with
                            | Some us' => JArr (map JStr us')
                            | None => JUndefined
                            end) = inr us.
Proof.
  destruct us as [us|]; [|reflexivity].
  cbn [reread Js.reparse]. unfold validate_evidence. cbn [Js.truthy].
  rewrite !map_map. cbn [Js.reparse Js.String]. rewrite map_id. reflexivity.
Qed.

(** The validator on the canonical payload of an accepted event. *)
Lemma validateEvent_canonical (e : value) (ev : RelayEvent) :
  json_data e ->
  validateEvent e = Return (Valid ev) ->
  validateEvent (Js.reparse (RelayEvent_object ev)) = Return (Valid (settled ev)).
Proof.
  intros Hjson H. apply validateEvent_checks in H.
  destruct H as [_ [[Hid [Hid0 Hid8]] [[Hrepo [Hrepo0 Hslug]] [[_ [Hn0 Hn1]] [[Hrole Hroles]
    [[Hagent [Hagent0 Hagent2]] [[Htype Htype0] [Hbuild [[_ Henv] [[Hverdict Hverdicts]
    [Hscope [Hcond [_ [_ [[Hsev [Hrep [Hexp Hact]]] [Hart Hdet]]]]]]]]]]]]]]]].
  set (e2 := Js.reparse (RelayEvent_object ev)).
  assert (Ht : Js.truthy e2 = true) by reflexivity.
  assert (Ho : Js.typeof_object e2 = true) by reflexivity.
  assert (E : forall k, Js.prop e2 k = reread (Js.prop (RelayEvent_object ev) k))
    by (intros k; apply canonical_prop).
  assert (Eraw : forall k, reread (Js.prop e k) = Js.prop e k)
    by (intros k; apply json_data_prop, Hjson).
  assert (E1 : Js.prop e2 "event_id" = JStr (event_id ev)) by (rewrite E; reflexivity).
  assert (E2 : Js.prop e2 "repo" = JStr (repo ev)) by (rewrite E; reflexivity).
  assert (E3 : Js.prop e2 "issue_number" = JNum (issue_number ev)) by (rewrite E; reflexivity).
  assert (E4 : Js.prop e2 "role" = JStr (role ev)) by (rewrite E; reflexivity).
  assert (E5 : Js.prop e2 "agent" = JStr (agent ev)) by (rewrite E; reflexivity).
  assert (E6 : Js.prop e2 "event_type" = JStr (event_type ev)) by (rewrite E; reflexivity).
  assert (E7 : Js.prop e2 "summary" = opt_str (summary ev))
    by (rewrite E; change (Js.prop (RelayEvent_object ev) "summary") with (opt_str (summary ev));
        destruct (summary ev); reflexivity).
  assert (E8 : Js.prop e2 "environment" = opt_str (environment ev))
    by (rewrite E;
        change (Js.prop (RelayEvent_object ev) "environment") with (opt_str (environment ev));
        destruct (environment ev); reflexivity).
  assert (E9 : Js.prop e2 "build" = reread match build ev with
                                           | Some b => Build_object b
                                           | None => JUndefined
                                           end) by (rewrite E; reflexivity).
  assert (E10 : Js.prop e2 "overall_verdict" = overall_verdict ev)
    by (rewrite E;
        change (Js.prop (RelayEvent_object ev) "overall_verdict") with (overall_verdict ev);
        rewrite Hverdict; apply Eraw).
  assert (E11 : Js.prop e2 "scope_results"
                = reread match scope_results ev with
                         | Some rs => JArr (map ScopeResult_object rs)
                         | None => JUndefined
                         end) by (rewrite E; reflexivity).
  assert (E12 : Js.prop e2 "severity" = Js.prop e "severity")
    by (rewrite E; change (Js.prop (RelayEvent_object ev) "severity") with (severity ev);
        rewrite Hsev; apply Eraw).
  assert (E13 : Js.prop e2 "repro_steps" = Js.prop e "repro_steps")
    by (rewrite E; change (Js.prop (RelayEvent_object ev) "repro_steps") with (repro_steps ev);
        rewrite Hrep; apply Eraw).
  assert (E14 : Js.prop e2 "expected" = Js.prop e "expected")
    by (rewrite E; change (Js.prop (RelayEvent_object ev) "expected") with (expected ev);
        rewrite Hexp; apply Eraw).
  assert (E15 : Js.prop e2 "actual" = Js.prop e "actual")
    by (rewrite E; change (Js.prop (RelayEvent_object ev) "actual") with (actual ev);
        rewrite Hact; apply Eraw).
  assert (E16 : Js.prop e2 "evidence_urls"
                = reread match evidence_urls ev with
                         | Some us => JArr (map JStr us)
                         | None => JUndefined
                         end) by (rewrite E; reflexivity).
  assert (E17 : Js.prop e2 "artifacts" = artifacts ev).
  { rewrite E. change (Js.prop (RelayEvent_object ev) "artifacts") with (artifacts ev).
    rewrite Hart. destruct (Js.isArray (Js.prop e "artifacts")); [apply Eraw | reflexivity]. }
  assert (E18 : Js.prop e2 "details" = details ev)
    by (rewrite E; change (Js.prop (RelayEvent_object ev) "details") with (details ev);
        rewrite Hdet; apply Eraw).
  assert (Hcond2 : validate_conditional e2 (overall_verdict ev) = None).
  { rewrite <- Hcond, <- Hverdict. apply validate_conditional_ext.
    intros k Hk. cbn [conditional_fields In] in Hk.
    destruct Hk as [<- | [<- | [<- | [<- | []]]]]; assumption. }
  clearbody e2.
  unfold validateEvent. cbv zeta.
  rewrite Ht, Ho, E1, E2, E3, E4, E5, E6, E7, E8, E9, E10, E11, E12, E13, E14, E15, E16,
    E17, E18.
  clear E E1 E2 E3 E4 E5 E6 E7 E8 E9 E10 E11 E12 E13 E14 E15 E16 E17 E18.
  assert (Tid : Js.trim (event_id ev) = event_id ev) by (rewrite Hid; apply trimmed_trimmed).
  assert (Trepo : Js.trim (repo ev) = repo ev) by (rewrite Hrepo; apply trimmed_trimmed).
  assert (Trole : Js.trim (role ev) = role ev) by (rewrite Hrole; apply trimmed_trimmed).
  assert (Tagent : Js.trim (agent ev) = agent ev) by (rewrite Hagent; apply trimmed_trimmed).
  assert (Ttype : Js.trim (event_type ev) = event_type ev)
    by (rewrite Htype; apply trimmed_trimmed).
  rewrite !trimmed_text, Tid, Trepo, Trole, Tagent, Ttype.
  rewrite Hid0, Hid8, Hrepo0, Hslug, Hroles, Hagent0, Hagent2, Htype0.
  cbn [negb orb safeInt]. rewrite Hn0, Hn1. cbn [orb].
  rewrite validate_build_again
    by (intros b Hb; rewrite Hb in Hbuild; apply (validate_build_wellformed _ _ Hbuild)).
  rewrite validate_scope_again
    by (intros rs Hrs; rewrite Hrs in Hscope; apply (validate_scope_checked _ _ Hscope)).
  cbn [obind]. rewrite Hcond2, validate_evidence_again.
  assert (Hv : Js.truthy (overall_verdict ev)
               && negb (Js.value_one_of
                          ["PASS"; "FAIL"; "BLOCKED"; "PASS_UNVERIFIED"; "FAIL_UNCONFIRMED"]
                          (overall_verdict ev)) = false).
  { destruct (Js.truthy (overall_verdict ev)); [|reflexivity].
    rewrite (Hverdicts eq_refl). reflexivity. }
  rewrite Hv.
  assert (Hart2 : (if Js.isArray (artifacts ev) then artifacts ev else JUndefined)
                  = artifacts ev).
  { rewrite Hart. destruct (Js.isArray (Js.prop e "artifacts")) eqn:Ha;
      [rewrite Ha|]; reflexivity. }
  rewrite Hart2.
  assert (Hsum : (if negb (Js.nullish (opt_str (summary ev)))
                  then Some (Js.String (opt_str (summary ev))) else None) = summary ev)
    by (destruct (summary ev); reflexivity).
  rewrite Hsum.
  unfold settled.
  destruct (environment ev) as [s|] eqn:Hs; cbn [opt_str Js.truthy Js.String].
  - destruct (s =? "")%string eqn:Hempty; cbn [negb andb].
    + rewrite <- Hsev, <- Hrep, <- Hexp, <- Hact. reflexivity.
    + destruct (Henv s eq_refl) as [-> | Hone]; [discriminate|].
      rewrite Hone, ?Hempty. cbn [negb andb].
      rewrite <- Hsev, <- Hrep, <- Hexp, <- Hact. reflexivity.
  - rewrite <- Hsev, <- Hrep, <- Hexp, <- Hact. reflexivity.
Qed.

Lemma settled_fixed (ev : RelayEvent) : environment ev <> Some "" -> settled ev = ev.
Proof.
  destruct ev. unfold settled. cbn. intros H. f_equal.
  match goal with
  | |- match ?o with _ => _ end = _ => destruct o as [s|]; [|reflexivity]
  end.
  destruct (s =? "")%string eqn:Hs; [|reflexivity].
  apply String.eqb_eq in Hs. subst. contradiction.
Qed.

(** *** The stored payload is an event of its own *)

(** The canonical payload that the relay stores for an accepted event is
    itself accepted, and as the same event: for a payload that is JSON
    data, validating the parsed canonical payload gives the stored event
    back, except that an [environment] that came out as the empty text is
    read as absent.  So, unless the environment is the empty text, a
    request whose body parses to the canonical payload of a stored event is
    an idempotent replay: 200, and nothing is written or called. *)
Theorem canonical_payload_validates_to_itself (e : value) (ev : RelayEvent) :
  json_data e ->
  validateEvent e = Return (Valid ev) ->
  validateEvent (Js.reparse (RelayEvent_object ev)) = Return (Valid (settled ev))
  /\ (environment ev <> Some "" ->
      settled ev = ev
      /\ forall req w row,
           requireAuth req = None ->
           JSON_parse (req_body req) = Some (Js.reparse (RelayEvent_object ev)) ->
           stored_event (event_id ev) w = Some row ->
           row_payload_hash row = payload_hash_of ev ->
           fetch_v2_events req w = (idempotent_response ev, w)).
Proof.
  intros Hjson Hvalid.
  pose proof (validateEvent_canonical e ev Hjson Hvalid) as Hagain.
  split; [exact Hagain|].
  intros Henv. pose proof (settled_fixed ev Henv) as Hfix. split; [exact Hfix|].
  intros req w row Hauth Hparse Hrow Hhash.
  rewrite Hfix in Hagain. unfold fetch_v2_events.
  rewrite (handlePostEvents_existing _ _ _ _ _ _ Hauth Hparse Hagain Hrow).
  apply String.eqb_eq in Hhash. rewrite Hhash. reflexivity.
Qed.

(** ** Repository paths *)

Lemma split_slash_plain (s : string) :
  all_chars not_slash s = true -> split_slash s = [s].
Proof.
  induction s as [|c r IH]; [reflexivity|].
  cbn [all_chars split_slash]. intros H. apply andb_true_iff in H. destruct H as [Hc Hr].
  unfold not_slash in Hc. apply negb_true_iff in Hc. rewrite Hc, (IH Hr). reflexivity.
Qed.

Lemma slug_from_split (s : string) (seen : bool) :
  slug_from seen s = true ->
  exists o n,
    split_slash s = [o; n] /\ s = o ++ "/" ++ n
    /\ (seen = false -> o <> "") /\ n <> ""
    /\ all_chars not_slash o = true /\ all_chars not_slash n = true.
Proof.
  revert seen. induction s as [|c r IH]; intros seen H; [discriminate|].
  cbn [slug_from] in H. cbn [split_slash].
  destruct (Ascii.eqb c "/") eqn:Hc.
  - apply Ascii.eqb_eq in Hc. subst c.
    apply andb_true_iff in H. destruct H as [H Hplain].
    apply andb_true_iff in H. destruct H as [Hseen Hne].
    exists "", r. rewrite (split_slash_plain r Hplain).
    repeat split; try reflexivity; try assumption.
    + intros ->. discriminate.
    + apply negb_true_iff, String.eqb_neq in Hne. exact Hne.
  - destruct (IH true H) as [o [n [Hsplit [Hr [_ [Hn [Ho Hn']]]]]]].
    exists (String c o), n. rewrite Hsplit, Hr.
    repeat split; try assumption.
    + intros _. discriminate.
    + cbn [all_chars]. unfold not_slash at 1. rewrite Hc. exact Ho.
Qed.

(** *** Slugs and forge paths *)

(** A repository text that the validator accepts splits at its one slash
    into a non-empty owner and a non-empty name without slashes, and
    putting the two together again gives the text back: the forge is
    addressed at [/repos/<repo>], the repository that was named. *)
Theorem splitRepo_of_a_slug (repo : string) :
  isRepoSlug repo = true ->
  exists o n,
    splitRepo repo = (JStr o, JStr n)
    /\ o ++ "/" ++ n = repo
    /\ o <> "" /\ n <> ""
    /\ all_chars not_slash o = true /\ all_chars not_slash n = true
    /\ repo_path repo = "/repos/" ++ repo.
Proof.
  unfold isRepoSlug. intros H.
  destruct (slug_from_split repo false H) as [o [n [Hsplit [Hrepo [Ho [Hn [Hso Hsn]]]]]]].
  exists o, n.
  assert (Hparts : splitRepo repo = (JStr o, JStr n))
    by (unfold splitRepo; rewrite Hsplit; reflexivity).
  repeat split; try assumption; try (symmetry; assumption).
  - apply Ho. reflexivity.
  - unfold repo_path. rewrite Hparts. cbn [Js.String]. rewrite <- Hrepo. reflexivity.
Qed.

(** ** The event route, case by case *)

Lemma requireAuth_refuses (req : Request) (res : HttpResponse) :
  requireAuth req = Some res -> res = unauthorized.
Proof.
  unfold requireAuth. destruct (x_relay_key req) as [key|].
  - destruct ((key =? "")%string || negb (key =? RELAY_SHARED_SECRET env)%string);
      intros H; [injection H as <-; reflexivity | discriminate].
  - intros H. injection H as <-. reflexivity.
Qed.

Lemma requireAuth_passes (req : Request) :
  requireAuth req = None
  <-> x_relay_key req = Some (RELAY_SHARED_SECRET env) /\ RELAY_SHARED_SECRET env <> "".
Proof.
  unfold requireAuth. destruct (x_relay_key req) as [key|].
  - destruct (key =? "")%string eqn:Hempty; cbn [orb].
    + apply String.eqb_eq in Hempty. subst key. split; [discriminate|].
      intros [Hkey Hne]. injection Hkey as Hkey. exfalso. apply Hne. symmetry. exact Hkey.
    + destruct (key =? RELAY_SHARED_SECRET env)%string eqn:Hkey; cbn [negb].
      * apply String.eqb_eq in Hkey. subst key. split; [|reflexivity].
        intros _. split; [reflexivity|]. apply String.eqb_neq, Hempty.
      * apply String.eqb_neq in Hkey. split; [discriminate|].
        intros [H _]. injection H as H. contradiction.
  - split; [discriminate | intros [H _]; discriminate].
Qed.

(** The six ways through [handlePostEvents]. *)
Lemma handlePostEvents_cases (req : Request) (g : M value) (w : World) :
  (requireAuth req <> None /\ handlePostEvents req g w = (Return unauthorized, w))
  \/ (requireAuth req = None /\ JSON_parse (req_body req) = None
      /\ handlePostEvents req g w = (Return (badRequest "Invalid JSON body" JUndefined), w))
  \/ (exists payload err,
        requireAuth req = None /\ JSON_parse (req_body req) = Some payload
        /\ validateEvent payload = Throw err
        /\ handlePostEvents req g w = (Throw err, w))
  \/ (exists payload message,
        requireAuth req = None /\ JSON_parse (req_body req) = Some payload
        /\ validateEvent payload = Return (Invalid message)
        /\ handlePostEvents req g w = (Return (badRequest message JUndefined), w))
  \/ (exists payload ev row,
        requireAuth req = None /\ JSON_parse (req_body req) = Some payload
        /\ validateEvent payload = Return (Valid ev)
        /\ stored_event (event_id ev) w = Some row
        /\ handlePostEvents req g w
           = (Return (if negb (row_payload_hash row =? payload_hash_of ev)%string
                      then conflict_response ev (row_payload_hash row)
                      else idempotent_response ev), w))
  \/ (exists payload ev,
        requireAuth req = None /\ JSON_parse (req_body req) = Some payload
        /\ validateEvent payload = Return (Valid ev)
        /\ stored_event (event_id ev) w = None
        /\ handlePostEvents req g w = ingest g ev w).
Proof.
  destruct (requireAuth req) as [res|] eqn:Hauth.
  - left. split; [discriminate|].
    unfold handlePostEvents. rewrite Hauth, (requireAuth_refuses _ _ Hauth). reflexivity.
  - right.
    destruct (JSON_parse (req_body req)) as [payload|] eqn:Hparse.
    + right.
      destruct (validateEvent payload) as [[ev|message]|err] eqn:Hvalid.
      * right. right.
        destruct (stored_event (event_id ev) w) as [row|] eqn:Hrow.
        -- left. exists payload, ev, row. repeat split; try assumption.
           apply handlePostEvents_existing with (payload := payload); assumption.
        -- right. exists payload, ev. repeat split; try assumption.
           unfold handlePostEvents. rewrite Hauth, Hparse.
           rewrite bind_run. unfold lift. rewrite Hvalid. cbv iota.
           rewrite bind_run.
           change (select_event (event_id ev) w)
             with (Return (stored_event (event_id ev) w), w).
           rewrite Hrow. reflexivity.
      * right. left. exists payload, message. repeat split; try assumption.
        apply handlePostEvents_invalid with (payload := payload); assumption.
      * left. exists payload, err. repeat split; try assumption.
        unfold handlePostEvents. rewrite Hauth, Hparse.
        rewrite bind_run. unfold lift. rewrite Hvalid. reflexivity.
    + left. repeat split; try assumption.
      unfold handlePostEvents. rewrite Hauth, Hparse. reflexivity.
Qed.

Lemma ingest_returns (g : M value) (ev : RelayEvent) :
  returns (fun res => http_status res = 201) (ingest g ev).
Proof.
  unfold ingest. apply returns_bind. intros t. apply returns_bind. intros [[pv ph] eff].
  apply returns_bind. intros _. intros w res Hres.
  destruct (publish_returns t ev pv ph eff w res Hres) as [commentId ->]. reflexivity.
Qed.

Lemma same_events_getInstallationToken : preserves same_events getInstallationToken.
Proof.
  apply preserves_getInstallationToken; unfold same_events; intros; simpl; congruence.
Qed.

Lemma same_events_provenanceCheck (t : value) (ev : RelayEvent) :
  preserves same_events (provenanceCheck t ev).
Proof.
  apply preserves_provenanceCheck; unfold same_events; intros; simpl; congruence.
Qed.

(** What [ingest] does to table [events]: nothing until the row of the
    event is appended, and nothing after. *)
Lemma ingest_events (ev : RelayEvent) (w : World) :
  stored_event (event_id ev) w = None ->
  forall o w', ingest getInstallationToken ev w = (o, w') ->
    (events (db w') = events (db w) /\ exists err, o = Throw err)
    \/ exists eff now, events (db w') = (events (db w) ++ [event_row ev eff now])%list.
Proof.
  intros Hnone o w'. unfold ingest. rewrite bind_run.
  pose proof (same_events_getInstallationToken w) as H1.
  destruct (getInstallationToken w) as [[t|err] w1]; cbn [snd] in H1.
  2:{ intros H. injection H as <- <-. left. split; [exact H1 | eexists; reflexivity]. }
  rewrite bind_run.
  pose proof (same_events_provenanceCheck t ev w1) as H2.
  destruct (provenanceCheck t ev w1) as [[[[pv ph] eff]|err] w2]; cbn [snd] in H2.
  2:{ intros H. injection H as <- <-. left.
      split; [unfold same_events in *; congruence | eexists; reflexivity]. }
  assert (Hev : events (db w2) = events (db w)) by (unfold same_events in *; congruence).
  rewrite bind_run, persistEvent_run by (unfold stored_event; rewrite Hev; exact Hnone).
  match goal with
  | |- context [publish ?t ?e ?a ?b ?c ?w3] =>
      pose proof (same_events_publish t e a b c w3) as H3;
      destruct (publish t e a b c w3) as [o3 w3']
  end.
  cbn [snd] in H3. unfold same_events in H3. cbn [db events] in H3.
  intros H. right. exists eff, (clock (ticks w2)).
  assert (Hw : w' = w3') by (destruct o3; injection H as _ <-; reflexivity).
  rewrite Hw, H3, Hev. reflexivity.
Qed.

Lemma fetch_v2_events_run (req : Request) (w : World) :
  fetch_v2_events req w
  = match handlePostEvents req getInstallationToken w with
    | (Return res, w') => (res, w')
    | (Throw err, w') => (internal_error err, w')
    end.
Proof. reflexivity. Qed.

(** *** The answers of the event route *)

(** Whatever the request, [POST /v2/events] answers with one of the
    statuses 200, 201, 400, 401, 409 and 500.  A request without the exact
    shared secret in [x-relay-key], or any request while the configured
    secret is empty, gets 401 before its body is looked at.  And only a 201
    or a 500 can have had an effect: with any other status no row was
    written, no forge call was made and the clock was not read. *)
Theorem events_route_answers (req : Request) (w : World) :
  In (http_status (fst (fetch_v2_events req w))) [200; 201; 400; 401; 409; 500]
  /\ (x_relay_key req <> Some (RELAY_SHARED_SECRET env) \/ RELAY_SHARED_SECRET env = "" ->
      fetch_v2_events req w = (unauthorized, w))
  /\ (In (http_status (fst (fetch_v2_events req w))) [200; 400; 401; 409] ->
      snd (fetch_v2_events req w) = w).
Proof.
  rewrite fetch_v2_events_run.
  destruct (handlePostEvents_cases req getInstallationToken w)
    as [[Hauth Hrun] | [[Hauth [Hparse Hrun]] | [[payload [err [Hauth [Hparse [Hvalid Hrun]]]]]
         | [[payload [message [Hauth [Hparse [Hvalid Hrun]]]]]
            | [[payload [ev [row [Hauth [Hparse [Hvalid [Hrow Hrun]]]]]]]
               | [payload [ev [Hauth [Hparse [Hvalid [Hrow Hrun]]]]]]]]]]]; rewrite Hrun.
  - split; [cbn; auto 10|]. split; [reflexivity|]. reflexivity.
  - split; [cbn; auto 10|]. split; [|reflexivity].
    intros Hkey. apply requireAuth_passes in Hauth. destruct Hauth as [Hk Hne].
    destruct Hkey as [Hkey | Hkey]; contradiction.
  - split; [cbn; auto 10|]. split; [|reflexivity].
    intros Hkey. apply requireAuth_passes in Hauth. destruct Hauth as [Hk Hne].
    destruct Hkey as [Hkey | Hkey]; contradiction.
  - split; [cbn; auto 10|]. split; [|reflexivity].
    intros Hkey. apply requireAuth_passes in Hauth. destruct Hauth as [Hk Hne].
    destruct Hkey as [Hkey | Hkey]; contradiction.
  - split; [destruct (negb _); cbn; auto 10|]. split; [|reflexivity].
    intros Hkey. apply requireAuth_passes in Hauth. destruct Hauth as [Hk Hne].
    destruct Hkey as [Hkey | Hkey]; contradiction.
  - pose proof (ingest_returns getInstallationToken ev w) as Hret.
    destruct (ingest getInstallationToken ev w) as [[res|err] w'] eqn:Hin; cbn [fst snd] in *.
    + rewrite (Hret res eq_refl).
      split; [cbn; auto 10|]. split.
      * intros Hkey. apply requireAuth_passes in Hauth. destruct Hauth as [Hk Hne].
        destruct Hkey as [Hkey | Hkey]; contradiction.
      * cbn. intros [H | [H | [H | [H | []]]]]; discriminate.
    + split; [cbn; auto 10|]. split.
      * intros Hkey. apply requireAuth_passes in Hauth. destruct Hauth as [Hk Hne].
        destruct Hkey as [Hkey | Hkey]; contradiction.
      * cbn. intros [H | [H | [H | [H | []]]]]; discriminate.
Qed.

Lemma stored_event_none (id_ : string) (w : World) :
  stored_event id_ w = None -> ~ In id_ (map row_event_id (events (db w))).
Proof.
  unfold stored_event. intros Hnone Hin. apply in_map_iff in Hin.
  destruct Hin as [r [Hid Hr]].
  apply (find_none _ _ Hnone) in Hr. cbn beta in Hr.
  rewrite Hid, String.eqb_refl in Hr. discriminate.
Qed.

Lemma NoDup_snoc {A} (l : list A) (x : A) : NoDup l -> ~ In x l -> NoDup (l ++ [x]).
Proof.
  intros Hl Hx. apply NoDup_app; [exact Hl | repeat constructor; intros [] |].
  intros y Hy [<- | []]. contradiction.
Qed.

(** *** The event store only grows *)

(** Table [events] is append-only and keeps its key: whatever the request,
    [POST /v2/events] leaves the rows that were there as they are and in
    their order, and adds at most one row, whose [event_id] was not in the
    table; so a table without repeated [event_id]s stays one.  A 201 answer
    means that the row was added. *)
Theorem events_table_is_append_only (req : Request) (w : World) :
  (events (db (snd (fetch_v2_events req w))) = events (db w)
   \/ exists row,
        events (db (snd (fetch_v2_events req w))) = (events (db w) ++ [row])%list
        /\ stored_event (row_event_id row) w = None)
  /\ (unique_event_ids w -> unique_event_ids (snd (fetch_v2_events req w)))
  /\ (http_status (fst (fetch_v2_events req w)) = 201 ->
      exists row,
        events (db (snd (fetch_v2_events req w))) = (events (db w) ++ [row])%list).
Proof.
  assert (Hsame : forall res, fetch_v2_events req w = (res, w) ->
            http_status res <> 201 ->
            (events (db (snd (fetch_v2_events req w))) = events (db w)
             \/ exists row,
                  events (db (snd (fetch_v2_events req w))) = (events (db w) ++ [row])%list
                  /\ stored_event (row_event_id row) w = None)
            /\ (unique_event_ids w -> unique_event_ids (snd (fetch_v2_events req w)))
            /\ (http_status (fst (fetch_v2_events req w)) = 201 ->
                exists row,
                  events (db (snd (fetch_v2_events req w)))
                  = (events (db w) ++ [row])%list)).
  { intros res Hrun Hst. rewrite Hrun. cbn [fst snd].
    split; [left; reflexivity|]. split; [auto | intros; contradiction]. }
  pose proof (fetch_v2_events_run req w) as Hfetch.
  destruct (handlePostEvents_cases req getInstallationToken w)
    as [[Hauth Hrun] | [[Hauth [Hparse Hrun]] | [[payload [err [Hauth [Hparse [Hvalid Hrun]]]]]
         | [[payload [message [Hauth [Hparse [Hvalid Hrun]]]]]
            | [[payload [ev [row [Hauth [Hparse [Hvalid [Hrow Hrun]]]]]]]
               | [payload [ev [Hauth [Hparse [Hvalid [Hrow Hrun]]]]]]]]]]]; rewrite Hrun in Hfetch.
  - apply (Hsame _ Hfetch). discriminate.
  - apply (Hsame _ Hfetch). discriminate.
  - apply (Hsame _ Hfetch). discriminate.
  - apply (Hsame _ Hfetch). discriminate.
  - apply (Hsame _ Hfetch). destruct (negb _); discriminate.
  - clear Hsame.
    pose proof (ingest_events ev w Hrow) as Hev.
    destruct (ingest getInstallationToken ev w) as [o w'] eqn:Hin.
    specialize (Hev o w' eq_refl).
    assert (Hw : snd (fetch_v2_events req w) = w')
      by (rewrite Hfetch; destruct o; reflexivity).
    rewrite Hw.
    destruct Hev as [[Hev [err ->]] | [eff [now Hev]]].
    + rewrite Hfetch. cbn [fst].
      split; [left; exact Hev|].
      split; [unfold unique_event_ids; rewrite Hev; auto | discriminate].
    + split; [right; eexists; split; [exact Hev | exact Hrow]|].
      split; [|intros _; eexists; exact Hev].
      unfold unique_event_ids. rewrite Hev, map_app. intros Hnd.
      apply NoDup_snoc; [exact Hnd|]. apply stored_event_none, Hrow.
Qed.

(** ** Counting forge calls *)

Lemma within_weaken {A} (P Q : ForgeCall -> Prop) (n m : nat) (c : M A) :
  within P n c -> (n <= m)%nat -> (forall call, P call -> Q call) -> within Q m c.
Proof.
  intros Hc Hnm HPQ w. destruct (Hc w) as [added [Hcalls [Hlen Hall]]].
  exists added. split; [exact Hcalls|]. split; [lia|].
  eapply Forall_impl; [exact HPQ | exact Hall].
Qed.

Lemma within_quiet {A} (P : ForgeCall -> Prop) (n : nat) (c : M A) :
  (forall w, calls (snd (c w)) = calls w) -> within P n c.
Proof.
  intros Hc w. exists []. rewrite Hc, app_nil_r.
  split; [reflexivity|]. split; [simpl; lia | constructor].
Qed.

Lemma within_bind {A B} (P : ForgeCall -> Prop) (n m : nat) (c : M A) (k : A -> M B) :
  within P n c -> (forall a, within P m (k a)) -> within P (n + m) (bind c k).
Proof.
  intros Hc Hk w. unfold bind. destruct (Hc w) as [a1 [H1 [L1 F1]]].
  destruct (c w) as [[a|e] w1]; cbn [snd] in *.
  - destruct (Hk a w1) as [a2 [H2 [L2 F2]]].
    exists (a1 ++ a2)%list. rewrite H2, H1, app_assoc.
    split; [reflexivity|]. split; [rewrite length_app; lia | apply Forall_app; auto].
  - exists a1. split; [exact H1|]. split; [lia | exact F1].
Qed.

Lemma within_try_catch {A} (P : ForgeCall -> Prop) (n m : nat) (c : M A) (h : exn -> M A) :
  within P n c -> (forall e, within P m (h e)) -> within P (n + m) (try_catch c h).
Proof.
  intros Hc Hh w. unfold try_catch. destruct (Hc w) as [a1 [H1 [L1 F1]]].
  destruct (c w) as [[a|e] w1]; cbn [snd] in *.
  - exists a1. split; [exact H1|]. split; [lia | exact F1].
  - destruct (Hh e w1) as [a2 [H2 [L2 F2]]].
    exists (a1 ++ a2)%list. rewrite H2, H1, app_assoc.
    split; [reflexivity|]. split; [rewrite length_app; lia | apply Forall_app; auto].
Qed.

Lemma within_githubFetch (P : ForgeCall -> Prop) (n : nat) (t : value) (call : ForgeCall) :
  P call -> within P (S n) (githubFetch t call).
Proof.
  intros Hp w. exists [call]. split; [reflexivity|].
  split; [simpl; lia | constructor; [exact Hp | constructor]].
Qed.

(** One forge operation: the call, then reading the answer. *)
Lemma within_operation {A} (P : ForgeCall -> Prop) (n : nat) (t : value) (call : ForgeCall)
      (k : ForgeResponse -> M A) :
  P call -> (forall res w, calls (snd (k res w)) = calls w) ->
  within P (S n) (bind (githubFetch t call) k).
Proof.
  intros Hp Hk. replace (S n) with (S n + 0)%nat by lia.
  apply within_bind; [apply within_githubFetch, Hp|].
  intros res. apply within_quiet. apply Hk.
Qed.

Lemma quiet_answer (what : string) (res : ForgeResponse) (w : World) :
  calls (snd ((if negb (res_ok res) then forge_error what res else res_json res) w))
  = calls w.
Proof.
  destruct (negb (res_ok res)); [reflexivity|].
  unfold res_json. destruct (json res); reflexivity.
Qed.

Lemma within_getInstallationToken (P : ForgeCall -> Prop) (n : nat) :
  P MintToken -> within P (S n) getInstallationToken.
Proof.
  intros Hp. unfold getInstallationToken. apply within_operation; [exact Hp|].
  intros res w. destruct (negb (res_ok res)); [reflexivity|].
  unfold bind, res_json. destruct (json res); reflexivity.
Qed.

Lemma within_getPullRequestHeadSha (P : ForgeCall -> Prop) (n : nat) (t : value)
      (repo : string) (prNumber : Z) :
  P (GetPull repo prNumber) -> within P (S n) (getPullRequestHeadSha t repo prNumber).
Proof.
  intros Hp. unfold getPullRequestHeadSha. apply within_operation; [exact Hp|].
  intros res w. destruct (negb (res_ok res)); [reflexivity|].
  unfold bind, res_json. destruct (json res) as [pull|]; [|reflexivity].
  unfold ret at 1. cbv iota beta. unfold lift. destruct (Js.member pull "head"); reflexivity.
Qed.

Lemma within_getIssueDetails (P : ForgeCall -> Prop) (n : nat) (t : value)
      (repo : string) (issueNumber : Z) :
  P (GetIssue repo issueNumber) -> within P (S n) (getIssueDetails t repo issueNumber).
Proof.
  intros Hp. apply within_operation; [exact Hp | intros; apply quiet_answer].
Qed.

Lemma within_listIssueComments (P : ForgeCall -> Prop) (n : nat) (t : value)
      (repo : string) (issueNumber page : Z) :
  P (ListComments repo issueNumber 100 page) ->
  within P (S n) (listIssueComments t repo issueNumber page).
Proof.
  intros Hp. apply within_operation; [exact Hp | intros; apply quiet_answer].
Qed.

Lemma within_createIssueComment (P : ForgeCall -> Prop) (n : nat) (t : value)
      (repo : string) (issueNumber : Z) (body : string) :
  P (CreateComment repo issueNumber body) ->
  within P (S n) (createIssueComment t repo issueNumber body).
Proof.
  intros Hp. apply within_operation; [exact Hp | intros; apply quiet_answer].
Qed.

Lemma within_updateIssueComment (P : ForgeCall -> Prop) (n : nat) (t : value)
      (repo commentId body : string) :
  P (UpdateComment repo commentId body) ->
  within P (S n) (updateIssueComment t repo commentId body).
Proof.
  intros Hp. apply within_operation; [exact Hp | intros; apply quiet_answer].
Qed.

Lemma within_putIssueLabels (P : ForgeCall -> Prop) (n : nat) (t : value)
      (repo : string) (issueNumber : Z) (labels : list value) :
  P (PutLabels repo issueNumber labels) ->
  within P (S n) (putIssueLabels t repo issueNumber labels).
Proof.
  intros Hp. apply within_operation; [exact Hp | intros; apply quiet_answer].
Qed.

(** A bind whose first part is known to make at most [n] of [m] calls. *)
Lemma within_bind_of {A B} (P : ForgeCall -> Prop) (n m : nat) (c : M A) (k : A -> M B) :
  (n <= m)%nat -> within P n c -> (forall a, within P (m - n) (k a)) ->
  within P m (bind c k).
Proof.
  intros Hnm Hc Hk. replace m with (n + (m - n))%nat by lia.
  apply within_bind; assumption.
Qed.

(** The database and the clock make no forge calls. *)
Lemma quiet_nowIso (w : World) : calls (snd (nowIso w)) = calls w.
Proof. reflexivity. Qed.

Lemma quiet_replace_comment (repo : string) (n : Z) (commentId now : string) (w : World) :
  calls (snd (replace_comment repo n commentId now w)) = calls w.
Proof. reflexivity. Qed.

Lemma quiet_touch_comment (now repo : string) (n : Z) (w : World) :
  calls (snd (touch_comment now repo n w)) = calls w.
Proof. reflexivity. Qed.

(** The end of tiers 2 and 3: the mapping row is written, nothing is
    called. *)
Lemma quiet_record (repo : string) (n : Z) (commentId : string) (w : World) :
  calls (snd (bind nowIso (fun now =>
                bind (replace_comment repo n commentId now) (fun _ => ret commentId)) w))
  = calls w.
Proof. reflexivity. Qed.

Lemma within_scan_comments (fuel : nat) (t : value) (repo : string) (n page : Z) :
  1 <= page ->
  within (upsert_call repo n) fuel (scan_comments fuel t repo n page).
Proof.
  revert page. induction fuel as [|fuel IH]; intros page Hpage.
  - apply within_quiet. reflexivity.
  - cbn [scan_comments]. destruct (page <=? 3) eqn:Hle.
    + apply Z.leb_le in Hle.
      apply (within_bind_of _ 1); [lia | |].
      * apply within_listIssueComments. constructor. lia.
      * intros comments. replace (S fuel - 1)%nat with fuel by lia.
        destruct comments as [| | | | |cs|]; try (apply within_quiet; reflexivity).
        apply (within_bind_of _ 0); [lia | apply within_quiet; reflexivity|].
        intros hit. replace (fuel - 0)%nat with fuel by lia.
        destruct (Z.of_nat (List.length cs) <? 100); [apply within_quiet; reflexivity|].
        destruct (Js.truthy (Js.or hit JNull)); [apply within_quiet; reflexivity|].
        apply IH. lia.
    + apply within_quiet. reflexivity.
Qed.

Lemma within_upsert_create (t : value) (repo : string) (n : Z) (body : string) :
  within (upsert_call repo n) 1 (upsert_create t repo n body).
Proof.
  unfold upsert_create.
  apply (within_bind_of _ 1); [lia | apply within_createIssueComment; constructor|].
  intros created. apply within_quiet. intros w. unfold bind, lift.
  destruct (Js.member created "id"); reflexivity.
Qed.

Lemma within_upsert_scan (t : value) (repo : string) (n : Z) (body : string) :
  within (upsert_call repo n) 4 (upsert_scan t repo n body).
Proof.
  unfold upsert_scan.
  apply (within_bind_of _ 3); [lia | apply within_scan_comments; lia|].
  intros found. cbn [Nat.sub].
  destruct (Js.truthy (Js.opt_member found "id")).
  - apply (within_bind_of _ 1); [lia | apply within_updateIssueComment; constructor|].
    intros _. apply within_quiet. intros w. apply quiet_record.
  - apply within_upsert_create.
Qed.

Lemma within_upsert_mapped (t : value) (repo : string) (n : Z) (body : string) :
  within (upsert_call repo n) 1 (upsert_mapped t repo n body).
Proof.
  unfold upsert_mapped.
  apply (within_bind_of _ 0); [lia | apply within_quiet; reflexivity|].
  intros [row|]; cbn [Nat.sub]; [|apply within_quiet; reflexivity].
  destruct (negb (map_comment_id row =? "")%string); [|apply within_quiet; reflexivity].
  replace 1%nat with (1 + 0)%nat by reflexivity. apply within_try_catch.
  - apply (within_bind_of _ 1); [lia | apply within_updateIssueComment; constructor|].
    intros _. apply within_quiet. reflexivity.
  - intros e. apply within_quiet. reflexivity.
Qed.

Lemma within_upsertRollingComment (t : value) (repo : string) (n : Z) (body : string) :
  within (upsert_call repo n) 5 (upsertRollingComment t repo n body).
Proof.
  unfold upsertRollingComment.
  apply (within_bind_of _ 1); [lia | apply within_upsert_mapped|].
  intros [commentId|]; cbn [Nat.sub];
    [apply within_quiet; reflexivity | apply within_upsert_scan].
Qed.

(** *** The forge calls of an upsert *)

(** Whatever the forge answers and whatever the mapping table holds, one
    upsert of the rolling comment makes at most five forge calls, each of
    them an update of a comment, the creation of a comment on the issue or
    a listing of the issue's comments at 100 per page; no page beyond the
    third is ever listed. *)
Theorem upsert_makes_at_most_five_calls
        (t : value) (repo : string) (n : Z) (body : string) (w : World) :
  exists added,
    calls (snd (upsertRollingComment t repo n body w)) = (calls w ++ added)%list
    /\ (List.length added <= 5)%nat
    /\ Forall (upsert_call repo n) added.
Proof. apply within_upsertRollingComment. Qed.

Lemma within_provenanceCheck (t : value) (ev : RelayEvent) :
  within (event_call ev) 1 (provenanceCheck t ev).
Proof.
  unfold provenanceCheck.
  destruct (build ev) as [b|] eqn:Hb; [|apply within_quiet; reflexivity].
  destruct (pr b) as [prNumber|] eqn:Hp; [|apply within_quiet; reflexivity].
  destruct (negb (prNumber =? 0) && negb (commit_sha b =? "")%string);
    [|apply within_quiet; reflexivity].
  apply (within_bind_of _ 1);
    [lia | apply within_getPullRequestHeadSha; econstructor; eassumption|].
  intros sha. apply within_quiet. reflexivity.
Qed.

Lemma within_applyLabelRules (P : ForgeCall -> Prop) (t : value) (repo : string) (n : Z)
      (eventType : string) (verdict : value) :
  P (GetIssue repo n) -> (forall labels, P (PutLabels repo n labels)) ->
  within P 2 (applyLabelRules t repo n eventType verdict).
Proof.
  intros Hget Hput. unfold applyLabelRules.
  destruct parseLabelRules as [rules|]; [|apply within_quiet; reflexivity].
  destruct (negb (Js.truthy (elem rules eventType))); [apply within_quiet; reflexivity|].
  match goal with
  | |- within _ _ (if ?b then _ else _) => destruct b; [apply within_quiet; reflexivity|]
  end.
  apply (within_bind_of _ 1); [lia | apply within_getIssueDetails, Hget|].
  intros issue. cbn [Nat.sub].
  apply (within_bind_of _ 0); [lia | apply within_quiet; reflexivity|].
  intros labels. cbn [Nat.sub].
  apply (within_bind_of _ 0); [lia | apply within_quiet; reflexivity|].
  intros current. cbn [Nat.sub].
  apply (within_bind_of _ 1); [lia | apply within_putIssueLabels, Hput|].
  intros _. apply within_quiet. reflexivity.
Qed.

Lemma within_publish (t : value) (ev : RelayEvent) (pv : option bool) (ph : option string)
      (eff : value) :
  within (event_call ev) 8 (publish t ev pv ph eff).
Proof.
  unfold publish.
  apply (within_bind_of _ 1); [lia | apply within_getIssueDetails, event_issue|].
  intros issue. cbn [Nat.sub].
  apply (within_bind_of _ 0); [lia | apply within_quiet; reflexivity|].
  intros latestDevRow. cbn [Nat.sub].
  apply (within_bind_of _ 0); [lia | apply within_quiet; reflexivity|].
  intros latestQaRow. cbn [Nat.sub].
  apply (within_bind_of _ 0); [lia | apply within_quiet; reflexivity|].
  intros recent. cbn [Nat.sub].
  apply (within_bind_of _ 0); [lia | apply within_quiet; reflexivity|].
  intros body. cbn [Nat.sub].
  apply (within_bind_of _ 5); [lia | |].
  { eapply within_weaken; [apply within_upsertRollingComment | lia|].
    intros call Hcall. apply event_upsert, Hcall. }
  intros commentId. cbn [Nat.sub].
  apply (within_bind_of _ 2); [lia | |].
  { apply within_applyLabelRules; [apply event_issue | intros; apply event_labels]. }
  intros _. apply within_quiet. reflexivity.
Qed.

Lemma within_ingest (ev : RelayEvent) :
  within (event_call ev) 10 (ingest getInstallationToken ev).
Proof.
  unfold ingest.
  apply (within_bind_of _ 1); [lia | apply within_getInstallationToken, event_token|].
  intros t. cbn [Nat.sub].
  apply (within_bind_of _ 1); [lia | apply within_provenanceCheck|].
  intros [[pv ph] eff]. cbn [Nat.sub].
  apply (within_bind_of _ 0); [lia | |].
  { apply within_quiet. intros w. unfold persistEvent, insert_event, bind, nowIso, get_db.
    cbn. destruct (existsb _ _); reflexivity. }
  intros _. cbn [Nat.sub]. apply within_publish.
Qed.

(** *** The forge calls of a request *)

(** Whatever the request, the database and the forge's answers, one
    [POST /v2/events] makes at most ten forge calls; and for a payload that
    validates to an event, each of them is the token exchange or a call on
    that event's repository: its pull request, its issue, the issue's
    comments (pages 1 to 3, 100 per page) or the issue's labels. *)
Theorem request_makes_at_most_ten_calls (req : Request) (w : World) :
  exists added,
    calls (snd (fetch_v2_events req w)) = (calls w ++ added)%list
    /\ (List.length added <= 10)%nat
    /\ forall payload ev,
         JSON_parse (req_body req) = Some payload ->
         validateEvent payload = Return (Valid ev) ->
         Forall (event_call ev) added.
Proof.
  assert (Hquiet : forall o, handlePostEvents req getInstallationToken w = (o, w) ->
            exists added,
              calls (snd (fetch_v2_events req w)) = (calls w ++ added)%list
              /\ (List.length added <= 10)%nat
              /\ forall payload ev,
                   JSON_parse (req_body req) = Some payload ->
                   validateEvent payload = Return (Valid ev) ->
                   Forall (event_call ev) added).
  { intros o Hrun. exists []. rewrite fetch_v2_events_run, Hrun, app_nil_r.
    split; [destruct o; reflexivity|]. split; [simpl; lia | intros; constructor]. }
  destruct (handlePostEvents_cases req getInstallationToken w)
    as [[Hauth Hrun] | [[Hauth [Hparse Hrun]] | [[payload [err [Hauth [Hparse [Hvalid Hrun]]]]]
         | [[payload [message [Hauth [Hparse [Hvalid Hrun]]]]]
            | [[payload [ev [row [Hauth [Hparse [Hvalid [Hrow Hrun]]]]]]]
               | [payload [ev [Hauth [Hparse [Hvalid [Hrow Hrun]]]]]]]]]]];
    try (eapply Hquiet; exact Hrun).
  destruct (within_ingest ev w) as [added [Hcalls [Hlen Hall]]].
  exists added. rewrite fetch_v2_events_run, Hrun.
  split; [destruct (ingest getInstallationToken ev w) as [[res|e] w']; exact Hcalls|].
  split; [exact Hlen|].
  intros payload' ev' Hparse' Hvalid'.
  rewrite Hparse in Hparse'. injection Hparse' as <-.
  rewrite Hvalid in Hvalid'. injection Hvalid' as <-. exact Hall.
Qed.

(** ** The mapping table *)

Lemma same_issue_key (repo : string) (n : Z) (r : CommentRow) :
  same_issue repo n r = true <-> mapping_key r = (repo, n).
Proof.
  unfold same_issue, mapping_key. rewrite andb_true_iff, String.eqb_eq, Z.eqb_eq.
  split; [intros [-> ->]; reflexivity | intros H; injection H as -> ->; split; reflexivity].
Qed.

Lemma same_issue_other (repo repo' : string) (n n' : Z) (r : CommentRow) :
  repo' <> repo \/ n' <> n ->
  same_issue repo n r = true -> same_issue repo' n' r = false.
Proof.
  intros Hne H. apply same_issue_key in H.
  destruct (same_issue repo' n' r) eqn:H'; [|reflexivity].
  apply same_issue_key in H'. rewrite H in H'. injection H' as -> ->.
  destruct Hne as [Hne | Hne]; exfalso; apply Hne; reflexivity.
Qed.

Lemma find_bumped (f : CommentRow -> bool) (g : CommentRow -> CommentRow)
      (rows : list CommentRow) :
  (forall r, f (g r) = f r) ->
  find f (map g rows) = option_map g (find f rows).
Proof.
  intros Hfg. induction rows as [|r rows IH]; [reflexivity|].
  cbn [map find]. rewrite Hfg. destruct (f r); [reflexivity | exact IH].
Qed.

Lemma find_unbumped (f : CommentRow -> bool) (g : CommentRow -> CommentRow)
      (rows : list CommentRow) :
  (forall r, f (g r) = f r) -> (forall r, f r = true -> g r = r) ->
  find f (map g rows) = find f rows.
Proof.
  intros Hfg Hg. rewrite (find_bumped f g rows Hfg).
  destruct (find f rows) as [r|] eqn:Hr; [|reflexivity].
  apply find_some in Hr. cbn [option_map]. rewrite (Hg r); [reflexivity | apply Hr].
Qed.

Lemma find_filtered {A} (f p : A -> bool) (l : list A) :
  (forall x, f x = true -> p x = true) -> find f (filter p l) = find f l.
Proof.
  intros Hfp. induction l as [|x l IH]; [reflexivity|].
  cbn [filter find]. destruct (p x) eqn:Hp.
  - cbn [find]. destruct (f x); [reflexivity | exact IH].
  - destruct (f x) eqn:Hf; [rewrite (Hfp x Hf) in Hp; discriminate | exact IH].
Qed.

Lemma find_snoc_miss {A} (f : A -> bool) (l : list A) (x : A) :
  f x = false -> find f (l ++ [x]) = find f l.
Proof.
  intros Hx. induction l as [|y l IH]; cbn [app find].
  - rewrite Hx. reflexivity.
  - destruct (f y); [reflexivity | exact IH].
Qed.

Lemma find_filtered_out {A} (f : A -> bool) (l : list A) :
  find f (filter (fun x => negb (f x)) l) = None.
Proof.
  induction l as [|x l IH]; [reflexivity|].
  cbn [filter]. destruct (f x) eqn:Hf; cbn [negb]; [exact IH|].
  cbn [find]. rewrite Hf. exact IH.
Qed.

Section Mappings.

Variable repo : string.
Variable n : Z.

Let kept := other_mappings_kept repo n.

Lemma kept_refl (w : World) : kept w w.
Proof. unfold kept, other_mappings_kept. auto. Qed.

Lemma kept_trans (w1 w2 w3 : World) : kept w1 w2 -> kept w2 w3 -> kept w1 w3.
Proof.
  unfold kept, other_mappings_kept. intros [E1 [M1 U1]] [E2 [M2 U2]].
  split; [congruence|]. split; [|auto].
  intros repo' n' Hne. rewrite (M2 _ _ Hne). apply M1, Hne.
Qed.

Lemma kept_call (w : World) (call : ForgeCall) :
  kept w {| db := db w; calls := (calls w ++ [call])%list; ticks := ticks w |}.
Proof. unfold kept, other_mappings_kept. auto. Qed.

Lemma kept_tick (w : World) :
  kept w {| db := db w; calls := calls w; ticks := S (ticks w) |}.
Proof. unfold kept, other_mappings_kept. auto. Qed.

Lemma kept_touch (now : string) : preserves kept (touch_comment now repo n).
Proof.
  intros w. unfold kept, other_mappings_kept, mapping, unique_mappings.
  cbn [touch_comment bind get_db put_db snd db events relay_status_comment].
  split; [reflexivity|]. split.
  - intros repo' n' Hne. apply find_unbumped.
    + intros r. destruct (same_issue repo n r); reflexivity.
    + intros r Hr. destruct (same_issue repo n r) eqn:Hs; [|reflexivity].
      rewrite (same_issue_other _ _ _ _ _ Hne Hs) in Hr. discriminate.
  - rewrite map_map. intros Hnd.
    erewrite map_ext; [exact Hnd|].
    intros r. destruct (same_issue repo n r); reflexivity.
Qed.

Lemma kept_replace (commentId now : string) :
  preserves kept (replace_comment repo n commentId now).
Proof.
  intros w. unfold kept, other_mappings_kept, mapping, unique_mappings.
  cbn [replace_comment bind get_db put_db snd db events relay_status_comment].
  split; [reflexivity|]. split.
  - intros repo' n' Hne.
    rewrite find_snoc_miss.
    + apply find_filtered. intros r Hr.
      destruct (same_issue repo n r) eqn:Hs; [|reflexivity].
      rewrite (same_issue_other _ _ _ _ _ Hne Hs) in Hr. discriminate.
    + apply (same_issue_other repo repo' n n' _ Hne).
      unfold same_issue. cbn. rewrite String.eqb_refl, Z.eqb_refl. reflexivity.
  - intros Hnd. rewrite map_app. apply NoDup_snoc.
    + clear - Hnd. induction (relay_status_comment (db w)) as [|r rows IH]; [constructor|].
      cbn [map] in Hnd. inversion Hnd as [|? ? Hnot Hrest]; subst.
      cbn [filter]. destruct (negb (same_issue repo n r)); [|apply IH, Hrest].
      cbn [map]. constructor; [|apply IH, Hrest].
      intros Hin. apply Hnot. apply in_map_iff in Hin. destruct Hin as [r' [Hk Hr']].
      apply filter_In in Hr'. apply in_map_iff. exists r'. split; [exact Hk | apply Hr'].
    + cbn [map mapping_key map_repo map_issue_number]. intros Hin.
      apply in_map_iff in Hin. destruct Hin as [r [Hk Hr]].
      apply filter_In in Hr. destruct Hr as [_ Hr].
      change (mapping_key r = (repo, n)) in Hk.
      apply same_issue_key in Hk. rewrite Hk in Hr. discriminate.
Qed.

Lemma kept_upsertRollingComment (t : value) (body : string) :
  preserves kept (upsertRollingComment t repo n body).
Proof.
  assert (Hret : forall A (a : A), preserves kept (ret a))
    by (intros; apply preserves_ret, kept_refl).
  assert (Hlift : forall A (o : outcome A), preserves kept (lift o))
    by (intros A o w; apply kept_refl).
  assert (Hnow : preserves kept nowIso) by (intros w; apply kept_tick).
  assert (Hupdate : forall id_, preserves kept (updateIssueComment t repo id_ body))
    by (intros; apply preserves_updateIssueComment;
        [apply kept_refl | apply kept_trans | apply kept_call]).
  assert (Hrecord : forall commentId,
            preserves kept (bind nowIso (fun now =>
              bind (replace_comment repo n commentId now) (fun _ => ret commentId)))).
  { intros. apply preserves_bind; [apply kept_trans | exact Hnow|].
    intros now. apply preserves_bind; [apply kept_trans | apply kept_replace|].
    intros _. apply Hret. }
  unfold upsertRollingComment.
  apply preserves_bind; [apply kept_trans | |].
  - unfold upsert_mapped.
    apply preserves_bind; [apply kept_trans | intros w; apply kept_refl|].
    intros [row|]; [|apply Hret].
    destruct (negb (map_comment_id row =? "")%string); [|apply Hret].
    apply preserves_try_catch; [apply kept_trans | | intros; apply Hret].
    apply preserves_bind; [apply kept_trans | apply Hupdate|].
    intros _. apply preserves_bind; [apply kept_trans | exact Hnow|].
    intros now. apply preserves_bind; [apply kept_trans | apply kept_touch|].
    intros _. apply Hret.
  - intros [commentId|]; [apply Hret|].
    unfold upsert_scan.
    apply preserves_bind; [apply kept_trans | |].
    { apply preserves_scan_comments; [apply kept_refl | apply kept_trans | apply kept_call]. }
    intros found. destruct (Js.truthy (Js.opt_member found "id")).
    + apply preserves_bind; [apply kept_trans | apply Hupdate|].
      intros _. apply Hrecord.
    + unfold upsert_create.
      apply preserves_bind; [apply kept_trans | |].
      { apply preserves_createIssueComment;
          [apply kept_refl | apply kept_trans | apply kept_call]. }
      intros created. apply preserves_bind; [apply kept_trans | apply Hlift|].
      intros id_. apply Hrecord.
Qed.

End Mappings.

(** *** The upsert of one issue leaves the others alone *)

(** Whatever the forge answers, an upsert of the rolling comment of one
    issue does not touch table [events], leaves the mapping row of every
    other issue as it is, and keeps the primary key of the mapping table:
    if no two rows had the same [(repo, issue_number)] before, none have
    after. *)
Theorem upsert_keeps_other_mappings
        (t : value) (repo : string) (n : Z) (body : string) (w : World) :
  other_mappings_kept repo n w (snd (upsertRollingComment t repo n body w)).
Proof. apply kept_upsertRollingComment. Qed.

Lemma ensures_bind {A B} (Q : B -> World -> Prop) (c : M A) (k : A -> M B) :
  (forall a, ensures Q (k a)) -> ensures Q (bind c k).
Proof.
  intros Hk w b w'. unfold bind.
  destruct (c w) as [[a|e] w1]; [apply Hk | discriminate].
Qed.

(** The end of tiers 2 and 3 maps the issue to the comment. *)
Lemma record_maps (repo : string) (n : Z) (commentId : string) :
  ensures (mapped_to repo n)
          (bind nowIso (fun now =>
             bind (replace_comment repo n commentId now) (fun _ => ret commentId))).
Proof.
  intros w a w' H.
  cbn [bind nowIso replace_comment get_db put_db ret] in H. injection H as <- <-.
  unfold mapped_to, mapping. cbn [db relay_status_comment].
  eexists. split.
  - apply find_app_new; [apply find_filtered_out|].
    unfold same_issue. cbn. rewrite String.eqb_refl, Z.eqb_refl. reflexivity.
  - reflexivity.
Qed.

Lemma upsert_scan_maps (t : value) (repo : string) (n : Z) (body : string) :
  ensures (mapped_to repo n) (upsert_scan t repo n body).
Proof.
  unfold upsert_scan. apply ensures_bind. intros found.
  destruct (Js.truthy (Js.opt_member found "id")).
  - apply ensures_bind. intros _. apply record_maps.
  - unfold upsert_create. apply ensures_bind. intros created.
    apply ensures_bind. intros id_. apply record_maps.
Qed.

Lemma same_db_updateIssueComment (t : value) (repo id_ body : string) :
  preserves same_db (updateIssueComment t repo id_ body).
Proof.
  apply preserves_updateIssueComment; unfold same_db; intros; simpl; congruence.
Qed.

Lemma same_issue_bumped (repo : string) (n : Z) (now : string) (r : CommentRow) :
  same_issue repo n (if same_issue repo n r
                     then {| map_repo := map_repo r;
                             map_issue_number := map_issue_number r;
                             map_comment_id := map_comment_id r;
                             map_updated_at := now |}
                     else r)
  = same_issue repo n r.
Proof. destruct (same_issue repo n r) eqn:Hs; exact Hs. Qed.

Lemma upsert_mapped_maps (t : value) (repo : string) (n : Z) (body : string) :
  ensures (fun r w' => forall commentId, r = Some commentId -> mapped_to repo n commentId w')
          (upsert_mapped t repo n body).
Proof.
  intros w r w'. unfold upsert_mapped. rewrite bind_run.
  change (select_comment repo n w) with (Return (mapping repo n w), w).
  destruct (mapping repo n w) as [row|] eqn:Hrow.
  2:{ intros H. injection H as <- <-. discriminate. }
  destruct (negb (map_comment_id row =? "")%string).
  2:{ intros H. injection H as <- <-. discriminate. }
  unfold try_catch. rewrite bind_run.
  pose proof (same_db_updateIssueComment t repo (map_comment_id row) body w) as Hdb.
  destruct (updateIssueComment t repo (map_comment_id row) body w) as [[v|e] wa];
    cbn [snd] in Hdb; unfold same_db in Hdb.
  2:{ intros H. injection H as <- <-. discriminate. }
  cbn [bind nowIso touch_comment get_db put_db ret].
  intros H. injection H as <- <-. intros commentId Hid. injection Hid as <-.
  unfold mapped_to, mapping. cbn [db relay_status_comment]. rewrite Hdb.
  rewrite find_bumped by (intros r; apply same_issue_bumped).
  unfold mapping in Hrow. rewrite Hrow. cbn [option_map].
  eexists. split; [reflexivity|].
  destruct (same_issue repo n row); reflexivity.
Qed.

Lemma upsert_maps (t : value) (repo : string) (n : Z) (body : string) :
  ensures (mapped_to repo n) (upsertRollingComment t repo n body).
Proof.
  intros w commentId w'. unfold upsertRollingComment. rewrite bind_run.
  pose proof (upsert_mapped_maps t repo n body w) as H1.
  destruct (upsert_mapped t repo n body w) as [[[id1|]|e] w1]; [| |discriminate].
  - intros H. injection H as <- <-. apply (H1 _ _ eq_refl). reflexivity.
  - apply upsert_scan_maps.
Qed.

(** *** The comment an upsert returns is the comment the issue is mapped to *)

(** Whenever the upsert of the rolling comment returns a comment id,
    whichever tier it came from, the mapping table maps the issue to that
    id afterwards. *)
Theorem upsert_records_the_comment_it_returns
        (t : value) (repo : string) (n : Z) (body : string) (w w' : World)
        (commentId : string) :
  upsertRollingComment t repo n body w = (Return commentId, w') ->
  mapped_to repo n commentId w'.
Proof. apply upsert_maps. Qed.

(** *** The rolling comment stays the same comment *)

(** After an upsert that returned a comment id, the next upsert for the
    same issue, with whatever body, goes to that very comment: when the
    forge accepts the update, the only forge call is that update, nothing
    is listed or created, and the same id is returned. *)
Theorem next_upsert_updates_the_same_comment
        (t : value) (repo : string) (n : Z) (body body' : string) (w w' : World)
        (commentId : string) :
  upsertRollingComment t repo n body w = (Return commentId, w') ->
  commentId <> "" ->
  update_succeeds (calls w') repo commentId body' ->
  fst (upsertRollingComment t repo n body' w') = Return commentId
  /\ calls (snd (upsertRollingComment t repo n body' w'))
     = (calls w' ++ [UpdateComment repo commentId body'])%list
  /\ mapped_to repo n commentId (snd (upsertRollingComment t repo n body' w')).
Proof.
  intros Hfirst Hid Hok.
  destruct (upsert_maps t repo n body w commentId w' Hfirst) as [row [Hrow Hrid]].
  subst commentId.
  pose proof (upsert_mapped_hit t repo n body' w' row Hrow Hid Hok) as Hhit.
  pose proof (upsert_first_tier _ _ _ _ _ _ _ Hhit) as Hrun. cbv iota in Hrun.
  split; [rewrite Hrun; reflexivity|]. split; [rewrite Hrun; reflexivity|].
  apply (upsert_maps t repo n body' w'). rewrite Hrun. reflexivity.
Qed.

(** ** Label transitions, applied again *)

Lemma existsb_same_value_zero (x : string) (s : list value) :
  existsb (same_value_zero (JStr x)) s = true <-> In (JStr x) s.
Proof.
  rewrite existsb_exists. split.
  - intros [y [Hy Heq]]. apply same_value_zero_string_l in Heq. subst. exact Hy.
  - intros Hin. exists (JStr x). split; [exact Hin|].
    apply same_value_zero_string_l. reflexivity.
Qed.

Lemma set_add_fresh (s : list value) (x : value) :
  is_string x -> ~ In x s -> set_add s x = (s ++ [x])%list.
Proof.
  intros [sx ->] Hnot. unfold set_add.
  destruct (existsb (same_value_zero (JStr sx)) s) eqn:Hex; [|reflexivity].
  apply existsb_same_value_zero in Hex. contradiction.
Qed.

Lemma set_add_known (s : list value) (x : value) :
  is_string x -> In x s -> set_add s x = s.
Proof.
  intros [sx ->] Hin. unfold set_add.
  apply existsb_same_value_zero in Hin. rewrite Hin. reflexivity.
Qed.

Lemma in_strings_dec (x : value) (s : list value) : is_string x -> In x s \/ ~ In x s.
Proof.
  intros [sx ->].
  destruct (existsb (same_value_zero (JStr sx)) s) eqn:Hex.
  - left. apply existsb_same_value_zero, Hex.
  - right. intros Hin. apply existsb_same_value_zero in Hin. congruence.
Qed.

Lemma fold_set_add_fresh (l acc : list value) :
  Forall is_string l -> NoDup (acc ++ l)%list -> fold_left set_add l acc = (acc ++ l)%list.
Proof.
  intros Hl. revert acc. induction Hl as [|x l Hx _ IH]; intros acc Hnd.
  - cbn. symmetry. apply app_nil_r.
  - cbn [fold_left].
    assert (Hnot : ~ In x acc).
    { apply NoDup_remove_2 in Hnd. intros Hin. apply Hnd, in_or_app. left. exact Hin. }
    rewrite (set_add_fresh acc x Hx Hnot), IH; rewrite <- app_assoc; [reflexivity|exact Hnd].
Qed.

Lemma fold_set_add_extends (l acc : list value) :
  Forall is_string l ->
  exists extra,
    fold_left set_add l acc = (acc ++ extra)%list
    /\ forall v, In v extra -> In v l /\ ~ In v acc.
Proof.
  intros Hl. revert acc. induction Hl as [|x l Hx _ IH]; intros acc.
  - exists []. split; [cbn; symmetry; apply app_nil_r | intros v []].
  - cbn [fold_left]. destruct (in_strings_dec x acc Hx) as [Hin | Hnot].
    + rewrite (set_add_known acc x Hx Hin).
      destruct (IH acc) as [extra [Hfold Hextra]].
      exists extra. split; [exact Hfold|].
      intros v Hv. destruct (Hextra v Hv) as [H1 H2]. split; [right; exact H1 | exact H2].
    + rewrite (set_add_fresh acc x Hx Hnot).
      destruct (IH (acc ++ [x])%list) as [extra [Hfold Hextra]].
      exists (x :: extra). split; [rewrite Hfold, <- app_assoc; reflexivity|].
      intros v [<- | Hv]; [split; [left; reflexivity | exact Hnot]|].
      destruct (Hextra v Hv) as [H1 H2]. split; [right; exact H1|].
      intros Hin. apply H2, in_or_app. left. exact Hin.
Qed.

Lemma set_delete_absent (s : list value) (x : value) :
  is_string x -> ~ In x s -> set_delete s x = s.
Proof.
  intros [sx ->] Hnot. unfold set_delete.
  induction s as [|y s IH]; [reflexivity|].
  cbn [filter]. destruct (same_value_zero y (JStr sx)) eqn:Heq.
  - apply same_value_zero_string_r in Heq. subst y. exfalso. apply Hnot. left. reflexivity.
  - cbn [negb]. rewrite IH; [reflexivity|]. intros Hin. apply Hnot. right. exact Hin.
Qed.

Lemma fold_set_delete_split (remove kept extra : list value) :
  Forall is_string remove ->
  (forall v, In v kept -> ~ In v remove) ->
  (forall v, In v extra -> In v remove) ->
  fold_left set_delete remove (kept ++ extra)%list = kept.
Proof.
  intros Hr. revert extra. induction Hr as [|x remove Hx _ IH]; intros extra Hkept Hextra.
  - destruct extra as [|v extra]; [cbn; apply app_nil_r|].
    destruct (Hextra v (or_introl eq_refl)).
  - cbn [fold_left]. unfold set_delete at 2. rewrite filter_app.
    fold (set_delete kept x). fold (set_delete extra x).
    rewrite (set_delete_absent kept x Hx)
      by (intros Hin; apply (Hkept x Hin); left; reflexivity).
    apply IH.
    + intros v Hin Hrem. apply (Hkept v Hin). right. exact Hrem.
    + intros v Hin. apply (set_delete_in extra x v Hx) in Hin. destruct Hin as [Hin Hne].
      destruct (Hextra v Hin) as [<- | Hrem]; [contradiction | exact Hrem].
Qed.

Lemma next_labels_again (current add remove : list value) :
  Forall is_string current -> Forall is_string add -> Forall is_string remove ->
  next_labels (next_labels current add remove) add remove = next_labels current add remove.
Proof.
  intros Hc Ha Hr.
  destruct (next_labels_spec current add remove Hc Ha Hr) as [Hnd Hin].
  set (next := next_labels current add remove) in *.
  assert (Hs : Forall is_string next).
  { apply Forall_forall. intros v Hv. apply Hin in Hv. destruct Hv as [[Hv | Hv] _].
    - rewrite Forall_forall in Hc. apply Hc, Hv.
    - rewrite Forall_forall in Ha. apply Ha, Hv. }
  unfold next_labels at 1.
  rewrite (fold_set_add_fresh next [] Hs Hnd). cbn [app].
  destruct (fold_set_add_extends add next Ha) as [extra [Hfold Hextra]].
  rewrite Hfold. apply fold_set_delete_split; [exact Hr | |].
  - intros v Hv. apply Hin in Hv. apply Hv.
  - intros v Hv. destruct (Hextra v Hv) as [Hadd Hnot].
    assert (Hstr : is_string v) by (rewrite Forall_forall in Ha; apply Ha, Hadd).
    destruct (in_strings_dec v remove Hstr) as [Hrem | Hrem]; [exact Hrem|].
    exfalso. apply Hnot, Hin. split; [right; exact Hadd | exact Hrem].
Qed.

(** *** Applying a label rule twice *)

(** A label transition is idempotent: for labels that are strings, when
    the labels of the issue are already what the rule left, applying the
    same rule again computes the very same list, in the same order. *)
Theorem label_transition_is_idempotent (current add remove : list value) :
  Forall is_string current -> Forall is_string add -> Forall is_string remove ->
  next_labels (next_labels current add remove) add remove = next_labels current add remove.
Proof. apply next_labels_again. Qed.

(** ** The queries on the event store *)

Lemma ascii_compare_refl (a : ascii) : Ascii.compare a a = Eq.
Proof. unfold Ascii.compare. apply N.compare_refl. Qed.

Lemma ascii_compare_lt_trans (a b c : ascii) :
  Ascii.compare a b = Lt -> Ascii.compare b c = Lt -> Ascii.compare a c = Lt.
Proof.
  unfold Ascii.compare. rewrite !N.compare_lt_iff. apply N.lt_trans.
Qed.

Lemma string_leb_trans (a b c : string) :
  String.leb a b = true -> String.leb b c = true -> String.leb a c = true.
Proof.
  unfold String.leb. revert b c.
  induction a as [|x a IH]; intros b c Hab Hbc.
  - destruct c; reflexivity.
  - destruct b as [|y b]; [discriminate|].
    destruct c as [|z c]; [discriminate|].
    cbn [String.compare] in *.
    destruct (Ascii.compare x y) eqn:Hxy; try discriminate;
      destruct (Ascii.compare y z) eqn:Hyz; try discriminate.
    + apply Ascii.compare_eq_iff in Hxy, Hyz. subst. rewrite ascii_compare_refl.
      apply (IH b c); assumption.
    + apply Ascii.compare_eq_iff in Hxy. subst. rewrite Hyz. reflexivity.
    + apply Ascii.compare_eq_iff in Hyz. subst. rewrite Hxy. reflexivity.
    + rewrite (ascii_compare_lt_trans _ _ _ Hxy Hyz). reflexivity.
Qed.

Lemma insert_desc_in (r : EventRow) (sorted : list EventRow) (y : EventRow) :
  In y (insert_desc r sorted) <-> y = r \/ In y sorted.
Proof.
  induction sorted as [|x rest IH]; cbn [insert_desc].
  - cbn. split; [intros [<- | []]; left; reflexivity | intros [-> | []]; left; reflexivity].
  - destruct (String.leb (row_created_at x) (row_created_at r)).
    + cbn [In]. split; [intros [<- | H]; auto | intros [-> | H]; auto].
    + cbn [In]. rewrite IH. split.
      * intros [<- | [-> | H]]; auto.
      * intros [-> | [<- | H]]; auto.
Qed.

Lemma insert_desc_length (r : EventRow) (sorted : list EventRow) :
  List.length (insert_desc r sorted) = S (List.length sorted).
Proof.
  induction sorted as [|x rest IH]; [reflexivity|].
  cbn [insert_desc]. destruct (String.leb (row_created_at x) (row_created_at r)).
  - reflexivity.
  - cbn [List.length]. rewrite IH. reflexivity.
Qed.

Lemma insert_desc_sorted (r : EventRow) (sorted : list EventRow) :
  newest_first sorted -> newest_first (insert_desc r sorted).
Proof.
  induction sorted as [|x rest IH]; intros Hs.
  - cbn. split; [intros y [] | exact I].
  - cbn [insert_desc]. destruct Hs as [Hx Hrest].
    destruct (String.leb (row_created_at x) (row_created_at r)) eqn:Hle.
    + split; [|split; assumption].
      intros y [<- | Hy]; [exact Hle|].
      apply (string_leb_trans _ (row_created_at x)); [apply Hx, Hy | exact Hle].
    + split; [|apply IH, Hrest].
      intros y Hy. apply insert_desc_in in Hy. destruct Hy as [-> | Hy]; [|apply Hx, Hy].
      destruct (String.leb_total (row_created_at r) (row_created_at x)) as [H | H];
        [exact H | congruence].
Qed.

Lemma order_desc_spec (rows : list EventRow) :
  newest_first (order_desc rows)
  /\ (forall y, In y (order_desc rows) <-> In y rows)
  /\ List.length (order_desc rows) = List.length rows.
Proof.
  unfold order_desc.
  assert (H : forall acc,
            newest_first acc ->
            newest_first (fold_left (fun acc r => insert_desc r acc) rows acc)
            /\ (forall y, In y (fold_left (fun acc r => insert_desc r acc) rows acc)
                          <-> In y acc \/ In y rows)
            /\ List.length (fold_left (fun acc r => insert_desc r acc) rows acc)
               = (List.length acc + List.length rows)%nat).
  { induction rows as [|r rows IH]; intros acc Hacc; cbn [fold_left].
    - split; [exact Hacc|]. split; [|cbn; lia].
      intros y. split; [auto | intros [H | []]; exact H].
    - destruct (IH (insert_desc r acc) (insert_desc_sorted r acc Hacc)) as [Hs [Hin Hlen]].
      split; [exact Hs|]. split.
      + intros y. rewrite Hin, insert_desc_in. cbn [In]. split.
        * intros [[-> | H] | H]; auto.
        * intros [H | [<- | H]]; auto.
      + rewrite Hlen, insert_desc_length. cbn [List.length]. lia. }
  destruct (H [] I) as [Hs [Hin Hlen]].
  split; [exact Hs|]. split; [|exact Hlen].
  intros y. rewrite Hin. split; [intros [[] | Hy]; exact Hy | auto].
Qed.

(** *** The latest event of a type *)

(** The latest-event query does not change anything, and what it returns
    is the newest event of that type on the issue: a stored row of the
    issue and the type such that no other such row has a later
    [created_at]; it returns none only when the issue has no event of the
    type. *)
Theorem latest_event_is_the_newest
        (repo : string) (n : Z) (eventType : string) (w : World) :
  let matches r := on_issue repo n r && (row_event_type r =? eventType)%string in
  snd (getLatestEventByType repo n eventType w) = w
  /\ exists latest,
       fst (getLatestEventByType repo n eventType w) = Return latest
       /\ match latest with
          | Some r =>
              In r (events (db w)) /\ matches r = true
              /\ forall r', In r' (events (db w)) -> matches r' = true ->
                            String.leb (row_created_at r') (row_created_at r) = true
          | None => forall r', In r' (events (db w)) -> matches r' = false
          end.
Proof.
  intros matches. split; [reflexivity|].
  eexists. split; [reflexivity|].
  fold matches.
  destruct (order_desc_spec (filter matches (events (db w)))) as [Hs [Hin Hlen]].
  destruct (order_desc (filter matches (events (db w)))) as [|r rest] eqn:Hord; cbn [hd_error].
  - intros r' Hr'. destruct (matches r') eqn:Hm; [|reflexivity].
    exfalso. apply (proj2 (Hin r')). apply filter_In. split; assumption.
  - assert (Hr : In r (filter matches (events (db w)))) by (apply Hin; left; reflexivity).
    apply filter_In in Hr. destruct Hr as [Hr Hm].
    split; [exact Hr|]. split; [exact Hm|].
    intros r' Hr' Hm'.
    assert (Hin' : In r' (r :: rest)) by (apply Hin, filter_In; split; assumption).
    destruct Hin' as [<- | Hin'].
    + destruct (String.leb_total (row_created_at r) (row_created_at r)); assumption.
    + destruct Hs as [Hs _]. apply Hs, Hin'.
Qed.

Lemma newest_first_app (l1 l2 : list EventRow) :
  newest_first (l1 ++ l2) -> newest_first l1.
Proof.
  induction l1 as [|x l1 IH]; [intros; exact I|].
  cbn [app newest_first]. intros [Hx Hrest]. split; [|apply IH, Hrest].
  intros y Hy. apply Hx, in_or_app. left. exact Hy.
Qed.

(** *** The recent events *)

(** The recent-activity query does not change anything, and it returns
    the newest events of the issue, newest first, [limit] of them or all
    when there are fewer: the stored rows of the issue can be put in
    descending order of [created_at] so that the answer is the first
    [limit] of them. *)
Theorem recent_events_are_the_newest
        (repo : string) (n : Z) (limit : nat) (w : World) :
  let mine := filter (on_issue repo n) (events (db w)) in
  snd (getRecentEvents repo n limit w) = w
  /\ exists shown rest,
       fst (getRecentEvents repo n limit w) = Return (map recent_of shown)
       /\ List.length shown = Nat.min limit (List.length mine)
       /\ List.length (shown ++ rest) = List.length mine
       /\ (forall r, In r (shown ++ rest)
                     <-> In r (events (db w)) /\ on_issue repo n r = true)
       /\ newest_first (shown ++ rest).
Proof.
  intros mine. split; [reflexivity|].
  destruct (order_desc_spec mine) as [Hs [Hin Hlen]].
  exists (firstn limit (order_desc mine)), (skipn limit (order_desc mine)).
  rewrite firstn_skipn.
  split; [reflexivity|]. split; [rewrite length_firstn, Hlen; reflexivity|].
  split; [exact Hlen|]. split; [|exact Hs].
  intros r. rewrite Hin. unfold mine. apply filter_In.
Qed.

(** ** The marker, written and found *)

Lemma prefix_append (p r : string) : String.prefix p (p ++ r) = true.
Proof.
  induction p as [|c p IH]; [destruct r; reflexivity|].
  cbn [append String.prefix]. destruct (ascii_dec c c) as [_ | Hne]; [exact IH|].
  exfalso. apply Hne. reflexivity.
Qed.

Lemma includes_prefix (p r : string) : Js.includes (p ++ r) p = true.
Proof.
  destruct (p ++ r) as [|c s] eqn:Hs.
  - cbn [Js.includes]. rewrite <- Hs, prefix_append. reflexivity.
  - cbn [Js.includes]. rewrite <- Hs, prefix_append. reflexivity.
Qed.

Lemma rendered_body_carries_marker (input : RenderInput) (body : string) (c : value) :
  renderRelayStatusMarkdown input = Return body ->
  Js.prop c "body" = JStr body ->
  carries_marker c = true.
Proof.
  intros Hrender Hbody.
  destruct (render_begins_with_marker input body Hrender) as [rest ->].
  unfold carries_marker. rewrite Hbody. apply includes_prefix.
Qed.

Lemma has_marker_present (c : value) :
  Js.nullish c = false -> has_marker c = Return (carries_marker c).
Proof.
  intros Hc. unfold has_marker, carries_marker.
  assert (Hmem : Js.member c "body" = Return (Js.prop c "body"))
    by (destruct c; try discriminate; reflexivity).
  rewrite Hmem. reflexivity.
Qed.

Lemma find_marker_finds (before : list value) (c : value) (rest : list value) :
  Forall (fun x => Js.nullish x = false) before ->
  Js.nullish c = false ->
  carries_marker c = true ->
  exists found,
    find_marker (before ++ c :: rest) = Return found
    /\ carries_marker found = true
    /\ In found (before ++ [c]).
Proof.
  intros Hbefore Hc Hm. induction Hbefore as [|x before Hx _ IH].
  - exists c. cbn [app find_marker]. rewrite (has_marker_present c Hc), Hm.
    split; [reflexivity|]. split; [reflexivity | left; reflexivity].
  - cbn [app find_marker]. rewrite (has_marker_present x Hx). cbn [obind].
    destruct (carries_marker x) eqn:Hmx.
    + exists x. split; [reflexivity|]. split; [exact Hmx | left; reflexivity].
    + destruct IH as [found [Hfind [Hfm Hin]]].
      exists found. split; [exact Hfind|]. split; [exact Hfm | right; exact Hin].
Qed.

(** *** The relay finds the comment it wrote *)

(** What the renderer writes is what the marker scan looks for: in a page
    of comments in which a comment has a rendered body as its body, the
    scan finds a comment with the marker, that one or an earlier one
    (given that the comments up to it are objects). *)
Theorem the_scan_finds_a_rendered_comment
        (input : RenderInput) (body : string) (before : list value) (c : value)
        (rest : list value) :
  renderRelayStatusMarkdown input = Return body ->
  Js.prop c "body" = JStr body ->
  Forall (fun x => Js.nullish x = false) (before ++ [c]) ->
  exists found,
    find_marker (before ++ c :: rest) = Return found
    /\ carries_marker found = true
    /\ In found (before ++ [c]).
Proof.
  intros Hrender Hbody Hall. apply Forall_app in Hall. destruct Hall as [Hbefore Hc].
  inversion Hc as [|? ? Hc' _]; subst.
  apply find_marker_finds; [exact Hbefore | exact Hc'|].
  eapply rendered_body_carries_marker; eassumption.
Qed.

(** ** The text of the rolling comment *)








End Relay.

(* ------------------------------------------------------------------ *)
(** * The renderer has no hidden input                                  *)
(* ------------------------------------------------------------------ *)


(* ------------------------------------------------------------------ *)
(** * The directive endpoints of [src/index.ts]                         *)
(* ------------------------------------------------------------------ *)

(** The endpoints [/health], [/directive], [/comment], [/close] and
    [/labels]: they talk to the forge with the configured personal token,
    keep no state of their own and answer through [jsonResponse], which
    adds the CORS origin. *)

(** ** Computations over a state *)

(** An [async] function over a state [S]; [M] is the instance at [World]. *)
Definition St (S A : Type) : Type := S -> outcome A * S.

Definition st_ret {S A} (a : A) : St S A := fun s => (Return a, s).

Definition st_throw {S A} (e : exn) : St S A := fun s => (Throw e, s).

Definition st_bind {S A B} (c : St S A) (k : A -> St S B) : St S B :=
  fun s =>
    match c s with
    | (Return a, s') => k a s'
    | (Throw e, s') => (Throw e, s')
    end.

(** [try { c } catch (error) { h error }]. *)
Definition st_try {S A} (c : St S A) (h : exn -> St S A) : St S A :=
  fun s =>
    match c s with
    | (Return a, s') => (Return a, s')
    | (Throw e, s') => h e s'
    end.

Definition st_lift {S A} (o : outcome A) : St S A := fun s => (o, s).

Declare Scope st_scope.
Delimit Scope st_scope with st.
Notation "x <- c ;; k" := (st_bind c (fun x => k))
  (at level 61, c at next level, right associativity) : st_scope.
Notation "c ;;; k" := (st_bind c (fun _ => k))
  (at level 61, right associativity) : st_scope.
Notation "x <~ c ;; k" := (obind c (fun x => k))
  (at level 61, c at next level, right associativity) : st_scope.
Open Scope st_scope.

(** ** More of JavaScript *)

Definition upper_char (c : ascii) : ascii :=
  let n := nat_of_ascii c in
  if (97 <=? n)%nat && (n <=? 122)%nat then ascii_of_nat (n - 32) else c.

Fixpoint toUpperCase (s : string) : string :=
  match s with
  | EmptyString => EmptyString
  | String c r => String (upper_char c) (toUpperCase r)
  end.

(** [for (const x of v)]: the elements of an array, the characters of a
    string; nothing else that JSON holds is iterable. *)
Definition for_of (v : value) : outcome (list value) :=
  match v with
  | JArr xs => Return xs
  | JStr s => Return (chars s)
  | _ => Throw (TypeError "is not iterable")
  end.

(** [error.message] of what was thrown. *)
Definition exn_message (err : exn) : string :=
  match err with
  | TypeError what => what
  | SyntaxError what => what
  | Error message => message
  end.

(** [s.replace(/x/g, "")] for a character [x]. *)
Fixpoint without_char (x : ascii) (s : string) : string :=
  match s with
  | EmptyString => EmptyString
  | String c r => if Ascii.eqb c x then without_char x r else String c (without_char x r)
  end.

(** A multi-line literal: its lines joined with ["\n"]. *)
Definition text_of (lines : list string) : string := String.concat LF lines.

(** ** Types of the directive endpoints *)

(** The bindings of [Env] that the directive endpoints read. *)
Record DirectiveEnv : Type := {
  GITHUB_TOKEN : string;
  RELAY_TOKEN : string;
  GITHUB_OWNER : string;
  GITHUB_REPO : string
}.

(** The inbound request, as far as these endpoints read it: the method,
    the headers [Authorization] and [Origin], and the body text. *)
Record HttpRequest : Type := {
  req_method : string;
  req_authorization : option string;
  req_origin : option string;
  req_text : string
}.

(** The requests these endpoints send to [api.github.com]: the texts put
    into the URL, and the members of the JSON body. *)
Inductive GitHubCall : Type :=
| CreateIssue (repo : string) (title body labels assignees : value)
| AddComment (repo issue : string) (body : value)
| CloseIssue (repo issue : string)
| AddLabels (repo issue : string) (labels : value)
| RemoveLabel (repo issue label : string)
| GetLabels (repo issue : string).

(** What an endpoint runs in: the calls made so far and the clock. *)
Record Hub : Type := {
  hub_calls : list GitHubCall;
  hub_ticks : nat
}.

(** An answer built by [jsonResponse]: status, data and the value of
    [Access-Control-Allow-Origin]. *)
Record CorsResponse : Type := {
  cors_status : Z;
  cors_data : value;
  cors_allow_origin : string
}.

Definition ALLOWED_ORIGINS : list string :=
  [ "https://app.durganfieldguide.com";
    "https://durganfieldguide.com";
    "http://localhost:3000" ].

(** [ALLOWED_ORIGINS[0]]. *)
Definition default_origin : string := hd "" ALLOWED_ORIGINS.

Definition getCorsOrigin (request : HttpRequest) : string :=
  match req_origin request with
  | Some origin =>
      if negb (origin =? "")%string && Js.one_of ALLOWED_ORIGINS origin
      then origin else default_origin
  | None => default_origin
  end.

(** [jsonResponse]; [currentRequest] is the request being served: the
    endpoints are followed one request at a time. *)
Definition jsonResponse (currentRequest : HttpRequest) (data : value) (st : Z)
  : CorsResponse :=
  {| cors_status := st; cors_data := data; cors_allow_origin := getCorsOrigin currentRequest |}.



(** ** Issue bodies *)

(** [label.match(/^points:(\d+)$/)], then [parseInt(pointsMatch[1], 10)]. *)
Definition points_of (label : string) : option nat :=
  if Js.startsWith label "points:" then
    let digits := String.substring 7 (String.length label - 7) label in
    if (digits =? "")%string then None else digits_value 0 digits
  else None.

(** The loop of [requiresPlanning]: a label that is not a string has no
    [match]. *)
Fixpoint planning_loop (labels : list value) : outcome bool :=
  match labels with
  | [] => Return false
  | label :: rest =>
      if Js.is_str label "prio:P0" then Return true else
      match label with
      | JStr s =>
          match points_of s with
          | Some points => if (3 <=? points)%nat then Return true else planning_loop rest
          | None => planning_loop rest
          end
      | _ => Throw (TypeError "label.match is not a function")
      end
  end.

Definition requiresPlanning (labels : value) : outcome bool :=
  items <~ for_of labels ;;
  planning_loop items.

(** The commands that [getSuggestedCommands] pushes for one label. *)
Definition commands_for (label : value) : list string :=
  if Js.is_str label "component:dfg-relay" then
    [ text_of ["```bash"; "cd workers/dfg-relay"; "npx wrangler deploy"; "```"] ]
  else if Js.is_str label "component:dfg-api" then
    [ text_of ["```bash"; "cd workers/dfg-api"; "npm run test"; "npx tsc --noEmit";
               "npx wrangler deploy"; "```"] ]
  else if Js.is_str label "component:dfg-scout" then
    [ text_of ["```bash"; "cd workers/dfg-scout"; "npm run test"; "npx tsc --noEmit";
               "npx wrangler deploy"; "```"] ]
  else if Js.is_str label "component:dfg-analyst" then
    [ text_of ["```bash"; "cd workers/dfg-analyst"; "npm run test"; "npx tsc --noEmit";
               "npx wrangler deploy"; "```"] ]
  else if Js.is_str label "component:dfg-app" then
    [ text_of ["```bash"; "cd apps/dfg-app"; "npm run lint"; "npm run type-check";
               "npm run build"; "```"] ]
  else [].

Definition getSuggestedCommands (labels : value) : outcome (list string) :=
  items <~ for_of labels ;;
  Return (flat_map commands_for items).

Definition issue_marker : string := "<!-- Crane Relay: Auto-generated issue -->".

Definition planning_section : string :=
  text_of [ ""; ""; "---"; ""; "### Planning Required"; "";
            "⚠️ **This issue requires planning before implementation.**"; "";
            "Run `/project:plan` to create an implementation plan before starting work.";
            ""; "" ].

Definition commands_section (commands : list string) : string :=
  text_of [""; ""; "---"; ""; "### Suggested Commands"; ""; ""]
  ++ String.concat LF commands ++ LF.

(** The header of an issue body. *)
Definition issue_header (to_ created : string) : string :=
  text_of [ issue_marker;
            "**Routed to:** " ++ to_ ++ " Team";
            "**Created:** " ++ created;
            "";
            "---";
            "" ].

Section Directives.

(** [JSON.parse(s)]: [None] when it throws. *)
Variable JSON_parse : string -> option value.

(** [Number(s)] for a string [s], as for the event route. *)
Variable Number_of_string : string -> option Z.

(** [new Date().toISOString()] at the n-th reading of the clock. *)
Variable clock : nat -> string.

(** [api.github.com]: its answer to a call, given the calls it served. *)
Variable github : list GitHubCall -> GitHubCall -> ForgeResponse.

Variable env : DirectiveEnv.

Definition now : St Hub string :=
  fun s => (Return (clock (hub_ticks s)),
            {| hub_calls := hub_calls s; hub_ticks := S (hub_ticks s) |}).

(** [getRepo]: the given repository when its text is a slug, the
    configured one otherwise. *)
Definition getRepo (providedRepo : value) : value :=
  if Js.truthy providedRepo && isRepoSlug (Js.String providedRepo)
  then providedRepo
  else JStr (GITHUB_OWNER env ++ "/" ++ GITHUB_REPO env).

Definition buildIssueBody (payload : value) : St Hub string :=
  to_ <- st_lift match Js.prop payload "to" with
                 | JStr s => Return (toUpperCase s)
                 | _ => Throw (TypeError "payload.to.toUpperCase is not a function")
                 end ;;
  created <- now ;;
  planning <- st_lift (requiresPlanning (Js.prop payload "labels")) ;;
  let planningSection := if planning then planning_section else "" in
  suggestedCommands <- st_lift (getSuggestedCommands (Js.prop payload "labels")) ;;
  let commandsSection :=
    match suggestedCommands with
    | [] => ""
    | _ => commands_section suggestedCommands
    end in
  st_ret (issue_header to_ created ++ Js.String (Js.prop payload "body")
          ++ planningSection ++ commandsSection).

(** ** The forge client of the directive endpoints *)

(** [fetch(url, ...)]: the call is recorded and the forge answers. *)
Definition github_fetch (call : GitHubCall) : St Hub ForgeResponse :=
  fun s => (Return (github (hub_calls s) call),
            {| hub_calls := (hub_calls s ++ [call])%list; hub_ticks := hub_ticks s |}).

(** [throw new Error(`GitHub API ${response.status}: ${errorBody}`)]. *)
Definition github_error {A} (res : ForgeResponse) : St Hub A :=
  st_throw (Error ("GitHub API " ++ Js.Z_to_string (status res) ++ ": " ++ text res)).

Definition response_json (res : ForgeResponse) : St Hub value :=
  match json res with
  | Some v => st_ret v
  | None => st_throw (SyntaxError "Unexpected token in JSON")
  end.

Definition createGitHubIssue (repo : value) (title body labels assignees : value)
  : St Hub value :=
  response <- github_fetch (CreateIssue (Js.String repo) title body labels assignees) ;;
  if negb (res_ok response) then github_error response else response_json response.

Definition createGitHubComment (repo issueNumber body : value) : St Hub unit :=
  response <- github_fetch (AddComment (Js.String repo) (Js.String issueNumber) body) ;;
  if negb (res_ok response) then github_error response else st_ret tt.

Definition closeGitHubIssue (repo issueNumber : value) : St Hub unit :=
  response <- github_fetch (CloseIssue (Js.String repo) (Js.String issueNumber)) ;;
  if negb (res_ok response) then github_error response else st_ret tt.

Definition addGitHubLabels (repo issueNumber labels : value) : St Hub unit :=
  response <- github_fetch (AddLabels (Js.String repo) (Js.String issueNumber) labels) ;;
  if negb (res_ok response) then github_error response else st_ret tt.

Definition removeGitHubLabel (repo issueNumber label : value) : St Hub unit :=
  response <- github_fetch (RemoveLabel (Js.String repo) (Js.String issueNumber)
                                        (Js.String label)) ;;
  if negb (res_ok response) then github_error response else st_ret tt.

(** [issue.labels.map(l => l.name)]. *)
Definition label_names_of (issue : value) : outcome (list value) :=
  labels <~ Js.member issue "labels" ;;
  match labels with
  | JArr ls => map_outcome (fun l => Js.member l "name") ls
  | JUndefined | JNull =>
      Throw (TypeError "Cannot read properties of null or undefined: map")
  | _ => Throw (TypeError "issue.labels.map is not a function")
  end.

Definition getGitHubLabels (repo issueNumber : value) : St Hub (list value) :=
  response <- github_fetch (GetLabels (Js.String repo) (Js.String issueNumber)) ;;
  if negb (res_ok response) then github_error response else
  issue <- response_json response ;;
  st_lift (label_names_of issue).

(** ** The endpoints *)

Definition failure (request : HttpRequest) (message : string) (st : Z) : CorsResponse :=
  jsonResponse request (JObj [("success", JBool false); ("error", JStr message)]) st.

(** The checks that the four endpoints start with: the method, the
    bearer token, the JSON body.  [inl] is the answer that ends the
    request, [inr] the payload. *)
Definition check_request (request : HttpRequest) : CorsResponse + value :=
  if negb (req_method request =? "POST")%string
  then inl (failure request "Method not allowed" 405) else
  match req_authorization request with
  | None => inl (failure request "Unauthorized" 401)
  | Some authHeader =>
      if (authHeader =? "")%string
         || negb (authHeader =? "Bearer " ++ RELAY_TOKEN env)%string
      then inl (failure request "Unauthorized" 401) else
      match JSON_parse (req_text request) with
      | None => inl (failure request "Invalid JSON" 400)
      | Some payload => inr payload
      end
  end.

(** [catch (error) { ... }] of the endpoints. *)
Definition github_failed (request : HttpRequest) (error : exn) : St Hub CorsResponse :=
  st_ret (failure request (exn_message error) 500).


Definition handleDirective (request : HttpRequest) : St Hub CorsResponse :=
  match check_request request with
  | inl answer => st_ret answer
  | inr payload =>
  title <- st_lift (Js.member payload "title") ;;
  if negb (Js.truthy title) || negb (Js.truthy (Js.prop payload "body"))
     || negb (Js.truthy (Js.prop payload "to"))
  then st_ret (failure request "Missing required fields: title, body, to" 400) else
  let repo := getRepo (Js.prop payload "repo") in
  issueBody <- buildIssueBody payload ;;
  st_try
    (issue <- createGitHubIssue repo title (JStr issueBody)
                (Js.or (Js.prop payload "labels") (JArr []))
                (Js.or (Js.prop payload "assignees") (JArr [])) ;;
     number <- st_lift (Js.member issue "number") ;;
     st_ret (jsonResponse request
               (JObj [ ("success", JBool true);
                       ("issue", number);
                       ("url", Js.prop issue "html_url");
                       ("repo", repo) ]) 200))
    (github_failed request)
  end.

Definition handleComment (request : HttpRequest) : St Hub CorsResponse :=
  match check_request request with
  | inl answer => st_ret answer
  | inr payload =>
  issue <- st_lift (Js.member payload "issue") ;;
  if negb (Js.truthy issue) || negb (Js.truthy (Js.prop payload "body"))
  then st_ret (failure request "Missing required fields: issue, body" 400) else
  let repo := getRepo (Js.prop payload "repo") in
  st_try
    (createGitHubComment repo issue (Js.prop payload "body") ;;;
     st_ret (jsonResponse request
               (JObj [("success", JBool true); ("issue", issue); ("repo", repo)]) 200))
    (github_failed request)
  end.

Definition handleClose (request : HttpRequest) : St Hub CorsResponse :=
  match check_request request with
  | inl answer => st_ret answer
  | inr payload =>
  issue <- st_lift (Js.member payload "issue") ;;
  if negb (Js.truthy issue)
  then st_ret (failure request "Missing required field: issue" 400) else
  let repo := getRepo (Js.prop payload "repo") in
  st_try
    ((if Js.truthy (Js.prop payload "comment")
      then createGitHubComment repo issue (Js.prop payload "comment")
      else st_ret tt) ;;;
     closeGitHubIssue repo issue ;;;
     st_ret (jsonResponse request
               (JObj [("success", JBool true); ("issue", issue); ("repo", repo)]) 200))
    (github_failed request)
  end.

(** [ToNumber], for the comparison of a length with 0. *)
Definition to_number (v : value) : option Z :=
  match v with
  | JUndefined => None
  | JNull => Some 0
  | JBool b => Some (if b then 1 else 0)
  | JNum n => Some n
  | JStr s => Number_of_string s
  | JArr _ => Number_of_string (Js.String v)
  | JObj _ => None
  end.

(** [v.length] of a value that is not [null] or [undefined]. *)
Definition length_of (v : value) : value :=
  match v with
  | JArr xs => JNum (Z.of_nat (List.length xs))
  | JStr s => JNum (Z.of_nat (String.length s))
  | JObj fs => Js.assoc "length" fs
  | _ => JUndefined
  end.

(** [v && v.length > 0]. *)
Definition given_and_not_empty (v : value) : bool :=
  Js.truthy v && match to_number (length_of v) with
                 | Some n => 0 <? n
                 | None => false
                 end.

(** [for (const label of labels) await removeGitHubLabel(...)]. *)
Fixpoint remove_each (repo issue : value) (labels : list value) : St Hub unit :=
  match labels with
  | [] => st_ret tt
  | label :: rest => removeGitHubLabel repo issue label ;;; remove_each repo issue rest
  end.

Definition handleLabels (request : HttpRequest) : St Hub CorsResponse :=
  match check_request request with
  | inl answer => st_ret answer
  | inr payload =>
  issue <- st_lift (Js.member payload "issue") ;;
  if negb (Js.truthy issue)
  then st_ret (failure request "Missing required field: issue" 400) else
  if negb (Js.truthy (Js.prop payload "add")) && negb (Js.truthy (Js.prop payload "remove"))
  then st_ret (failure request "Must specify at least one of: add, remove" 400) else
  let repo := getRepo (Js.prop payload "repo") in
  st_try
    ((if given_and_not_empty (Js.prop payload "remove")
      then (labels <- st_lift (for_of (Js.prop payload "remove")) ;;
            remove_each repo issue labels)
      else st_ret tt) ;;;
     (if given_and_not_empty (Js.prop payload "add")
      then addGitHubLabels repo issue (Js.prop payload "add")
      else st_ret tt) ;;;
     labels <- getGitHubLabels repo issue ;;
     st_ret (jsonResponse request
               (JObj [ ("success", JBool true); ("issue", issue); ("repo", repo);
                       ("labels", JArr labels) ]) 200))
    (github_failed request)
  end.


(** ** Notions used by the statements *)

(** The request is a [POST] with the configured bearer token. *)
Definition bearer (request : HttpRequest) : Prop :=
  req_method request = "POST"
  /\ req_authorization request = Some ("Bearer " ++ RELAY_TOKEN env).

(** A label that calls for planning, in the words of the source's
    comment: [prio:P0], or [points:N] with [N] at least 3. *)
Definition calls_for_planning (label : string) : Prop :=
  label = "prio:P0"
  \/ exists digits points,
       label = "points:" ++ digits /\ digits <> ""
       /\ digits_value 0 digits = Some points /\ (3 <= points)%nat.

(** The forge accepts a call: it answers with a 2xx. *)
Definition accepted (history : list GitHubCall) (call : GitHubCall) : Prop :=
  res_ok (github history call) = true.

(** The forge refuses a call: it answers with another status. *)
Definition refused (history : list GitHubCall) (call : GitHubCall) : Prop :=
  res_ok (github history call) = false.


(** The hub after the calls [added]. *)
Definition hub_after (s : Hub) (added : list GitHubCall) : Hub :=
  {| hub_calls := (hub_calls s ++ added)%list; hub_ticks := hub_ticks s |}.

(** The text of the error that a refused call raises. *)
Definition refusal (history : list GitHubCall) (call : GitHubCall) : string :=
  "GitHub API " ++ Js.Z_to_string (status (github history call)) ++ ": "
  ++ text (github history call).


(** ** Properties of the directive endpoints *)

Lemma st_bind_run {S A B} (c : St S A) (k : A -> St S B) (s : S) :
  st_bind c k s = match c s with
                  | (Return a, s') => k a s'
                  | (Throw e, s') => (Throw e, s')
                  end.
Proof. reflexivity. Qed.

Lemma bearer_token_not_empty : ("Bearer " ++ RELAY_TOKEN env =? "")%string = false.
Proof. reflexivity. Qed.


Lemma check_request_bearer (request : HttpRequest) :
  bearer request ->
  check_request request = match JSON_parse (req_text request) with
                          | None => inl (failure request "Invalid JSON" 400)
                          | Some payload => inr payload
                          end.
Proof.
  intros [Hm Ha]. unfold check_request. rewrite Hm, Ha.
  rewrite bearer_token_not_empty, !String.eqb_refl. reflexivity.
Qed.


(** *** Who reaches the forge *)



Lemma member_of_prop (v : value) (k : string) :
  Js.truthy (Js.prop v k) = true -> Js.member v k = Return (Js.prop v k).
Proof. destruct v; try discriminate; reflexivity. Qed.

Lemma hub_after_after (s : Hub) (l1 l2 : list GitHubCall) :
  hub_after (hub_after s l1) l2 = hub_after s (l1 ++ l2).
Proof. unfold hub_after. cbn. rewrite app_assoc. reflexivity. Qed.

Lemma hub_after_nil (s : Hub) : hub_after s [] = s.
Proof. destruct s. unfold hub_after. cbn. rewrite app_nil_r. reflexivity. Qed.

Ltac run_call H :=
  rewrite st_bind_run; unfold github_fetch; rewrite H; reflexivity.

Lemma createGitHubComment_accepted (repo issue body : value) (s : Hub) :
  accepted (hub_calls s) (AddComment (Js.String repo) (Js.String issue) body) ->
  createGitHubComment repo issue body s
  = (Return tt, hub_after s [AddComment (Js.String repo) (Js.String issue) body]).
Proof. unfold accepted, createGitHubComment. intros H. run_call H. Qed.

Lemma createGitHubComment_refused (repo issue body : value) (s : Hub) :
  refused (hub_calls s) (AddComment (Js.String repo) (Js.String issue) body) ->
  createGitHubComment repo issue body s
  = (Throw (Error (refusal (hub_calls s)
                           (AddComment (Js.String repo) (Js.String issue) body))),
     hub_after s [AddComment (Js.String repo) (Js.String issue) body]).
Proof. unfold refused, createGitHubComment. intros H. run_call H. Qed.

Lemma closeGitHubIssue_accepted (repo issue : value) (s : Hub) :
  accepted (hub_calls s) (CloseIssue (Js.String repo) (Js.String issue)) ->
  closeGitHubIssue repo issue s
  = (Return tt, hub_after s [CloseIssue (Js.String repo) (Js.String issue)]).
Proof. unfold accepted, closeGitHubIssue. intros H. run_call H. Qed.

Lemma closeGitHubIssue_refused (repo issue : value) (s : Hub) :
  refused (hub_calls s) (CloseIssue (Js.String repo) (Js.String issue)) ->
  closeGitHubIssue repo issue s
  = (Throw (Error (refusal (hub_calls s) (CloseIssue (Js.String repo) (Js.String issue)))),
     hub_after s [CloseIssue (Js.String repo) (Js.String issue)]).
Proof. unfold refused, closeGitHubIssue. intros H. run_call H. Qed.

Lemma addGitHubLabels_accepted (repo issue labels : value) (s : Hub) :
  accepted (hub_calls s) (AddLabels (Js.String repo) (Js.String issue) labels) ->
  addGitHubLabels repo issue labels s
  = (Return tt, hub_after s [AddLabels (Js.String repo) (Js.String issue) labels]).
Proof. unfold accepted, addGitHubLabels. intros H. run_call H. Qed.

Lemma removeGitHubLabel_accepted (repo issue label : value) (s : Hub) :
  accepted (hub_calls s)
           (RemoveLabel (Js.String repo) (Js.String issue) (Js.String label)) ->
  removeGitHubLabel repo issue label s
  = (Return tt,
     hub_after s [RemoveLabel (Js.String repo) (Js.String issue) (Js.String label)]).
Proof. unfold accepted, removeGitHubLabel. intros H. run_call H. Qed.

Lemma removeGitHubLabel_refused (repo issue label : value) (s : Hub) :
  refused (hub_calls s)
          (RemoveLabel (Js.String repo) (Js.String issue) (Js.String label)) ->
  removeGitHubLabel repo issue label s
  = (Throw (Error (refusal (hub_calls s)
                     (RemoveLabel (Js.String repo) (Js.String issue) (Js.String label)))),
     hub_after s [RemoveLabel (Js.String repo) (Js.String issue) (Js.String label)]).
Proof. unfold refused, removeGitHubLabel. intros H. run_call H. Qed.

(** *** Closing an issue *)

(** [/close] posts the comment, when there is one, before it closes the
    issue, and a refusal ends the request with a 500 that quotes the
    forge: when the comment is refused the issue is not closed, and when
    the closing is refused the comment has been posted all the same. *)
Theorem close_posts_the_comment_first
        (request : HttpRequest) (s : Hub) (payload : value) :
  bearer request ->
  JSON_parse (req_text request) = Some payload ->
  Js.truthy (Js.prop payload "issue") = true ->
  let repo := getRepo (Js.prop payload "repo") in
  let issue := Js.prop payload "issue" in
  let comment :=
    AddComment (Js.String repo) (Js.String issue) (Js.prop payload "comment") in
  let close := CloseIssue (Js.String repo) (Js.String issue) in
  let closed :=
    jsonResponse request
      (JObj [("success", JBool true); ("issue", issue); ("repo", repo)]) 200 in
  (Js.truthy (Js.prop payload "comment") = false ->
   (accepted (hub_calls s) close ->
    handleClose request s = (Return closed, hub_after s [close]))
   /\ (refused (hub_calls s) close ->
       handleClose request s
       = (Return (failure request (refusal (hub_calls s) close) 500), hub_after s [close])))
  /\ (Js.truthy (Js.prop payload "comment") = true ->
      (refused (hub_calls s) comment ->
       handleClose request s
       = (Return (failure request (refusal (hub_calls s) comment) 500),
          hub_after s [comment]))
      /\ (accepted (hub_calls s) comment ->
          (accepted (hub_calls s ++ [comment]) close ->
           handleClose request s = (Return closed, hub_after s [comment; close]))
          /\ (refused (hub_calls s ++ [comment]) close ->
              handleClose request s
              = (Return (failure request (refusal (hub_calls s ++ [comment]) close) 500),
                 hub_after s [comment; close])))).
Proof.
  intros Hb Hparse Hissue repo issue comment close closed.
  assert (Hrun : handleClose request s
                 = st_try
                     ((if Js.truthy (Js.prop payload "comment")
                       then createGitHubComment repo issue (Js.prop payload "comment")
                       else st_ret tt) ;;;
                      closeGitHubIssue repo issue ;;;
                      st_ret closed)
                     (github_failed request) s).
  { unfold handleClose. rewrite (check_request_bearer _ Hb), Hparse.
    rewrite st_bind_run. unfold st_lift. rewrite (member_of_prop _ _ Hissue).
    cbv iota beta. rewrite Hissue. reflexivity. }
  rewrite Hrun. unfold st_try. split.
  - intros Hc. rewrite Hc. split; intros H.
    + rewrite st_bind_run. unfold st_ret at 1. cbv iota beta.
      rewrite st_bind_run, (closeGitHubIssue_accepted _ _ _ H). reflexivity.
    + rewrite st_bind_run. unfold st_ret at 1. cbv iota beta.
      rewrite st_bind_run, (closeGitHubIssue_refused _ _ _ H). reflexivity.
  - intros Hc. rewrite Hc. split.
    + intros H. rewrite st_bind_run, (createGitHubComment_refused _ _ _ _ H). reflexivity.
    + intros H. split; intros H'.
      * rewrite st_bind_run, (createGitHubComment_accepted _ _ _ _ H). cbv iota beta.
        fold comment. rewrite st_bind_run, (closeGitHubIssue_accepted repo issue (hub_after s [comment]) H').
        rewrite hub_after_after. reflexivity.
      * rewrite st_bind_run, (createGitHubComment_accepted _ _ _ _ H). cbv iota beta.
        fold comment. rewrite st_bind_run, (closeGitHubIssue_refused repo issue (hub_after s [comment]) H').
        rewrite hub_after_after. reflexivity.
Qed.


(** The removal call for a label. *)
Lemma remove_each_accepted (repo issue : value) (labels : list value) (s : Hub) :
  (forall history label,
      In label labels ->
      accepted history (RemoveLabel (Js.String repo) (Js.String issue) (Js.String label))) ->
  remove_each repo issue labels s
  = (Return tt,
     hub_after s (map (fun label => RemoveLabel (Js.String repo) (Js.String issue)
                                                (Js.String label)) labels)).
Proof.
  revert s. induction labels as [|label rest IH]; intros s Hok.
  - cbn. rewrite hub_after_nil. reflexivity.
  - cbn [remove_each map]. rewrite st_bind_run.
    rewrite removeGitHubLabel_accepted by (apply Hok; left; reflexivity).
    rewrite IH by (intros; apply Hok; right; assumption).
    rewrite hub_after_after. reflexivity.
Qed.

Lemma remove_each_refused (repo issue : value) (removed : list value) (bad : value)
      (rest : list value) (s : Hub) :
  let removal label :=
    RemoveLabel (Js.String repo) (Js.String issue) (Js.String label) in
  (forall history label, In label removed -> accepted history (removal label)) ->
  (forall history, refused history (removal bad)) ->
  remove_each repo issue (removed ++ bad :: rest) s
  = (Throw (Error (refusal (hub_calls s ++ map removal removed) (removal bad))),
     hub_after s (map removal removed ++ [removal bad])).
Proof.
  intros removal Hok Hbad. revert s. induction removed as [|label removed IH]; intros s.
  - cbn [app remove_each map]. rewrite st_bind_run.
    rewrite removeGitHubLabel_refused by apply Hbad.
    rewrite app_nil_r. reflexivity.
  - cbn [app remove_each map]. rewrite st_bind_run.
    rewrite removeGitHubLabel_accepted by (apply Hok; left; reflexivity).
    rewrite IH by (intros; apply Hok; right; assumption).
    rewrite hub_after_after. cbn [hub_after hub_calls]. rewrite <- app_assoc. reflexivity.
Qed.

Lemma getGitHubLabels_run (repo issue : value) (answer : value) (names : list value)
      (s : Hub) :
  accepted (hub_calls s) (GetLabels (Js.String repo) (Js.String issue)) ->
  json (github (hub_calls s) (GetLabels (Js.String repo) (Js.String issue))) = Some answer ->
  label_names_of answer = Return names ->
  getGitHubLabels repo issue s
  = (Return names, hub_after s [GetLabels (Js.String repo) (Js.String issue)]).
Proof.
  unfold accepted, getGitHubLabels. intros Hok Hjson Hnames.
  rewrite st_bind_run. unfold github_fetch. rewrite Hok. cbn [negb].
  rewrite st_bind_run. unfold response_json. rewrite Hjson.
  unfold st_ret, st_lift. rewrite Hnames. reflexivity.
Qed.

(** *** Changing labels *)

(** [/labels] with a list to remove and a list to add, on a forge that
    accepts every call: the labels are removed one call each, in the order
    given, then all labels to add are added in one call (none when the list
    is empty), then the issue is read, and the answer is 200 with the names
    of the labels the forge reports.  When the forge refuses a removal, the
    request ends there with a 500 that quotes the forge: the labels after
    it are not removed and nothing is added. *)
Theorem labels_are_removed_then_added_then_read
        (request : HttpRequest) (s : Hub) (payload : value)
        (removes adds : list value) :
  bearer request ->
  JSON_parse (req_text request) = Some payload ->
  Js.truthy (Js.prop payload "issue") = true ->
  Js.prop payload "remove" = JArr removes ->
  Js.prop payload "add" = JArr adds ->
  let repo := getRepo (Js.prop payload "repo") in
  let issue := Js.prop payload "issue" in
  let removal label :=
    RemoveLabel (Js.String repo) (Js.String issue) (Js.String label) in
  let addition :=
    match adds with
    | [] => []
    | _ => [AddLabels (Js.String repo) (Js.String issue) (JArr adds)]
    end in
  let reading := GetLabels (Js.String repo) (Js.String issue) in
  (forall answer names,
      (forall history call, accepted history call) ->
      (forall history, json (github history reading) = Some answer) ->
      label_names_of answer = Return names ->
      handleLabels request s
      = (Return (jsonResponse request
                   (JObj [ ("success", JBool true); ("issue", issue); ("repo", repo);
                           ("labels", JArr names) ]) 200),
         hub_after s (map removal removes ++ addition ++ [reading])))
  /\ (forall removed bad rest,
        removes = (removed ++ bad :: rest)%list ->
        (forall history label, In label removed -> accepted history (removal label)) ->
        (forall history, refused history (removal bad)) ->
        handleLabels request s
        = (Return (failure request
                     (refusal (hub_calls s ++ map removal removed) (removal bad)) 500),
           hub_after s (map removal removed ++ [removal bad]))).
Proof.
  intros Hb Hparse Hissue Hremove Hadd repo issue removal addition reading.
  assert (Hrun : handleLabels request s
                 = st_try
                     ((if given_and_not_empty (JArr removes)
                       then (labels <- st_lift (for_of (JArr removes)) ;;
                             remove_each repo issue labels)
                       else st_ret tt) ;;;
                      (if given_and_not_empty (JArr adds)
                       then addGitHubLabels repo issue (JArr adds)
                       else st_ret tt) ;;;
                      labels <- getGitHubLabels repo issue ;;
                      st_ret (jsonResponse request
                                (JObj [ ("success", JBool true); ("issue", issue);
                                        ("repo", repo); ("labels", JArr labels) ]) 200))
                     (github_failed request) s).
  { unfold handleLabels. rewrite (check_request_bearer _ Hb), Hparse.
    rewrite st_bind_run. unfold st_lift at 1. rewrite (member_of_prop _ _ Hissue).
    cbv iota beta. rewrite Hissue, Hremove, Hadd. reflexivity. }
  assert (Hgiven : forall xs, given_and_not_empty (JArr xs)
                              = match xs with [] => false | _ => true end).
  { intros xs. unfold given_and_not_empty. cbn [Js.truthy length_of to_number andb].
    destruct xs; [reflexivity|]. cbn [List.length]. apply Z.ltb_lt. lia. }
  rewrite Hrun, !Hgiven. unfold st_try. split.
  - intros answer names Hok Hjson Hnames.
    assert (Hremoved :
              (if match removes with [] => false | _ => true end
               then (labels <- st_lift (for_of (JArr removes)) ;;
                     remove_each repo issue labels)
               else st_ret tt) s
              = (Return tt, hub_after s (map removal removes))).
    { destruct removes as [|r removes'].
      - cbn. rewrite hub_after_nil. reflexivity.
      - rewrite st_bind_run. cbn [for_of st_lift].
        apply remove_each_accepted. intros; apply Hok. }
    assert (Hadded : forall s1,
              (if match adds with [] => false | _ => true end
               then addGitHubLabels repo issue (JArr adds)
               else st_ret tt) s1
              = (Return tt, hub_after s1 addition)).
    { intros s1. unfold addition. destruct adds as [|a adds'].
      - cbn. rewrite hub_after_nil. reflexivity.
      - apply addGitHubLabels_accepted, Hok. }
    rewrite st_bind_run, Hremoved. cbv iota beta.
    rewrite st_bind_run, Hadded. cbv iota beta.
    rewrite st_bind_run.
    rewrite (getGitHubLabels_run repo issue answer names) by (auto; apply Hok).
    rewrite !hub_after_after. reflexivity.
  - intros removed bad rest Hsplit Hok Hbad.
    rewrite st_bind_run. subst removes.
    destruct (removed ++ bad :: rest)%list as [|x xs] eqn:Hl;
      [destruct removed; discriminate|].
    rewrite st_bind_run. cbn [for_of st_lift]. rewrite <- Hl.
    rewrite (remove_each_refused repo issue removed bad rest s Hok Hbad). reflexivity.
Qed.


(** *** Planning *)

Lemma substring_all (s : string) : String.substring 0 (String.length s) s = s.
Proof. induction s as [|c s IH]; [reflexivity|]. cbn. rewrite IH. reflexivity. Qed.

Lemma prefix_split (p s : string) :
  String.prefix p s = true ->
  s = p ++ String.substring (String.length p) (String.length s - String.length p) s.
Proof.
  revert s. induction p as [|c p IH]; intros s H.
  - cbn. rewrite Nat.sub_0_r, substring_all. reflexivity.
  - destruct s as [|c' s]; [discriminate|]. cbn [String.prefix] in H.
    destruct (ascii_dec c c') as [<- | _]; [|discriminate].
    cbn [append String.length Nat.sub String.substring]. f_equal. apply IH, H.
Qed.

Lemma points_of_spec (label : string) (points : nat) :
  points_of label = Some points
  <-> exists digits,
        label = "points:" ++ digits /\ digits <> ""
        /\ digits_value 0 digits = Some points.
Proof.
  unfold points_of, Js.startsWith. split.
  - destruct (String.prefix "points:" label) eqn:Hp; [|discriminate].
    apply prefix_split in Hp. cbn [String.length] in Hp.
    destruct (String.substring 7 (String.length label - 7) label =? "")%string eqn:He;
      [discriminate|].
    intros Hd. eexists. split; [exact Hp|]. split; [|exact Hd].
    apply String.eqb_neq, He.
  - intros [digits [-> [Hne Hd]]]. rewrite prefix_append.
    change (String.substring 7 (String.length ("points:" ++ digits) - 7)
                             ("points:" ++ digits))
      with (String.substring 0 (String.length digits - 0) digits).
    rewrite Nat.sub_0_r, substring_all.
    apply String.eqb_neq in Hne. rewrite Hne. exact Hd.
Qed.

Lemma planning_loop_spec (labels : list string) :
  exists required,
    planning_loop (map JStr labels) = Return required
    /\ (required = true <-> Exists calls_for_planning labels).
Proof.
  induction labels as [|label rest [required [IH Hiff]]].
  - exists false. split; [reflexivity|]. split; [discriminate|].
    intros H. inversion H.
  - cbn [map planning_loop Js.is_str].
    destruct (label =? "prio:P0")%string eqn:Hp.
    { exists true. split; [reflexivity|]. split; [|reflexivity].
      intros _. apply Exists_cons_hd. left. apply String.eqb_eq, Hp. }
    apply String.eqb_neq in Hp.
    destruct (points_of label) as [points|] eqn:Hpoints.
    + destruct (3 <=? points)%nat eqn:H3.
      * exists true. split; [reflexivity|]. split; [|reflexivity].
        intros _. apply Exists_cons_hd. right.
        apply points_of_spec in Hpoints. destruct Hpoints as [digits [Hl [Hne Hd]]].
        exists digits, points. repeat split; try assumption.
        apply Nat.leb_le, H3.
      * exists required. split; [exact IH|]. rewrite Hiff. split.
        -- intros H. apply Exists_cons_tl, H.
        -- intros H. inversion H as [? ? Hhere | ? ? Hthere]; subst; [|exact Hthere].
           exfalso. destruct Hhere as [Heq | [digits [points' [Hl [Hne [Hd Hle]]]]]];
             [contradiction|].
           assert (Hsome : points_of label = Some points').
           { apply points_of_spec. exists digits. repeat split; assumption. }
           rewrite Hpoints in Hsome. injection Hsome as ->.
           apply Nat.leb_gt in H3. lia.
    + exists required. split; [exact IH|]. rewrite Hiff. split.
      * intros H. apply Exists_cons_tl, H.
      * intros H. inversion H as [? ? Hhere | ? ? Hthere]; subst; [|exact Hthere].
        exfalso. destruct Hhere as [Heq | [digits [points' [Hl [Hne [Hd Hle]]]]]];
          [contradiction|].
        assert (Hsome : points_of label = Some points').
        { apply points_of_spec. exists digits. repeat split; assumption. }
        rewrite Hpoints in Hsome. discriminate.
Qed.

(** [requiresPlanning] on a list of label strings answers, and answers
    [true] exactly when some label is [prio:P0] or is [points:] followed
    by one or more decimal digits and nothing else, whose value is at
    least 3. *)
Theorem planning_is_required_for_p0_or_three_points (labels : list string) :
  exists required,
    requiresPlanning (JArr (map JStr labels)) = Return required
    /\ (required = true <-> Exists calls_for_planning labels).
Proof. apply planning_loop_spec. Qed.

(** *** Creating an issue *)




Lemma buildIssueBody_throws (payload : value) (t : string) (err : exn) (s : Hub) :
  Js.prop payload "to" = JStr t ->
  for_of (Js.prop payload "labels") = Throw err ->
  buildIssueBody payload s
  = (Throw err, {| hub_calls := hub_calls s; hub_ticks := S (hub_ticks s) |}).
Proof.
  intros Hto Hlabels. unfold buildIssueBody.
  rewrite Hto. rewrite st_bind_run. unfold st_lift at 1. cbv iota beta.
  rewrite st_bind_run. unfold now at 1. cbv iota beta.
  rewrite st_bind_run. unfold st_lift at 1, requiresPlanning.
  rewrite Hlabels. reflexivity.
Qed.

Lemma handleDirective_checked (request : HttpRequest) (payload : value) (t : string)
      (s : Hub) :
  bearer request ->
  JSON_parse (req_text request) = Some payload ->
  Js.truthy (Js.prop payload "title") = true ->
  Js.truthy (Js.prop payload "body") = true ->
  Js.prop payload "to" = JStr t -> t <> "" ->
  handleDirective request s
  = (issueBody <- buildIssueBody payload ;;
     st_try
       (issue <- createGitHubIssue (getRepo (Js.prop payload "repo"))
                   (Js.prop payload "title") (JStr issueBody)
                   (Js.or (Js.prop payload "labels") (JArr []))
                   (Js.or (Js.prop payload "assignees") (JArr [])) ;;
        number <- st_lift (Js.member issue "number") ;;
        st_ret (jsonResponse request
                  (JObj [ ("success", JBool true);
                          ("issue", number);
                          ("url", Js.prop issue "html_url");
                          ("repo", getRepo (Js.prop payload "repo")) ]) 200))
       (github_failed request)) s.
Proof.
  intros Hb Hparse Htitle Hbody Hto Hne. unfold handleDirective.
  rewrite (check_request_bearer _ Hb), Hparse.
  rewrite st_bind_run. unfold st_lift at 1. rewrite (member_of_prop _ _ Htitle).
  cbv iota beta. rewrite Htitle, Hbody, Hto.
  assert (Ht : Js.truthy (JStr t) = true).
  { destruct t; [contradiction Hne; reflexivity | reflexivity]. }
  rewrite Ht. reflexivity.
Qed.


(** A directive whose [labels] are absent, or anything but an array or a
    string, is not answered: building the issue body throws, outside the
    [try] of the endpoint, before anything is sent to the forge. *)
Theorem directive_without_labels_throws_before_the_forge
        (request : HttpRequest) (s : Hub) (payload : value) (t : string) (err : exn) :
  bearer request ->
  JSON_parse (req_text request) = Some payload ->
  Js.truthy (Js.prop payload "title") = true ->
  Js.truthy (Js.prop payload "body") = true ->
  Js.prop payload "to" = JStr t -> t <> "" ->
  for_of (Js.prop payload "labels") = Throw err ->
  handleDirective request s
  = (Throw err, {| hub_calls := hub_calls s; hub_ticks := S (hub_ticks s) |}).
Proof.
  intros Hb Hparse Htitle Hbody Hto Hne Hlabels.
  rewrite (handleDirective_checked _ _ _ _ Hb Hparse Htitle Hbody Hto Hne).
  rewrite st_bind_run, (buildIssueBody_throws _ _ _ _ Hto Hlabels). reflexivity.
Qed.

(** *** Required members *)

Lemma member_of_object (v : value) (k : string) :
  Js.nullish v = false -> Js.member v k = Return (Js.prop v k).
Proof. destruct v; try discriminate; reflexivity. Qed.

Lemma required_members (request : HttpRequest) (s : Hub) (payload : value) :
  bearer request ->
  JSON_parse (req_text request) = Some payload ->
  (Js.nullish payload = true ->
   exists what,
     handleDirective request s = (Throw (TypeError (what ++ "title")), s)
     /\ handleComment request s = (Throw (TypeError (what ++ "issue")), s)
     /\ handleClose request s = (Throw (TypeError (what ++ "issue")), s)
     /\ handleLabels request s = (Throw (TypeError (what ++ "issue")), s))
  /\ (Js.nullish payload = false ->
      let given k := Js.truthy (Js.prop payload k) in
      (given "title" && given "body" && given "to" = false ->
       handleDirective request s
       = (Return (failure request "Missing required fields: title, body, to" 400), s))
      /\ (given "issue" && given "body" = false ->
          handleComment request s
          = (Return (failure request "Missing required fields: issue, body" 400), s))
      /\ (given "issue" = false ->
          handleClose request s
          = (Return (failure request "Missing required field: issue" 400), s)
          /\ handleLabels request s
             = (Return (failure request "Missing required field: issue" 400), s))
      /\ (given "issue" = true -> given "add" || given "remove" = false ->
          handleLabels request s
          = (Return (failure request "Must specify at least one of: add, remove" 400), s))).
Proof.
  intros Hb Hparse. split.
  - intros Hnull. exists "Cannot read properties of null or undefined: ".
    unfold handleDirective, handleComment, handleClose, handleLabels.
    rewrite (check_request_bearer _ Hb), Hparse.
    destruct payload; try discriminate Hnull; repeat split; reflexivity.
  - intros Hobj given.
    unfold handleDirective, handleComment, handleClose, handleLabels.
    rewrite (check_request_bearer _ Hb), Hparse, !st_bind_run.
    unfold st_lift. rewrite !(member_of_object _ _ Hobj).
    fold (given "title") (given "body") (given "to") (given "issue") (given "add")
         (given "remove").
    destruct (given "title"), (given "body"), (given "to"), (given "issue"),
      (given "add"), (given "remove"); cbn [negb orb andb];
      repeat split; intros; try discriminate; reflexivity.
Qed.

(** With the bearer token and a JSON body, the four endpoints test their
    required members before anything is sent to the forge: a body without
    (or with a falsy) [title], [body] or [to] for [/directive], [issue] or
    [body] for [/comment], [issue] for [/close] and [/labels], or with
    neither [add] nor [remove] for [/labels], is answered 400 and changes
    nothing.  The body [null] is not answered at all: reading its first
    member throws, outside any [try]. *)
Theorem required_members_are_checked_first
        (request : HttpRequest) (s : Hub) (payload : value) :
  bearer request ->
  JSON_parse (req_text request) = Some payload ->
  (Js.nullish payload = true ->
   exists what,
     handleDirective request s = (Throw (TypeError (what ++ "title")), s)
     /\ handleComment request s = (Throw (TypeError (what ++ "issue")), s)
     /\ handleClose request s = (Throw (TypeError (what ++ "issue")), s)
     /\ handleLabels request s = (Throw (TypeError (what ++ "issue")), s))
  /\ (Js.nullish payload = false ->
      let given k := Js.truthy (Js.prop payload k) in
      (given "title" && given "body" && given "to" = false ->
       handleDirective request s
       = (Return (failure request "Missing required fields: title, body, to" 400), s))
      /\ (given "issue" && given "body" = false ->
          handleComment request s
          = (Return (failure request "Missing required fields: issue, body" 400), s))
      /\ (given "issue" = false ->
          handleClose request s
          = (Return (failure request "Missing required field: issue" 400), s)
          /\ handleLabels request s
             = (Return (failure request "Missing required field: issue" 400), s))
      /\ (given "issue" = true -> given "add" || given "remove" = false ->
          handleLabels request s
          = (Return (failure request "Must specify at least one of: add, remove" 400), s))).
Proof. apply required_members. Qed.


(** *** The origin that an answer allows *)









End Directives.

Close Scope st_scope.

(* ------------------------------------------------------------------ *)
(** * The evidence endpoints of [src/index.ts]                          *)
(* ------------------------------------------------------------------ *)

(** [POST /v2/evidence] puts an uploaded file into the bucket
    [EVIDENCE_BUCKET] and indexes it in table [evidence_assets];
    [GET /v2/evidence/<id>] looks the index up and serves the file. *)

Open Scope st_scope.

(** ** Types of the evidence endpoints *)

(** A [File] of a form: its name, its type and its bytes. *)
Record FileBlob : Type := {
  blob_name : string;
  blob_type : string;
  blob_bytes : string
}.

(** A value of [FormData]: a text or a file. *)
Inductive FormValue : Type :=
| FormText (s : string)
| FormFile (f : FileBlob).

(** The inbound request, as far as the evidence endpoints read it: the
    headers [x-relay-key] and [content-type], the origin of the URL, and
    what [req.formData()] gives, entries in the order of the form ([None]
    when it rejects). *)
Record EvidenceRequest : Type := {
  ev_relay_key : option string;
  ev_content_type : option string;
  ev_url_origin : string;
  ev_form : option (list (string * FormValue))
}.

(** A row of table [evidence_assets] (migration: [id TEXT PRIMARY KEY];
    [event_id], [content_type] and [size_bytes] may be [NULL]). *)
Record AssetRow : Type := {
  asset_id : string;
  asset_repo : string;
  asset_issue_number : Z;
  asset_event_id : option string;
  asset_filename : string;
  asset_content_type : option string;
  asset_size_bytes : option Z;
  asset_r2_key : string;
  asset_created_at : string
}.

(** An object of the bucket: its bytes, the headers that its
    [httpMetadata] stands for, and its [customMetadata]. *)
Record R2Object : Type := {
  r2_body : string;
  r2_httpMetadata : list (string * string);
  r2_customMetadata : list (string * string)
}.

(** What the evidence endpoints run in: the table, the bucket (one object
    per key), the number of clock readings and of UUIDs drawn. *)
Record Store : Type := {
  evidence_assets : list AssetRow;
  EVIDENCE_BUCKET : list (string * R2Object);
  store_ticks : nat;
  store_uuids : nat
}.

(** An answer of the evidence endpoints: one built as on the event route,
    or [new Response(obj.body, { headers })]. *)
Inductive EvidenceResponse : Type :=
| Answer (res : HttpResponse)
| ServedFile (headers : list (string * string)) (body : string).

(** ** Forms, headers and the bucket *)

(** [form.get(name)]: the first value under the name. *)
Definition form_get (form : list (string * FormValue)) (name : string)
  : option FormValue :=
  option_map snd (find (fun entry => (fst entry =? name)%string) form).

(** [String(v || "")] for what [form.get] gives. *)
Definition form_string (v : option FormValue) : string :=
  match v with
  | Some (FormText s) => s
  | Some (FormFile _) => "[object File]"
  | None => ""
  end.

(** [headers.set(name, v)]. *)
Fixpoint headers_set (headers : list (string * string)) (name v : string)
  : list (string * string) :=
  match headers with
  | [] => [(name, v)]
  | (name', v') :: rest =>
      if (name' =? name)%string then (name, v) :: rest
      else (name', v') :: headers_set rest name v
  end.

(** [obj.writeHttpMetadata(headers)]. *)
Definition writeHttpMetadata (obj : R2Object) (headers : list (string * string))
  : list (string * string) :=
  fold_left (fun hs entry => headers_set hs (fst entry) (snd entry))
            (r2_httpMetadata obj) headers.

Definition bucket_lookup (bucket : list (string * R2Object)) (key : string)
  : option R2Object :=
  option_map snd (find (fun entry => (fst entry =? key)%string) bucket).

(** [new Response("Not found", { status: 404 })]. *)
Definition not_found : HttpResponse :=
  {| http_status := 404; http_body := BodyText "Not found" |}.

(** [pathname.replace("/v2/evidence/", "")] for a path that starts with
    it. *)
Definition after_evidence_prefix (pathname : string) : string :=
  String.substring 13 (String.length pathname - 13) pathname.

Section Evidence.

(** [Number(s)] for a string [s], as for the event route. *)
Variable Number_of_string : string -> option Z.

(** [new Date().toISOString()] at the n-th reading of the clock. *)
Variable clock : nat -> string.

(** [crypto.randomUUID()] at the n-th draw. *)
Variable randomUUID : nat -> string.

Variable env : Env.

(** [requireAuth] reads the header [x-relay-key] only. *)
Definition evidence_auth (req : EvidenceRequest) : option HttpResponse :=
  requireAuth env {| x_relay_key := ev_relay_key req; req_body := "" |}.

Definition store_nowIso : St Store string :=
  fun s => (Return (clock (store_ticks s)),
            {| evidence_assets := evidence_assets s;
               EVIDENCE_BUCKET := EVIDENCE_BUCKET s;
               store_ticks := S (store_ticks s);
               store_uuids := store_uuids s |}).

Definition crypto_randomUUID : St Store string :=
  fun s => (Return (randomUUID (store_uuids s)),
            {| evidence_assets := evidence_assets s;
               EVIDENCE_BUCKET := EVIDENCE_BUCKET s;
               store_ticks := store_ticks s;
               store_uuids := S (store_uuids s) |}).

(** [await req.formData()]. *)
Definition formData (req : EvidenceRequest) : St Store (list (string * FormValue)) :=
  match ev_form req with
  | Some form => st_ret form
  | None => st_throw (TypeError "Unrecognized Content-Type header value")
  end.

(** [env.EVIDENCE_BUCKET.put(key, ...)]: the object under the key is
    replaced. *)
Definition bucket_put (key : string) (obj : R2Object) : St Store unit :=
  fun s => (Return tt,
            {| evidence_assets := evidence_assets s;
               EVIDENCE_BUCKET :=
                 (key, obj)
                 :: filter (fun entry => negb (fst entry =? key)%string)
                           (EVIDENCE_BUCKET s);
               store_ticks := store_ticks s;
               store_uuids := store_uuids s |}).

(** [env.EVIDENCE_BUCKET.get(key)]. *)
Definition bucket_get (key : string) : St Store (option R2Object) :=
  fun s => (Return (bucket_lookup (EVIDENCE_BUCKET s) key), s).

(** [INSERT INTO evidence_assets ...]: the primary key refuses an [id]
    that the table holds. *)
Definition insert_asset (row : AssetRow) : St Store unit :=
  fun s =>
    if existsb (fun r => (asset_id r =? asset_id row)%string) (evidence_assets s)
    then (Throw (Error "D1_ERROR: UNIQUE constraint failed: evidence_assets.id"), s)
    else (Return tt,
          {| evidence_assets := evidence_assets s ++ [row];
             EVIDENCE_BUCKET := EVIDENCE_BUCKET s;
             store_ticks := store_ticks s;
             store_uuids := store_uuids s |}).

(** [SELECT ... FROM evidence_assets WHERE id = ?], [.first()]. *)
Definition first_asset (id : string) : St Store (option AssetRow) :=
  fun s => (Return (find (fun r => (asset_id r =? id)%string) (evidence_assets s)), s).

(** ** The endpoints *)

Definition handleEvidenceUpload (req : EvidenceRequest) : St Store HttpResponse :=
  match evidence_auth req with
  | Some authErr => st_ret authErr
  | None =>
  let contentType := match ev_content_type req with
                     | Some c => c
                     | None => ""
                     end in
  if negb (Js.includes contentType "multipart/form-data")
  then st_ret (badRequest "Expected multipart/form-data" JUndefined) else
  form <- formData req ;;
  let repo := Js.trim (form_string (form_get form "repo")) in
  let issueNumber := safeInt Number_of_string
                             (JStr (form_string (form_get form "issue_number"))) in
  let eventId := let e := Js.trim (form_string (form_get form "event_id")) in
                 if (e =? "")%string then None else Some e in
  let file := form_get form "file" in
  match (if (repo =? "")%string || negb (isRepoSlug repo) then None
         else match issueNumber with
              | Some 0 | None => None
              | Some n => Some n
              end) with
  | None =>
      st_ret (badRequest "Missing required fields: repo (org/repo), issue_number"
                         JUndefined)
  | Some issueNumber =>
  match file with
  | None | Some (FormText _) =>
      st_ret (badRequest "Missing file field (multipart 'file')" JUndefined)
  | Some (FormFile fileBlob) =>
  id <- crypto_randomUUID ;;
  createdAt <- store_nowIso ;;
  let filename := if (blob_name fileBlob =? "")%string then "upload.bin"
                  else blob_name fileBlob in
  let fileType := if (blob_type fileBlob =? "")%string then "application/octet-stream"
                  else blob_type fileBlob in
  let sizeBytes := Z.of_nat (String.length (blob_bytes fileBlob)) in
  let r2Key := "evidence/" ++ repo ++ "/issue-" ++ Js.Z_to_string issueNumber
               ++ "/" ++ id ++ "/" ++ filename in
  bucket_put r2Key
             {| r2_body := blob_bytes fileBlob;
                r2_httpMetadata := [("content-type", fileType)];
                r2_customMetadata :=
                  [ ("repo", repo);
                    ("issue_number", Js.Z_to_string issueNumber);
                    ("event_id", match eventId with Some e => e | None => "" end);
                    ("uploaded_at", createdAt) ] |} ;;;
  insert_asset {| asset_id := id;
                  asset_repo := repo;
                  asset_issue_number := issueNumber;
                  asset_event_id := eventId;
                  asset_filename := filename;
                  asset_content_type := Some fileType;
                  asset_size_bytes := Some sizeBytes;
                  asset_r2_key := r2Key;
                  asset_created_at := createdAt |} ;;;
  let evidenceUrl := ev_url_origin req ++ "/v2/evidence/" ++ id in
  st_ret (v2Json (JObj [ ("id", JStr id);
                         ("repo", JStr repo);
                         ("issue_number", JNum issueNumber);
                         ("event_id", match eventId with
                                      | Some e => JStr e
                                      | None => JNull
                                      end);
                         ("filename", JStr filename);
                         ("content_type", JStr fileType);
                         ("size_bytes", JNum sizeBytes);
                         ("url", JStr evidenceUrl) ]) 201)
  end end end.

(** The value of [content-disposition]. *)
Definition inline_disposition (filename : string) : string :=
  "inline; filename=" ++ String Js.dquote (without_char Js.dquote filename)
  ++ String Js.dquote "".

Definition handleEvidenceGet (req : EvidenceRequest) (evidenceId : string)
  : St Store EvidenceResponse :=
  match evidence_auth req with
  | Some authErr => st_ret (Answer authErr)
  | None =>
  row <- first_asset evidenceId ;;
  match row with
  | None => st_ret (Answer not_found)
  | Some row =>
  obj <- bucket_get (asset_r2_key row) ;;
  match obj with
  | None => st_ret (Answer not_found)
  | Some obj =>
  let headers := [] in
  let headers :=
    headers_set headers "content-type"
                match asset_content_type row with
                | Some c => if (c =? "")%string then "application/octet-stream" else c
                | None => "application/octet-stream"
                end in
  let headers :=
    headers_set headers "content-disposition" (inline_disposition (asset_filename row)) in
  let headers := writeHttpMetadata obj headers in
  st_ret (ServedFile headers (r2_body obj))
  end end end.

(** The route [POST /v2/evidence] of [fetch]. *)
Definition fetch_v2_evidence_upload (req : EvidenceRequest) (s : Store)
  : HttpResponse * Store :=
  match handleEvidenceUpload req s with
  | (Return res, s') => (res, s')
  | (Throw err, s') => (internal_error err, s')
  end.

(** The route [GET /v2/evidence/...] of [fetch], for a path that starts
    with [/v2/evidence/]. *)
Definition fetch_v2_evidence_get (pathname : string) (req : EvidenceRequest) (s : Store)
  : EvidenceResponse * Store :=
  let id := Js.trim (after_evidence_prefix pathname) in
  if (id =? "")%string then (Answer (badRequest "Missing evidence id" JUndefined), s) else
  match handleEvidenceGet req id s with
  | (Return res, s') => (res, s')
  | (Throw err, s') => (Answer (internal_error err), s')
  end.

(** ** Notions used by the statements *)

(** The request carries the shared secret. *)
Definition keyed (req : EvidenceRequest) : Prop := evidence_auth req = None.

(** No two rows of [evidence_assets] have the same [id]. *)
Definition unique_asset_ids (s : Store) : Prop :=
  NoDup (map asset_id (evidence_assets s)).

(** Every row of the index points at an object of the bucket. *)
Definition index_backed (s : Store) : Prop :=
  forall row, In row (evidence_assets s) ->
              bucket_lookup (EVIDENCE_BUCKET s) (asset_r2_key row) <> None.

(** The status of an answer; a served file has 200. *)
Definition evidence_status (res : EvidenceResponse) : Z :=
  match res with
  | Answer r => http_status r
  | ServedFile _ _ => 200
  end.

(** ** Properties of the evidence endpoints *)


Lemma evidence_auth_refusal (req : EvidenceRequest) (authErr : HttpResponse) :
  evidence_auth req = Some authErr -> authErr = unauthorized.
Proof.
  unfold evidence_auth, requireAuth. cbn [x_relay_key].
  destruct (ev_relay_key req) as [key|]; [|intros H; injection H as <-; reflexivity].
  destruct ((key =? "")%string || negb (key =? RELAY_SHARED_SECRET env)%string);
    [intros H; injection H as <-; reflexivity | discriminate].
Qed.

(** What an upload does, case by case. *)
Lemma handleEvidenceUpload_cases (req : EvidenceRequest) (s : Store) :
  (evidence_auth req <> None
   /\ handleEvidenceUpload req s = (Return unauthorized, s))
  \/ (keyed req
      /\ exists message,
           handleEvidenceUpload req s = (Return (badRequest message JUndefined), s))
  \/ (keyed req /\ ev_form req = None
      /\ exists err, handleEvidenceUpload req s = (Throw err, s))
  \/ (keyed req
      /\ exists form file row obj data,
           ev_form req = Some form
           /\ form_get form "file" = Some (FormFile file)
           /\ asset_id row = randomUUID (store_uuids s)
           /\ asset_filename row
              = (if (blob_name file =? "")%string then "upload.bin" else blob_name file)
           /\ asset_content_type row
              = Some (if (blob_type file =? "")%string then "application/octet-stream"
                      else blob_type file)
           /\ asset_repo row = Js.trim (form_string (form_get form "repo"))
           /\ isRepoSlug (asset_repo row) = true
           /\ asset_issue_number row <> 0
           /\ r2_body obj = blob_bytes file
           /\ r2_httpMetadata obj
              = [("content-type",
                  if (blob_type file =? "")%string then "application/octet-stream"
                  else blob_type file)]
           /\ Js.prop data "id" = JStr (asset_id row)
           /\ Js.prop data "url"
              = JStr (ev_url_origin req ++ "/v2/evidence/" ++ asset_id row)
           /\ let put :=
                {| evidence_assets := evidence_assets s;
                   EVIDENCE_BUCKET :=
                     (asset_r2_key row, obj)
                     :: filter (fun entry => negb (fst entry =? asset_r2_key row)%string)
                               (EVIDENCE_BUCKET s);
                   store_ticks := S (store_ticks s);
                   store_uuids := S (store_uuids s) |} in
              (In (asset_id row) (map asset_id (evidence_assets s))
               /\ exists err, handleEvidenceUpload req s = (Throw err, put))
              \/ (~ In (asset_id row) (map asset_id (evidence_assets s))
                  /\ handleEvidenceUpload req s
                     = (Return (v2Json data 201),
                        {| evidence_assets := evidence_assets s ++ [row];
                           EVIDENCE_BUCKET := EVIDENCE_BUCKET put;
                           store_ticks := store_ticks put;
                           store_uuids := store_uuids put |}))).
Proof.
  unfold keyed, handleEvidenceUpload.
  destruct (evidence_auth req) as [authErr|] eqn:Hauth.
  { left. split; [discriminate|]. rewrite (evidence_auth_refusal _ _ Hauth). reflexivity. }
  right.
  destruct (negb (Js.includes match ev_content_type req with
                              | Some c => c
                              | None => ""
                              end "multipart/form-data")).
  { left. split; [reflexivity|]. eexists. reflexivity. }
  rewrite st_bind_run. unfold formData.
  destruct (ev_form req) as [form|] eqn:Hform.
  2:{ right. left. split; [reflexivity|]. split; [reflexivity|]. eexists. reflexivity. }
  change (st_ret form s) with (Return form, s). cbv iota beta.
  set (repo := Js.trim (form_string (form_get form "repo"))).
  destruct ((repo =? "")%string || negb (isRepoSlug repo)) eqn:Hrepo.
  { left. split; [reflexivity|]. eexists. reflexivity. }
  apply Bool.orb_false_iff in Hrepo. destruct Hrepo as [_ Hslug].
  apply Bool.negb_false_iff in Hslug.
  destruct (safeInt Number_of_string (JStr (form_string (form_get form "issue_number"))))
    as [n|] eqn:Hn.
  2:{ left. split; [reflexivity|]. eexists. reflexivity. }
  destruct (Z.eq_dec n 0) as [-> | Hnz].
  { left. split; [reflexivity|]. eexists. reflexivity. }
  assert (Hsome : match n with 0 => None | _ => Some n end = Some n).
  { destruct n; [contradiction Hnz; reflexivity | reflexivity | reflexivity]. }
  rewrite Hsome. clear Hsome.
  destruct (form_get form "file") as [[text | file]|] eqn:Hfile.
  1,3: left; (split; [reflexivity|]); eexists; reflexivity.
  right. right. split; [reflexivity|].
  set (id := randomUUID (store_uuids s)).
  set (createdAt := clock (store_ticks s)).
  set (filename := if (blob_name file =? "")%string then "upload.bin" else blob_name file).
  set (fileType := if (blob_type file =? "")%string then "application/octet-stream"
                   else blob_type file).
  set (eventId := if (Js.trim (form_string (form_get form "event_id")) =? "")%string
                  then None else Some (Js.trim (form_string (form_get form "event_id")))).
  set (r2Key := "evidence/" ++ repo ++ "/issue-" ++ Js.Z_to_string n
                ++ "/" ++ id ++ "/" ++ filename).
  exists form, file,
    {| asset_id := id;
       asset_repo := repo;
       asset_issue_number := n;
       asset_event_id := eventId;
       asset_filename := filename;
       asset_content_type := Some fileType;
       asset_size_bytes := Some (Z.of_nat (String.length (blob_bytes file)));
       asset_r2_key := r2Key;
       asset_created_at := createdAt |},
    {| r2_body := blob_bytes file;
       r2_httpMetadata := [("content-type", fileType)];
       r2_customMetadata :=
         [ ("repo", repo);
           ("issue_number", Js.Z_to_string n);
           ("event_id", match eventId with Some e => e | None => "" end);
           ("uploaded_at", createdAt) ] |},
    (JObj [ ("id", JStr id);
            ("repo", JStr repo);
            ("issue_number", JNum n);
            ("event_id", match eventId with
                         | Some e => JStr e
                         | None => JNull
                         end);
            ("filename", JStr filename);
            ("content_type", JStr fileType);
            ("size_bytes", JNum (Z.of_nat (String.length (blob_bytes file))));
            ("url", JStr (ev_url_origin req ++ "/v2/evidence/" ++ id)) ]).
  cbn [asset_id asset_filename asset_content_type asset_repo asset_issue_number
       asset_r2_key r2_body r2_httpMetadata].
  repeat (split; [first [reflexivity | assumption]|]).
  cbv beta iota zeta. cbn [EVIDENCE_BUCKET store_ticks store_uuids].
  destruct (existsb (fun r => (asset_id r =? id)%string) (evidence_assets s)) eqn:Hdup.
  - left. split.
    { apply existsb_exists in Hdup. destruct Hdup as [r [Hin Heq]].
      apply String.eqb_eq in Heq. rewrite <- Heq. apply in_map, Hin. }
    eexists.
    rewrite st_bind_run. unfold crypto_randomUUID at 1. cbv iota beta. fold id.
    rewrite st_bind_run. unfold store_nowIso at 1. cbv iota beta.
    cbn [store_ticks store_uuids evidence_assets EVIDENCE_BUCKET]. fold createdAt.
    fold r2Key.
    rewrite st_bind_run. unfold bucket_put at 1. cbv iota beta.
    cbn [store_ticks store_uuids evidence_assets EVIDENCE_BUCKET].
    rewrite st_bind_run. unfold insert_asset at 1.
    cbn [store_ticks store_uuids evidence_assets EVIDENCE_BUCKET asset_id].
    rewrite Hdup. reflexivity.
  - right. split.
    { intros Hin. apply in_map_iff in Hin. destruct Hin as [r [Heq Hin]].
      assert (Htrue : existsb (fun r => (asset_id r =? id)%string) (evidence_assets s)
                      = true).
      { apply existsb_exists. exists r. split; [exact Hin|]. apply String.eqb_eq, Heq. }
      rewrite Hdup in Htrue. discriminate. }
    rewrite st_bind_run. unfold crypto_randomUUID at 1. cbv iota beta. fold id.
    rewrite st_bind_run. unfold store_nowIso at 1. cbv iota beta.
    cbn [store_ticks store_uuids evidence_assets EVIDENCE_BUCKET]. fold createdAt.
    fold r2Key.
    rewrite st_bind_run. unfold bucket_put at 1. cbv iota beta.
    cbn [store_ticks store_uuids evidence_assets EVIDENCE_BUCKET].
    rewrite st_bind_run. unfold insert_asset at 1.
    cbn [store_ticks store_uuids evidence_assets EVIDENCE_BUCKET asset_id].
    rewrite Hdup. reflexivity.
Qed.


Lemma first_asset_none (id : string) (rows : list AssetRow) :
  ~ In id (map asset_id rows) ->
  find (fun r => (asset_id r =? id)%string) rows = None.
Proof.
  intros Hnot. destruct (find _ rows) as [r|] eqn:Hfind; [|reflexivity].
  exfalso. apply find_some in Hfind. destruct Hfind as [Hin Heq].
  apply String.eqb_eq in Heq. apply Hnot. rewrite <- Heq. apply in_map, Hin.
Qed.

Lemma first_asset_some (id : string) (rows : list AssetRow) :
  In id (map asset_id rows) ->
  exists row, find (fun r => (asset_id r =? id)%string) rows = Some row
              /\ In row rows /\ asset_id row = id.
Proof.
  intros Hin. destruct (find (fun r => (asset_id r =? id)%string) rows) as [r|] eqn:Hfind.
  - exists r. split; [reflexivity|]. apply find_some in Hfind.
    destruct Hfind as [Hr Heq]. split; [exact Hr | apply String.eqb_eq, Heq].
  - exfalso. apply in_map_iff in Hin. destruct Hin as [r [Heq Hr]].
    pose proof (find_none _ _ Hfind r Hr) as Hno. cbv beta in Hno.
    rewrite Heq, String.eqb_refl in Hno. discriminate.
Qed.

Lemma bucket_lookup_put (bucket : list (string * R2Object)) (key : string)
      (obj : R2Object) (k : string) :
  bucket_lookup ((key, obj) :: filter (fun entry => negb (fst entry =? key)%string) bucket) k
  = if (key =? k)%string then Some obj else bucket_lookup bucket k.
Proof.
  unfold bucket_lookup. cbn [find fst].
  destruct (key =? k)%string eqn:Hk; [reflexivity|].
  f_equal. induction bucket as [|[k' o'] rest IH]; [reflexivity|].
  cbn [filter find fst].
  destruct (k' =? key)%string eqn:Hk'; cbn [negb].
  - apply String.eqb_eq in Hk'. subst k'. rewrite Hk. exact IH.
  - cbn [find fst]. destruct (k' =? k)%string; [reflexivity | exact IH].
Qed.

Lemma evidence_get_run (req : EvidenceRequest) (id : string) (s : Store)
      (row : AssetRow) (obj : R2Object) :
  keyed req ->
  find (fun r => (asset_id r =? id)%string) (evidence_assets s) = Some row ->
  bucket_lookup (EVIDENCE_BUCKET s) (asset_r2_key row) = Some obj ->
  handleEvidenceGet req id s
  = (Return (ServedFile
               (writeHttpMetadata obj
                  [ ("content-type",
                     match asset_content_type row with
                     | Some c => if (c =? "")%string then "application/octet-stream" else c
                     | None => "application/octet-stream"
                     end);
                    ("content-disposition", inline_disposition (asset_filename row)) ])
               (r2_body obj)), s).
Proof.
  unfold keyed, handleEvidenceGet. intros -> Hrow Hobj.
  rewrite st_bind_run. unfold first_asset. rewrite Hrow.
  rewrite st_bind_run. unfold bucket_get. rewrite Hobj. reflexivity.
Qed.

Lemma after_evidence_prefix_of (id : string) :
  after_evidence_prefix ("/v2/evidence/" ++ id) = id.
Proof.
  unfold after_evidence_prefix.
  change (String.substring 13 (String.length ("/v2/evidence/" ++ id) - 13)
                           ("/v2/evidence/" ++ id))
    with (String.substring 0 (String.length id - 0) id).
  rewrite Nat.sub_0_r. apply substring_all.
Qed.

(** *** An upload is served back *)

Lemma upload_then_get (req req' : EvidenceRequest) (s s' : Store) (res : HttpResponse) :
  handleEvidenceUpload req s = (Return res, s') ->
  http_status res = 201 ->
  keyed req' ->
  exists form file id data,
    ev_form req = Some form
    /\ form_get form "file" = Some (FormFile file)
    /\ http_body res = BodyJson data
    /\ Js.prop data "id" = JStr id
    /\ Js.prop data "url" = JStr (ev_url_origin req ++ "/v2/evidence/" ++ id)
    /\ let served :=
         ServedFile
           [ ("content-type",
              if (blob_type file =? "")%string then "application/octet-stream"
              else blob_type file);
             ("content-disposition",
              inline_disposition (if (blob_name file =? "")%string then "upload.bin"
                                  else blob_name file)) ]
           (blob_bytes file) in
       handleEvidenceGet req' id s' = (Return served, s')
       /\ (id <> "" -> Js.trim id = id ->
           fetch_v2_evidence_get ("/v2/evidence/" ++ id) req' s' = (served, s')).
Proof.
  intros Hrun Hst Hkey.
  destruct (handleEvidenceUpload_cases req s)
    as [[_ H] | [[_ [message H]] | [[_ [_ [err H]]] | [_ H]]]].
  1-3: rewrite Hrun in H;
    first [discriminate H | injection H as Hres _; rewrite Hres in Hst; discriminate Hst].
  destruct H as [form [file [row [obj [data H]]]]].
  destruct H as [Hform [Hfile [Hid [Hname [Htype [_ [_ [_ [Hbody [Hmeta [Hdid [Hurl H]]]]]]]]]]]].
  cbv zeta in H. cbn [EVIDENCE_BUCKET store_ticks store_uuids] in H.
  destruct H as [[_ [err H]] | [Hfresh H]]; [rewrite Hrun in H; discriminate|].
  rewrite Hrun in H. injection H as -> ->.
  exists form, file, (asset_id row), data.
  repeat (split; [first [reflexivity | assumption]|]).
  assert (Hget : handleEvidenceGet req' (asset_id row)
                   {| evidence_assets := evidence_assets s ++ [row];
                      EVIDENCE_BUCKET :=
                        (asset_r2_key row, obj)
                        :: filter (fun entry => negb (fst entry =? asset_r2_key row)%string)
                                  (EVIDENCE_BUCKET s);
                      store_ticks := S (store_ticks s);
                      store_uuids := S (store_uuids s) |}
                 = (Return
                      (ServedFile
                         [ ("content-type",
                            if (blob_type file =? "")%string then "application/octet-stream"
                            else blob_type file);
                           ("content-disposition",
                            inline_disposition
                              (if (blob_name file =? "")%string then "upload.bin"
                               else blob_name file)) ]
                         (blob_bytes file)),
                    {| evidence_assets := evidence_assets s ++ [row];
                       EVIDENCE_BUCKET :=
                         (asset_r2_key row, obj)
                         :: filter (fun entry => negb (fst entry =? asset_r2_key row)%string)
                                   (EVIDENCE_BUCKET s);
                       store_ticks := S (store_ticks s);
                       store_uuids := S (store_uuids s) |})).
  { rewrite (evidence_get_run req' (asset_id row) _ row obj Hkey).
    - unfold writeHttpMetadata. rewrite Hmeta, Htype, Hname, Hbody.
      cbn [fold_left headers_set fst snd]. rewrite String.eqb_refl. reflexivity.
    - cbn [evidence_assets]. apply find_app_new.
      + apply first_asset_none, Hfresh.
      + apply String.eqb_refl.
    - cbn [EVIDENCE_BUCKET]. rewrite bucket_lookup_put, String.eqb_refl. reflexivity. }
  cbv zeta. split; [exact Hget|].
  intros Hne Htrim. unfold fetch_v2_evidence_get.
  rewrite after_evidence_prefix_of, Htrim.
  apply String.eqb_neq in Hne. rewrite Hne, Hget. reflexivity.
Qed.

(** An upload that is answered 201 can be read back at once: the answer
    names an [id] and the address [<origin>/v2/evidence/<id>], and a
    request for that [id] with the shared secret is served the bytes of
    the uploaded file, with its type ([application/octet-stream] when the
    file has none) as [content-type] and its name without double quotes
    ([upload.bin] when the file has none) in [content-disposition]. *)
Theorem uploaded_evidence_is_served_back
        (req req' : EvidenceRequest) (s s' : Store) (res : HttpResponse) :
  handleEvidenceUpload req s = (Return res, s') ->
  http_status res = 201 ->
  keyed req' ->
  exists form file id data,
    ev_form req = Some form
    /\ form_get form "file" = Some (FormFile file)
    /\ http_body res = BodyJson data
    /\ Js.prop data "id" = JStr id
    /\ Js.prop data "url" = JStr (ev_url_origin req ++ "/v2/evidence/" ++ id)
    /\ let served :=
         ServedFile
           [ ("content-type",
              if (blob_type file =? "")%string then "application/octet-stream"
              else blob_type file);
             ("content-disposition",
              inline_disposition (if (blob_name file =? "")%string then "upload.bin"
                                  else blob_name file)) ]
           (blob_bytes file) in
       handleEvidenceGet req' id s' = (Return served, s')
       /\ (id <> "" -> Js.trim id = id ->
           fetch_v2_evidence_get ("/v2/evidence/" ++ id) req' s' = (served, s')).
Proof. apply upload_then_get. Qed.

(** *** The index *)

Lemma upload_index (req : EvidenceRequest) (s : Store) :
  let res := fst (fetch_v2_evidence_upload req s) in
  let s' := snd (fetch_v2_evidence_upload req s) in
  In (http_status res) [201; 400; 401; 500]
  /\ (In (http_status res) [400; 401] -> s' = s)
  /\ (evidence_assets s' = evidence_assets s
      \/ exists row,
           evidence_assets s' = (evidence_assets s ++ [row])%list
           /\ ~ In (asset_id row) (map asset_id (evidence_assets s))
           /\ http_status res = 201)
  /\ (http_status res = 201 ->
      exists row, evidence_assets s' = (evidence_assets s ++ [row])%list)
  /\ (unique_asset_ids s -> unique_asset_ids s')
  /\ (index_backed s -> index_backed s').
Proof.
  unfold fetch_v2_evidence_upload.
  destruct (handleEvidenceUpload_cases req s)
    as [[_ H] | [[_ [message H]] | [[_ [_ [err H]]] | [_ H]]]].
  - rewrite H. cbn [fst snd unauthorized http_status].
    split; [cbn; auto|]. split; [reflexivity|]. split; [left; reflexivity|].
    split; [discriminate|]. split; intros Hinv; exact Hinv.
  - rewrite H. cbn [fst snd badRequest v2Json http_status].
    split; [cbn; auto|]. split; [reflexivity|]. split; [left; reflexivity|].
    split; [discriminate|]. split; intros Hinv; exact Hinv.
  - rewrite H. cbn [fst snd internal_error v2Json http_status].
    split; [cbn; auto 6|]. split; [reflexivity|]. split; [left; reflexivity|].
    split; [discriminate|]. split; intros Hinv; exact Hinv.
  - destruct H as [form [file [row [obj [data H]]]]].
    destruct H as [_ [_ [_ [_ [_ [_ [_ [_ [_ [_ [_ [_ H]]]]]]]]]]]].
    cbv zeta in H. cbn [EVIDENCE_BUCKET store_ticks store_uuids] in H.
    assert (Hbacked :
              forall rows,
                (forall r, In r rows ->
                           bucket_lookup (EVIDENCE_BUCKET s) (asset_r2_key r) <> None) ->
                forall r, In r rows ->
                  bucket_lookup
                    ((asset_r2_key row, obj)
                     :: filter (fun entry => negb (fst entry =? asset_r2_key row)%string)
                               (EVIDENCE_BUCKET s)) (asset_r2_key r) <> None).
    { intros rows Hrows r Hr. rewrite bucket_lookup_put.
      destruct (asset_r2_key row =? asset_r2_key r)%string; [discriminate|].
      apply Hrows, Hr. }
    destruct H as [[_ [err H]] | [Hfresh H]]; rewrite H.
    + cbn [fst snd internal_error v2Json http_status evidence_assets].
      split; [cbn; auto 6|].
      split; [intros [Hst | [Hst | []]]; discriminate|].
      split; [left; reflexivity|]. split; [discriminate|].
      split; [intros Hinv; exact Hinv|].
      unfold index_backed. cbn [evidence_assets EVIDENCE_BUCKET].
      intros Hinv. apply Hbacked, Hinv.
    + cbn [fst snd v2Json http_status evidence_assets].
      split; [cbn; auto|].
      split; [intros [Hst | [Hst | []]]; discriminate|].
      split; [right; exists row; repeat split; [exact Hfresh]|].
      split; [intros _; exists row; reflexivity|].
      split.
      * unfold unique_asset_ids. cbn [evidence_assets]. intros Hnodup.
        rewrite map_app. cbn [map]. apply NoDup_snoc; assumption.
      * unfold index_backed. cbn [evidence_assets EVIDENCE_BUCKET].
        intros Hinv r Hr. apply in_app_or in Hr. destruct Hr as [Hr | [<- | []]].
        -- exact (Hbacked _ Hinv r Hr).
        -- rewrite bucket_lookup_put, String.eqb_refl. discriminate.
Qed.

(** Whatever is posted to [/v2/evidence], the answer is 201, 400, 401 or
    500; a 400 or a 401 leaves the store as it was; the index
    [evidence_assets] is left as it was or gets one row whose [id] it did
    not hold, the latter exactly when the answer is 201.  So the ids of the
    index stay distinct, and every row keeps pointing at an object of the
    bucket. *)
Theorem evidence_index_is_append_only (req : EvidenceRequest) (s : Store) :
  let res := fst (fetch_v2_evidence_upload req s) in
  let s' := snd (fetch_v2_evidence_upload req s) in
  In (http_status res) [201; 400; 401; 500]
  /\ (In (http_status res) [400; 401] -> s' = s)
  /\ (evidence_assets s' = evidence_assets s
      \/ exists row,
           evidence_assets s' = (evidence_assets s ++ [row])%list
           /\ ~ In (asset_id row) (map asset_id (evidence_assets s))
           /\ http_status res = 201)
  /\ (http_status res = 201 ->
      exists row, evidence_assets s' = (evidence_assets s ++ [row])%list)
  /\ (unique_asset_ids s -> unique_asset_ids s')
  /\ (index_backed s -> index_backed s').
Proof. apply upload_index. Qed.

(** *** Reading *)

Lemma evidence_get_cases (pathname : string) (req : EvidenceRequest) (s : Store) :
  let id := Js.trim (after_evidence_prefix pathname) in
  let res := fst (fetch_v2_evidence_get pathname req s) in
  snd (fetch_v2_evidence_get pathname req s) = s
  /\ In (evidence_status res) [200; 400; 401; 404]
  /\ (id = "" -> res = Answer (badRequest "Missing evidence id" JUndefined))
  /\ (id <> "" -> ~ keyed req -> res = Answer unauthorized)
  /\ (id <> "" -> keyed req -> ~ In id (map asset_id (evidence_assets s)) ->
      res = Answer not_found)
  /\ (evidence_status res = 200 ->
      keyed req
      /\ exists row obj headers,
           In row (evidence_assets s) /\ asset_id row = id
           /\ bucket_lookup (EVIDENCE_BUCKET s) (asset_r2_key row) = Some obj
           /\ res = ServedFile headers (r2_body obj))
  /\ (id <> "" -> keyed req -> index_backed s ->
      In id (map asset_id (evidence_assets s)) ->
      evidence_status res = 200).
Proof.
  cbv zeta. unfold fetch_v2_evidence_get.
  set (id := Js.trim (after_evidence_prefix pathname)).
  destruct (id =? "")%string eqn:He.
  { apply String.eqb_eq in He. cbn [fst snd evidence_status badRequest v2Json http_status].
    split; [reflexivity|]. split; [cbn; auto|]. split; [reflexivity|].
    split; [intros H; contradiction|]. split; [intros H; contradiction|].
    split; [discriminate|]. intros H; contradiction. }
  apply String.eqb_neq in He.
  unfold handleEvidenceGet, keyed.
  destruct (evidence_auth req) as [authErr|] eqn:Hauth.
  { rewrite (evidence_auth_refusal _ _ Hauth).
    cbn [st_ret fst snd evidence_status unauthorized http_status].
    split; [reflexivity|]. split; [cbn; auto|]. split; [intros H; contradiction|].
    split; [reflexivity|]. split; [intros _ H; discriminate|].
    split; [discriminate|]. intros _ H; discriminate. }
  rewrite st_bind_run. unfold first_asset.
  destruct (find (fun r => (asset_id r =? id)%string) (evidence_assets s)) as [row|]
    eqn:Hrow.
  2:{ cbn [st_ret fst snd evidence_status not_found http_status].
      split; [reflexivity|]. split; [cbn; auto 6|]. split; [intros H; contradiction|].
      split; [intros _ H; contradiction H; reflexivity|]. split; [reflexivity|].
      split; [discriminate|].
      intros _ _ _ Hin. destruct (first_asset_some _ _ Hin) as [r [Hr _]].
      rewrite Hrow in Hr. discriminate. }
  pose proof (find_some _ _ Hrow) as [Hin Hid]. apply String.eqb_eq in Hid.
  rewrite st_bind_run. unfold bucket_get.
  destruct (bucket_lookup (EVIDENCE_BUCKET s) (asset_r2_key row)) as [obj|] eqn:Hobj.
  2:{ cbn [st_ret fst snd evidence_status not_found http_status].
      split; [reflexivity|]. split; [cbn; auto 6|]. split; [intros H; contradiction|].
      split; [intros _ H; contradiction H; reflexivity|]. split; [reflexivity|].
      split; [discriminate|].
      intros _ _ Hinv _. exfalso. exact (Hinv row Hin Hobj). }
  cbn [st_ret fst snd evidence_status].
  split; [reflexivity|]. split; [cbn; auto|]. split; [intros H; contradiction|].
  split; [intros _ H; contradiction H; reflexivity|].
  split.
  { intros _ _ Hnot. exfalso. apply Hnot. rewrite <- Hid. apply in_map, Hin. }
  split; [|reflexivity].
  intros _. split; [reflexivity|]. exists row, obj. eexists.
  repeat split; [exact Hin | exact Hid | exact Hobj].
Qed.

(** A request to [GET /v2/evidence/...] changes nothing in the store, and
    its answer is 200, 400, 401 or 404.  A path without an id is answered
    400, with or without the shared secret; with an id, a request without
    the secret is answered 401, and one with it 404 when the index does
    not hold the id.  A file is served only to a request with the secret,
    and it is the object that the row of that id points at; when every
    row points at an object, every id of the index is served. *)
Theorem reading_evidence_changes_nothing
        (pathname : string) (req : EvidenceRequest) (s : Store) :
  let id := Js.trim (after_evidence_prefix pathname) in
  let res := fst (fetch_v2_evidence_get pathname req s) in
  snd (fetch_v2_evidence_get pathname req s) = s
  /\ In (evidence_status res) [200; 400; 401; 404]
  /\ (id = "" -> res = Answer (badRequest "Missing evidence id" JUndefined))
  /\ (id <> "" -> ~ keyed req -> res = Answer unauthorized)
  /\ (id <> "" -> keyed req -> ~ In id (map asset_id (evidence_assets s)) ->
      res = Answer not_found)
  /\ (evidence_status res = 200 ->
      keyed req
      /\ exists row obj headers,
           In row (evidence_assets s) /\ asset_id row = id
           /\ bucket_lookup (EVIDENCE_BUCKET s) (asset_r2_key row) = Some obj
           /\ res = ServedFile headers (r2_body obj))
  /\ (id <> "" -> keyed req -> index_backed s ->
      In id (map asset_id (evidence_assets s)) ->
      evidence_status res = 200).
Proof. apply evidence_get_cases. Qed.

End Evidence.

Close Scope st_scope.

(* ------------------------------------------------------------------ *)
(** * The encoding of the app token in [src/index.ts]                   *)
(* ------------------------------------------------------------------ *)

(** [b64url] turns bytes into the text of a JWT segment.  A string of the
    model is its bytes, so [new TextEncoder().encode] and
    [String.fromCharCode] over the bytes leave it as it is. *)

Open Scope st_scope.

(** The n-th character of the base64 alphabet. *)
Definition base64_digit (n : nat) : ascii :=
  if (n <? 26)%nat then ascii_of_nat (65 + n)
  else if (n <? 52)%nat then ascii_of_nat (97 + (n - 26))
  else if (n <? 62)%nat then ascii_of_nat (48 + (n - 52))
  else if (n =? 62)%nat then "+"%char
  else "/"%char.

(** [btoa(binary)]: three bytes give four characters; one or two bytes
    left over give two or three, padded with [=]. *)
Fixpoint btoa (binary : string) : string :=
  match binary with
  | EmptyString => EmptyString
  | String a EmptyString =>
      let x := nat_of_ascii a in
      String (base64_digit (x / 4)) (String (base64_digit (x mod 4 * 16)) "==")
  | String a (String b EmptyString) =>
      let x := nat_of_ascii a in
      let y := nat_of_ascii b in
      String (base64_digit (x / 4))
        (String (base64_digit (x mod 4 * 16 + y / 16))
           (String (base64_digit (y mod 16 * 4)) "="))
  | String a (String b (String c rest)) =>
      let x := nat_of_ascii a in
      let y := nat_of_ascii b in
      let z := nat_of_ascii c in
      String (base64_digit (x / 4))
        (String (base64_digit (x mod 4 * 16 + y / 16))
           (String (base64_digit (y mod 16 * 4 + z / 64))
              (String (base64_digit (z mod 64)) (btoa rest))))
  end.

Definition replace_one (x y c : ascii) : ascii := if Ascii.eqb c x then y else c.

(** [s.replace(/x/g, y)] for characters [x] and [y]. *)
Fixpoint replace_char (x y : ascii) (s : string) : string :=
  match s with
  | EmptyString => EmptyString
  | String c r => String (replace_one x y c) (replace_char x y r)
  end.

(** [s.replace(/=+$/g, "")]. *)
Fixpoint strip_equals (s : string) : string :=
  match s with
  | EmptyString => EmptyString
  | String c r =>
      let r' := strip_equals r in
      if Ascii.eqb c "=" && (r' =? "")%string then EmptyString else String c r'
  end.

Definition b64url (bytes : string) : string :=
  strip_equals (replace_char "/" "_" (replace_char "+" "-" (btoa bytes))).

(** ** Notions used by the statements *)

(** A letter, a digit, [-] or [_]. *)
Definition url_safe (c : ascii) : bool :=
  let n := nat_of_ascii c in
  ((65 <=? n) && (n <=? 90) || (97 <=? n) && (n <=? 122) || (48 <=? n) && (n <=? 57)
   || (n =? 45) || (n =? 95))%nat.

(** The n-th character of the alphabet of [b64url]. *)
Definition url_digit (n : nat) : ascii :=
  replace_one "/" "_" (replace_one "+" "-" (base64_digit n)).

(** ** Properties of the encoding *)

Lemma below_64 (P : nat -> bool) :
  forallb P (seq 0 64) = true -> forall n, (n < 64)%nat -> P n = true.
Proof.
  intros Hall n Hn. rewrite forallb_forall in Hall. apply Hall, in_seq. lia.
Qed.

Lemma url_digit_safe (n : nat) : url_safe (url_digit n) = true.
Proof.
  destruct (Nat.lt_ge_cases n 64) as [Hlt | Hge].
  - revert n Hlt. apply below_64. vm_compute. reflexivity.
  - unfold url_digit, base64_digit.
    destruct (Nat.ltb_spec n 26); [lia|]. destruct (Nat.ltb_spec n 52); [lia|].
    destruct (Nat.ltb_spec n 62); [lia|]. destruct (Nat.eqb_spec n 62); [lia|].
    reflexivity.
Qed.

Lemma url_digit_inj (n m : nat) :
  (n < 64)%nat -> (m < 64)%nat -> url_digit n = url_digit m -> n = m.
Proof.
  intros Hn Hm Heq.
  assert (Hcheck : forallb (fun i => forallb (fun j =>
                      implb (Ascii.eqb (url_digit i) (url_digit j)) (i =? j)%nat)
                      (seq 0 64)) (seq 0 64) = true) by (vm_compute; reflexivity).
  pose proof (below_64 _ Hcheck n Hn) as Hrow. cbv beta in Hrow.
  pose proof (below_64 _ Hrow m Hm) as Hcell. cbv beta in Hcell.
  rewrite Heq, Ascii.eqb_refl in Hcell. apply Nat.eqb_eq, Hcell.
Qed.

Lemma url_safe_not_equals (c : ascii) : url_safe c = true -> Ascii.eqb c "=" = false.
Proof.
  intros Hc. destruct (Ascii.eqb c "=") eqn:He; [|reflexivity].
  apply Ascii.eqb_eq in He. subst c. discriminate Hc.
Qed.

Lemma strip_equals_digit (n : nat) (r : string) :
  strip_equals (String (url_digit n) r) = String (url_digit n) (strip_equals r).
Proof.
  cbn [strip_equals]. rewrite (url_safe_not_equals _ (url_digit_safe n)). reflexivity.
Qed.

Lemma b64url_nil : b64url "" = "".
Proof. reflexivity. Qed.

Lemma b64url_one (a : ascii) :
  b64url (String a "")
  = String (url_digit (nat_of_ascii a / 4))
      (String (url_digit (nat_of_ascii a mod 4 * 16)) "").
Proof.
  unfold b64url. cbn [btoa replace_char]. fold (url_digit (nat_of_ascii a / 4)).
  fold (url_digit (nat_of_ascii a mod 4 * 16)).
  rewrite !strip_equals_digit. reflexivity.
Qed.

Lemma b64url_two (a b : ascii) :
  b64url (String a (String b ""))
  = String (url_digit (nat_of_ascii a / 4))
      (String (url_digit (nat_of_ascii a mod 4 * 16 + nat_of_ascii b / 16))
         (String (url_digit (nat_of_ascii b mod 16 * 4)) "")).
Proof.
  unfold b64url. cbn [btoa replace_char]. fold (url_digit (nat_of_ascii a / 4)).
  fold (url_digit (nat_of_ascii a mod 4 * 16 + nat_of_ascii b / 16)).
  fold (url_digit (nat_of_ascii b mod 16 * 4)).
  rewrite !strip_equals_digit. reflexivity.
Qed.

Lemma b64url_three (a b c : ascii) (rest : string) :
  b64url (String a (String b (String c rest)))
  = String (url_digit (nat_of_ascii a / 4))
      (String (url_digit (nat_of_ascii a mod 4 * 16 + nat_of_ascii b / 16))
         (String (url_digit (nat_of_ascii b mod 16 * 4 + nat_of_ascii c / 64))
            (String (url_digit (nat_of_ascii c mod 64)) (b64url rest)))).
Proof.
  unfold b64url. cbn [btoa replace_char]. fold (url_digit (nat_of_ascii a / 4)).
  fold (url_digit (nat_of_ascii a mod 4 * 16 + nat_of_ascii b / 16)).
  fold (url_digit (nat_of_ascii b mod 16 * 4 + nat_of_ascii c / 64)).
  fold (url_digit (nat_of_ascii c mod 64)).
  rewrite !strip_equals_digit. reflexivity.
Qed.

(** Induction over a string three characters at a time. *)
Lemma by_triples (P : string -> Prop) :
  P "" ->
  (forall a, P (String a "")) ->
  (forall a b, P (String a (String b ""))) ->
  (forall a b c rest, P rest -> P (String a (String b (String c rest)))) ->
  forall s, P s.
Proof.
  intros H0 H1 H2 H3 s.
  assert (H : P s /\ (forall a, P (String a s)) /\ (forall a b, P (String a (String b s)))).
  { induction s as [|c s [IH0 [IH1 IH2]]].
    - split; [exact H0|]. split; [exact H1 | exact H2].
    - split; [apply IH1|]. split; [intros a; apply IH2|]. intros a b. apply H3, IH0. }
  apply H.
Qed.

Lemma b64url_safe_and_long (bytes : string) :
  all_chars url_safe (b64url bytes) = true
  /\ String.length (b64url bytes) = ((4 * String.length bytes + 2) / 3)%nat.
Proof.
  induction bytes as [| a | a b | a b c rest [IHsafe IHlen]] using by_triples.
  - split; reflexivity.
  - rewrite b64url_one. cbn [all_chars]. rewrite !url_digit_safe. split; reflexivity.
  - rewrite b64url_two. cbn [all_chars]. rewrite !url_digit_safe. split; reflexivity.
  - rewrite b64url_three. cbn [all_chars String.length]. rewrite !url_digit_safe, IHsafe.
    split; [reflexivity|]. rewrite IHlen.
    replace (4 * S (S (S (String.length rest))) + 2)%nat
      with (4 * String.length rest + 2 + 4 * 3)%nat by lia.
    rewrite Nat.div_add by lia. lia.
Qed.

Ltac split_byte a k :=
  let q := fresh "q" in
  let r := fresh "r" in
  pose proof (Nat.div_mod_eq a k);
  pose proof (Nat.mod_upper_bound a k ltac:(lia));
  set (q := (a / k)%nat) in *; set (r := (a mod k)%nat) in *;
  clearbody q r.

Lemma byte_below (a : ascii) : (nat_of_ascii a < 256)%nat.
Proof. apply nat_ascii_bounded. Qed.

Lemma same_byte (a a' : ascii) : nat_of_ascii a = nat_of_ascii a' -> a = a'.
Proof.
  intros H. rewrite <- (ascii_nat_embedding a), <- (ascii_nat_embedding a'), H.
  reflexivity.
Qed.

Lemma sextets_below (a b c : ascii) :
  let x := nat_of_ascii a in
  let y := nat_of_ascii b in
  let z := nat_of_ascii c in
  (x / 4 < 64 /\ x mod 4 * 16 < 64 /\ x mod 4 * 16 + y / 16 < 64
   /\ y mod 16 * 4 < 64 /\ y mod 16 * 4 + z / 64 < 64 /\ z mod 64 < 64)%nat.
Proof.
  cbv zeta.
  pose proof (byte_below a). pose proof (byte_below b). pose proof (byte_below c).
  split_byte (nat_of_ascii a) 4%nat. split_byte (nat_of_ascii b) 16%nat.
  split_byte (nat_of_ascii c) 64%nat. lia.
Qed.

Lemma bytes_of_sextets (a b c a' b' c' : ascii) :
  let x := nat_of_ascii a in
  let y := nat_of_ascii b in
  let z := nat_of_ascii c in
  let x' := nat_of_ascii a' in
  let y' := nat_of_ascii b' in
  let z' := nat_of_ascii c' in
  ((x / 4 = x' / 4 -> x mod 4 * 16 = x' mod 4 * 16 -> a = a')
   /\ (x / 4 = x' / 4 -> x mod 4 * 16 + y / 16 = x' mod 4 * 16 + y' / 16 ->
       y mod 16 * 4 = y' mod 16 * 4 -> a = a' /\ b = b')
   /\ (x / 4 = x' / 4 -> x mod 4 * 16 + y / 16 = x' mod 4 * 16 + y' / 16 ->
       y mod 16 * 4 + z / 64 = y' mod 16 * 4 + z' / 64 -> z mod 64 = z' mod 64 ->
       a = a' /\ b = b' /\ c = c'))%nat.
Proof.
  cbv zeta.
  pose proof (byte_below a). pose proof (byte_below b). pose proof (byte_below c).
  pose proof (byte_below a'). pose proof (byte_below b'). pose proof (byte_below c').
  pose proof (same_byte a a') as Sa. pose proof (same_byte b b') as Sb.
  pose proof (same_byte c c') as Sc.
  split_byte (nat_of_ascii a) 4%nat. split_byte (nat_of_ascii b) 16%nat.
  split_byte (nat_of_ascii c) 64%nat. split_byte (nat_of_ascii a') 4%nat.
  split_byte (nat_of_ascii b') 16%nat. split_byte (nat_of_ascii c') 64%nat.
  split; [intros; apply Sa; lia|].
  split; [intros; split; [apply Sa | apply Sb]; lia|].
  intros; split; [apply Sa | split; [apply Sb | apply Sc]]; lia.
Qed.

Lemma b64url_inj (x y : string) : b64url x = b64url y -> x = y.
Proof.
  revert y. induction x as [| a | a b | a b c rest IH] using by_triples;
    intros [|a' [|b' [|c' rest']]];
    rewrite ?b64url_nil, ?b64url_one, ?b64url_two, ?b64url_three;
    intros H; try discriminate H; try reflexivity.
  - injection H as H1 H2.
    destruct (sextets_below a a a) as [B1 [B2 _]].
    destruct (sextets_below a' a' a') as [B1' [B2' _]].
    apply (url_digit_inj _ _ B1 B1') in H1. apply (url_digit_inj _ _ B2 B2') in H2.
    destruct (bytes_of_sextets a a a a' a' a') as [Hbytes _].
    rewrite (Hbytes H1 H2). reflexivity.
  - injection H as H1 H2 H3.
    destruct (sextets_below a b b) as [B1 [_ [B2 [B3 _]]]].
    destruct (sextets_below a' b' b') as [B1' [_ [B2' [B3' _]]]].
    apply (url_digit_inj _ _ B1 B1') in H1. apply (url_digit_inj _ _ B2 B2') in H2.
    apply (url_digit_inj _ _ B3 B3') in H3.
    destruct (bytes_of_sextets a b b a' b' b') as [_ [Hbytes _]].
    destruct (Hbytes H1 H2 H3) as [-> ->]. reflexivity.
  - injection H as H1 H2 H3 H4 Hrest.
    destruct (sextets_below a b c) as [B1 [_ [B2 [_ [B3 B4]]]]].
    destruct (sextets_below a' b' c') as [B1' [_ [B2' [_ [B3' B4']]]]].
    apply (url_digit_inj _ _ B1 B1') in H1. apply (url_digit_inj _ _ B2 B2') in H2.
    apply (url_digit_inj _ _ B3 B3') in H3. apply (url_digit_inj _ _ B4 B4') in H4.
    destruct (bytes_of_sextets a b c a' b' c') as [_ [_ Hbytes]].
    destruct (Hbytes H1 H2 H3 H4) as [-> [-> ->]].
    rewrite (IH rest' Hrest). reflexivity.
Qed.

(** Whatever the bytes, [b64url] gives a text of letters, digits, [-] and
    [_] only (no [+], [/], [=] and no dot), four characters for every
    three bytes and two or three for one or two bytes left over. *)
Theorem b64url_is_url_safe (bytes : string) :
  all_chars url_safe (b64url bytes) = true
  /\ String.length (b64url bytes) = ((4 * String.length bytes + 2) / 3)%nat.
Proof. apply b64url_safe_and_long. Qed.

(** [b64url] loses nothing: two byte strings with the same encoding are
    the same. *)
Theorem b64url_is_injective (x y : string) : b64url x = b64url y -> x = y.
Proof. apply b64url_inj. Qed.

(** ** The app JWT *)

Section AppJwt.

(** [Number(s)] for a string [s], as for the event route. *)
Variable Number_of_string : string -> option Z.

(** [Math.floor(Date.now() / 1000)] when the token is made. *)
Variable now : Z.

(** [importPrivateKey(pem)] and then [crypto.subtle.sign] with the
    imported key over the bytes of a text: the signature, or what either
    of them throws. *)
Variable sign : string -> string -> outcome string.

(** The bindings of [Env] that [createAppJwt] reads. *)
Variable GH_APP_ID : string.
Variable GH_PRIVATE_KEY_PEM : string.

Definition createAppJwt : outcome string :=
  let header := JObj [("alg", JStr "RS256"); ("typ", JStr "JWT")] in
  let payload :=
    JObj [ ("iat", JNum (now - 30));
           ("exp", JNum (now + 9 * 60));
           ("iss", match Number_of_string GH_APP_ID with
                   | Some n => JNum n
                   | None => JNull
                   end) ] in
  let encodedHeader := b64url (Js.stringify header) in
  let encodedPayload := b64url (Js.stringify payload) in
  let toSign := encodedHeader ++ "." ++ encodedPayload in
  sig <~ sign GH_PRIVATE_KEY_PEM toSign ;;
  Return (toSign ++ "." ++ b64url sig).

Lemma returned {A} (a b : A) : Return a = Return b -> a = b.
Proof. intros H. injection H as H. exact H. Qed.

Lemma createAppJwt_segments (jwt : string) :
  createAppJwt = Return jwt ->
  exists iss payload sig,
    payload = b64url (Js.stringify (JObj [ ("iat", JNum (now - 30));
                                           ("exp", JNum (now + 540));
                                           ("iss", iss) ]))
    /\ sign GH_PRIVATE_KEY_PEM ("eyJhbGciOiJSUzI1NiIsInR5cCI6IkpXVCJ9." ++ payload)
       = Return sig
    /\ jwt = "eyJhbGciOiJSUzI1NiIsInR5cCI6IkpXVCJ9." ++ payload ++ "." ++ b64url sig
    /\ all_chars url_safe payload = true
    /\ all_chars url_safe (b64url sig) = true.
Proof.
  unfold createAppJwt. cbv zeta.
  change (b64url (Js.stringify (JObj [("alg", JStr "RS256"); ("typ", JStr "JWT")])))
    with "eyJhbGciOiJSUzI1NiIsInR5cCI6IkpXVCJ9".
  change (9 * 60) with 540.
  set (iss := match Number_of_string GH_APP_ID with
              | Some n => JNum n
              | None => JNull
              end).
  set (payload := b64url (Js.stringify (JObj [ ("iat", JNum (now - 30));
                                               ("exp", JNum (now + 540));
                                               ("iss", iss) ]))).
  change ("eyJhbGciOiJSUzI1NiIsInR5cCI6IkpXVCJ9" ++ "." ++ payload)
    with ("eyJhbGciOiJSUzI1NiIsInR5cCI6IkpXVCJ9." ++ payload).
  destruct (sign GH_PRIVATE_KEY_PEM ("eyJhbGciOiJSUzI1NiIsInR5cCI6IkpXVCJ9." ++ payload))
    as [sig | err] eqn:Hsign; [|discriminate].
  unfold obind. intros H. apply returned in H. subst jwt.
  exists iss, payload, sig.
  split; [reflexivity|]. split; [exact Hsign|].
  split.
  { apply append_assoc. }
  split; apply b64url_safe_and_long.
Qed.

(** A JWT that [createAppJwt] returns is three texts joined by two dots:
    the constant [eyJhbGciOiJSUzI1NiIsInR5cCI6IkpXVCJ9], the encoding of
    the claims (issued 30 seconds before now, expiring 540 seconds after
    now), and the encoding of the signature over the first two and the
    dot between them.  The second and the third consist of letters,
    digits, [-] and [_], so the two dots are the only ones. *)
Theorem app_jwt_has_three_url_safe_segments (jwt : string) :
  createAppJwt = Return jwt ->
  exists iss payload sig,
    payload = b64url (Js.stringify (JObj [ ("iat", JNum (now - 30));
                                           ("exp", JNum (now + 540));
                                           ("iss", iss) ]))
    /\ sign GH_PRIVATE_KEY_PEM ("eyJhbGciOiJSUzI1NiIsInR5cCI6IkpXVCJ9." ++ payload)
       = Return sig
    /\ jwt = "eyJhbGciOiJSUzI1NiIsInR5cCI6IkpXVCJ9." ++ payload ++ "." ++ b64url sig
    /\ all_chars url_safe payload = true
    /\ all_chars url_safe (b64url sig) = true.
Proof. apply createAppJwt_segments. Qed.

End AppJwt.

Close Scope st_scope.

(* ------------------------------------------------------------------ *)
(** * The scenarios of the specification, run                           *)
(* ------------------------------------------------------------------ *)

Module Scenarios.

Import Examples.

Notation serve forge_ req w :=
  (fetch_v2_events number parse digest clock forge_ env req w).

(** The regular expressions of the validator. *)
Example repo_slugs :
  map isRepoSlug ["acme/web"; "acme"; "a/b/c"; "/web"; "acme/"]
  = [true; false; false; false; false].
Proof. reflexivity. Qed.

Example hex_shas :
  map isHexSha ["abc1234"; "ABC1234def"; "abc123"; "xyz1234"] = [true; true; false; false].
Proof. reflexivity. Qed.

(** [String] on values that are not strings. *)
Example coercions :
  map Js.String [JArr [JStr "P0"]; JNum 12345; JBool true; JObj []; JNull; JArr [JNull; JNum 1]]
  = ["P0"; "12345"; "true"; "[object Object]"; "null"; ",1"].
Proof. reflexivity. Qed.

(** The marker is one line. *)
Example marker_is_one_line : Js.includes RELAY_STATUS_MARKER LF = false.
Proof. reflexivity. Qed.

(** Lengths are counted in UTF-16 code units: a CJK character and an
    accented letter are one unit each, an emoji outside the basic plane is
    two. *)
Example code_units :
  map Js.length ["abc"; "日本"; "évt-001"; "😀"; ""] = [3; 2; 7; 2; 0]%nat.
Proof. reflexivity. Qed.

(** [trim] strips the white space of ECMAScript, not only the ASCII one:
    here a no-break space (U+00A0), ideographic spaces (U+3000), a byte
    order mark (U+FEFF) and a line separator (U+2028). *)
Example unicode_trim :
  let nbsp := String "194" (String "160" "") in
  let ideographic := String "227" (String "128" (String "128" "")) in
  let bom := String "239" (String "187" (String "191" "")) in
  let line_separator := String "226" (String "128" (String "168" "")) in
  map Js.trim [" a b "; nbsp; ideographic ++ "日本" ++ ideographic;
               bom ++ "x" ++ line_separator; "é " ++ nbsp; "a" ++ nbsp ++ "b"]
  = ["a b"; ""; "日本"; "x"; "é"; "a" ++ nbsp ++ "b"].
Proof. reflexivity. Qed.

(** An identifier of seven characters is too short, whatever the number of
    its bytes; so is a two-character account of the steps. *)
Example short_identifier_is_refused :
  validateEvent number
    (JObj [ ("event_id", JStr "évt-001"); ("repo", JStr "acme/web");
            ("issue_number", JNum 42); ("role", JStr "QA"); ("agent", JStr "qa-bot");
            ("event_type", JStr "qa.result_submitted") ])
  = Return (Invalid "event_id is required (min length 8)").
Proof. vm_compute. reflexivity. Qed.

Example short_steps_are_refused :
  validateEvent number
    (JObj [ ("event_id", JStr "evt-00000009"); ("repo", JStr "acme/web");
            ("issue_number", JNum 42); ("role", JStr "QA"); ("agent", JStr "qa-bot");
            ("event_type", JStr "qa.result_submitted");
            ("overall_verdict", JStr "FAIL"); ("severity", JStr "P1");
            ("repro_steps", JStr "日本"); ("expected", JStr "shown");
            ("actual", JStr "blank") ])
  = Return (Invalid "repro_steps is required for FAIL/BLOCKED (min length 3)").
Proof. vm_compute. reflexivity. Qed.

(** The validator accepts scenario 1 and lower-cases the SHA. *)
Example validates_pass : validateEvent number payload_pass = Return (Valid event_pass).
Proof. vm_compute. reflexivity. Qed.

(** Scenario 1, happy path: 201, verdict PASS, verified, a comment is
    created and the labels of scenario 6 are written. *)
Example scenario_happy_path :
  let run := serve (forge_with_head "abc1234def") (request_of payload_pass) empty_world in
  fst run = stored_response event_pass "1001" (JStr "PASS") (Some true)
  /\ map row_overall_verdict (events (db (snd run))) = [JStr "PASS"]
  /\ map map_comment_id (relay_status_comment (db (snd run))) = ["1001"]
  /\ last (calls (snd run)) MintToken
     = PutLabels "acme/web" 42 [JStr "prio:P1"; JStr "status:verified"].
Proof. vm_compute. repeat split; reflexivity. Qed.

(** Scenario 2, provenance downgrade. *)
Example scenario_downgrade :
  let run := serve (forge_with_head "ffffffffff") (request_of payload_pass) empty_world in
  fst run = stored_response event_pass "1001" (JStr "PASS_UNVERIFIED") (Some false)
  /\ map row_overall_verdict (events (db (snd run))) = [JStr "PASS_UNVERIFIED"].
Proof. vm_compute. repeat split; reflexivity. Qed.

(** An event without a build: no pull request is fetched, the provenance
    flag is [null] and there is no verdict to store or to answer. *)
Example scenario_no_build :
  let run := serve (forge_with_head "abc1234def") (request_of payload_nobuild) empty_world in
  fst run = stored_response event_nobuild "1001" JUndefined None
  /\ map row_overall_verdict (events (db (snd run))) = [JNull]
  /\ firstn 2 (calls (snd run)) = [MintToken; GetIssue "acme/web" 42].
Proof. vm_compute. repeat split; reflexivity. Qed.

(** The first tier of the upsert: the mapped comment is updated, its row
    gets the time of the update, and nothing is listed or created. *)
Example upsert_of_mapped_comment :
  upsertRollingComment clock (forge_with_head "abc1234def") (JStr "ghs_token")
    "acme/web" 42 "body" mapped_world
  = (Return "77",
     {| db := {| events := [];
                 relay_status_comment :=
                   [ {| map_repo := "acme/web"; map_issue_number := 42;
                        map_comment_id := "77"; map_updated_at := clock 1 |} ] |};
        calls := [UpdateComment "acme/web" "77" "body"];
        ticks := 2 |}).
Proof. vm_compute. reflexivity. Qed.

(** Scenario 4: the same [event_id] with another payload is a 409 and
    nothing is written. *)
Example scenario_conflict :
  let w := world_with (stored_pass "PASS" "sha256:other") in
  let run := serve (forge_with_head "abc1234def") (request_of payload_pass) w in
  http_status (fst run) = 409 /\ snd run = w.
Proof. vm_compute. split; reflexivity. Qed.

(** Scenario 5: FAIL without severity is a 400 and nothing is written. *)
Example scenario_fail_without_severity :
  serve (forge_with_head "abc1234def") (request_of payload_fail_bare) empty_world
  = (badRequest "severity is required for FAIL/BLOCKED and must be P0|P1|P2|P3" JUndefined,
     empty_world).
Proof. vm_compute. reflexivity. Qed.

(** A [null] among the scope results makes the validator throw; the
    route answers 500, not 400. *)
Example null_scope_entry_is_a_500 :
  validateEvent number payload_fail_null_scope
  = Throw (TypeError "Cannot read properties of null or undefined: id")
  /\ http_status (fst (serve (forge_with_head "abc1234def")
                             (request_of payload_fail_null_scope) empty_world)) = 500.
Proof. vm_compute. split; reflexivity. Qed.

(** The body that scenario 2 renders. *)
Example renders_unverified :
  renderRelayStatusMarkdown render_input
  = Return (String.concat LF
      [ "<!-- RELAY_STATUS v2 -->";
        "";
        "## Relay Status — ISSUE #42";
        "";
        "### Current State";
        "- Status: `qa`";
        "- Labels: `status:qa`, `prio:P1`";
        "- Owner: @octocat";
        "";
        "### Build Provenance";
        "- Environment: `unknown`";
        "- PR: #7";
        "- Commit: `abc1234`";
        "- Provenance: UNVERIFIED (PR head: `fffffff`)";
        "";
        "### Latest Dev Update";
        "- Summary: n/a";
        "";
        "### Latest QA Result";
        "- Verdict: `PASS`";
        "- Scope:";
        "  - n/a";
        "- Evidence:";
        "  - n/a";
        "";
        "### Recent Activity";
        "- 07:08Z — qa.result_submitted — qa-bot";
        "" ]).
Proof. vm_compute. reflexivity. Qed.

End Scenarios.

(* ------------------------------------------------------------------ *)
(** * The properties at the scenarios                                   *)
(* ------------------------------------------------------------------ *)

(** Scenario 2 through C1: the head of the pull request is another commit,
    so the row and the answer hold PASS_UNVERIFIED, and the answer says
    that the provenance is not verified. *)
Lemma C1_witness :
  let run := fetch_v2_events Examples.number Examples.parse Examples.digest Examples.clock
               (Examples.forge_with_head "ffffffffff") Examples.env
               (Examples.request_of Examples.payload_pass) Examples.empty_world in
  map (fun row => (row_event_id row, row_overall_verdict row)) (events (db (snd run)))
  = [("evt-00000001", JStr "PASS_UNVERIFIED")]
  /\ exists commentId,
       fst run = {| http_status := 201;
                    http_body :=
                      BodyJson (JObj [ ("ok", JBool true);
                                       ("event_id", JStr "evt-00000001");
                                       ("stored", JBool true);
                                       ("rolling_comment_id", JStr commentId);
                                       ("verdict", JStr "PASS_UNVERIFIED");
                                       ("provenance_verified", JBool false) ]) |}.
Proof.
  intros run.
  destruct (C1_provenance_downgrade Examples.number Examples.parse Examples.digest
              Examples.clock (Examples.forge_with_head "ffffffffff") Examples.env
              (Examples.request_of Examples.payload_pass) Examples.empty_world
              Examples.payload_pass Examples.event_pass (JStr "ghs_token")) as [H _].
  - vm_compute. reflexivity.
  - vm_compute. reflexivity.
  - vm_compute. reflexivity.
  - reflexivity.
  - split; [reflexivity | eexists; split; reflexivity].
  - destruct (H {| commit_sha := "abc1234def"; pr := Some 7 |} 7 "ffffffffff"
                eq_refl eq_refl) with (res := fst run) (w' := snd run) as [_ [Hev Hres]].
    + split; [reflexivity | do 2 eexists; repeat split; reflexivity].
    + apply surjective_pairing.
    + split; [rewrite Hev; reflexivity|].
      destruct Hres as [commentId Hres]; [vm_compute; reflexivity|].
      exists commentId. rewrite Hres. reflexivity.
Defined.



(** Scenario 6 through C4: one fetch of the issue, one replacement of the
    label set. *)
Lemma C4_witness :
  snd (applyLabelRules Examples.parse (Examples.forge_with_head "abc1234def") Examples.env
         (JStr "ghs_token") "acme/web" 42 "qa.result_submitted" (JStr "PASS")
         Examples.empty_world)
  = after_calls Examples.empty_world
      [ GetIssue "acme/web" 42;
        PutLabels "acme/web" 42 [JStr "prio:P1"; JStr "status:verified"] ].
Proof.
  destruct (C4_label_transitions Examples.parse (Examples.forge_with_head "abc1234def")
              Examples.env (JStr "ghs_token") "acme/web" 42 "qa.result_submitted"
              (JStr "PASS") Examples.empty_world) as [_ [_ H]].
  destruct (H (Js.reparse Examples.rules)) as [_ Happly]; [vm_compute; reflexivity|].
  destruct (Happly (JObj [ ("add", JArr [JStr "status:verified"]);
                          ("remove", JArr [JStr "status:qa"]) ])
                   Examples.issue42
                   [JStr "status:qa"; JStr "prio:P1"]) as [Hcalls _].
  - vm_compute. reflexivity.
  - repeat split; reflexivity.
  - vm_compute. reflexivity.
  - apply (Hcalls (fst (applyLabelRules Examples.parse (Examples.forge_with_head "abc1234def")
                          Examples.env (JStr "ghs_token") "acme/web" 42
                          "qa.result_submitted" (JStr "PASS") Examples.empty_world))).
    apply surjective_pairing.
Defined.

(** C5, amended, at a forge that lists the status comment and refuses its
    update: the upsert throws. *)
Lemma C5_witness :
  fst (upsert_scan Examples.clock Examples.forge_refusing_update
         (JStr "ghs_token") "acme/web" 42 "body" Examples.empty_world)
  = Throw (Error "GitHub update comment error: 502 Bad Gateway").
Proof.
  destruct (C5_update_failure_by_path Examples.clock Examples.forge_refusing_update
              (JStr "ghs_token") "acme/web" 42 "body" Examples.empty_world) as [_ H].
  rewrite (H (fun _ => [Examples.marker_comment]) Examples.marker_comment).
  - reflexivity.
  - intros page. reflexivity.
  - intros later page. split; reflexivity.
  - reflexivity.
  - reflexivity.
Defined.

(** C5 as stated fails on the marker-scan path: the forge answers the
    update of the comment that the scan found with 502, and the pipeline
    ends with a 500 instead of going on to create a comment. *)
Lemma C5_counterexample :
  let run := fetch_v2_events Examples.number Examples.parse Examples.digest Examples.clock
               Examples.forge_refusing_update Examples.env
               (Examples.request_of Examples.payload_pass) Examples.empty_world in
  fst run = v2Json (JObj [ ("error", JStr "Internal error");
                           ("details", JStr "GitHub update comment error: 502 Bad Gateway") ])
                   500
  /\ exists body,
       calls (snd run)
       = [ MintToken; GetPull "acme/web" 7; GetIssue "acme/web" 42;
           ListComments "acme/web" 42 100 1; UpdateComment "acme/web" "77" body ].
Proof.
  vm_compute. split; [reflexivity | eexists; reflexivity].
Qed.

(** C6, amended, at scenario 1 with an unknown member: the validator
    gives what it gives without that member. *)
Lemma C6_witness :
  validateEvent Examples.number Examples.payload_extra
  = validateEvent Examples.number Examples.payload_pass.
Proof.
  apply (proj1 (C6_unknown_fields_are_dropped Examples.number
                  [ ("event_id", JStr "evt-00000001"); ("repo", JStr "acme/web") ]
                  [ ("issue_number", JNum 42);
                    ("role", JStr "QA");
                    ("agent", JStr "qa-bot");
                    ("event_type", JStr "qa.result_submitted");
                    ("overall_verdict", JStr "PASS");
                    ("build", JObj [("pr", JNum 7); ("commit_sha", JStr "ABC1234DEF")]) ]
                  "trace_id" (JStr "abc-123")
                  ltac:(simpl; intros H; repeat (destruct H as [H | H]; [discriminate H|]);
                        exact H))).
Defined.

(** C6 as stated fails: the payload is accepted, and the canonical payload
    has neither the name nor the value of its unknown member. *)
Lemma C6_counterexample :
  validateEvent Examples.number Examples.payload_extra = Return (Valid Examples.event_pass)
  /\ Js.prop Examples.payload_extra "trace_id" = JStr "abc-123"
  /\ Js.includes (payload_json_of Examples.event_pass) "trace_id" = false
  /\ Js.includes (payload_json_of Examples.event_pass) "abc-123" = false.
Proof.
  vm_compute. repeat split; reflexivity.
Qed.





(** Scenarios 2 and 3 through C10: the downgraded event keeps the caller's
    PASS in its payload, and its replay is idempotent. *)
Lemma C10_witness :
  let serve := fetch_v2_events Examples.number Examples.parse Examples.digest Examples.clock
                 (Examples.forge_with_head "ffffffffff") Examples.env
                 (Examples.request_of Examples.payload_pass) in
  let w' := snd (serve Examples.empty_world) in
  (exists row,
      events (db w') = [row]
      /\ row_overall_verdict row = JStr "PASS_UNVERIFIED"
      /\ carries_member (row_payload_json row) "overall_verdict" (JStr "PASS"))
  /\ fst (serve w') = idempotent_response Examples.event_pass
  /\ snd (serve w') = w'.
Proof.
  intros serve w'.
  destruct (C10_downgrade_leaves_payload Examples.number Examples.parse Examples.digest
              Examples.clock (Examples.forge_with_head "ffffffffff") Examples.env
              (Examples.request_of Examples.payload_pass) Examples.empty_world
              Examples.payload_pass Examples.event_pass (JStr "ghs_token"))
    with (pv := Some false) (ph := Some "ffffffffff") (eff := JStr "PASS_UNVERIFIED")
         (w2 := after_calls Examples.empty_world [MintToken; GetPull "acme/web" 7])
         (res := fst (serve Examples.empty_world)) (w' := w')
    as [[row [Hev [Hrow Hcarries]]] [_ Hreplay]].
  - vm_compute. reflexivity.
  - vm_compute. reflexivity.
  - vm_compute. reflexivity.
  - reflexivity.
  - split; [reflexivity | eexists; split; reflexivity].
  - vm_compute. reflexivity.
  - apply surjective_pairing.
  - split.
    + exists row. split; [exact Hev|]. split.
      * rewrite Hrow. reflexivity.
      * apply Hcarries. discriminate.
    + exact (Hreplay (fst (serve w')) (snd (serve w')) (surjective_pairing _)).
Defined.


(* ------------------------------------------------------------------ *)
(** * The further properties at examples                                *)
(* ------------------------------------------------------------------ *)

Module Cases.

(** The bindings, a forge and requests of the directive endpoints. *)
Definition env : DirectiveEnv :=
  {| GITHUB_TOKEN := "ghp_token"; RELAY_TOKEN := "r3lay";
     GITHUB_OWNER := "acme"; GITHUB_REPO := "web" |}.

Definition close_payload : value :=
  JObj [ ("issue", JNum 42); ("comment", JStr "Done in #7") ].

Definition labels_payload : value :=
  JObj [ ("issue", JNum 42);
         ("remove", JArr [JStr "status:qa"]);
         ("add", JArr [JStr "status:verified"]) ].

Definition directive_payload : value :=
  JObj [ ("to", JStr "dev");
         ("title", JStr "Fix the login form");
         ("body", JStr "The form rejects valid passwords.");
         ("labels", JArr [JStr "points:5"; JStr "component:dfg-app"]) ].

Definition directive_bare : value :=
  JObj [ ("to", JStr "dev");
         ("title", JStr "Fix the login form");
         ("body", JStr "The form rejects valid passwords.") ].

Definition parse : string -> option value :=
  Examples.parse_known [close_payload; labels_payload; directive_payload; directive_bare].

Definition post (origin : string) (payload : value) : HttpRequest :=
  {| req_method := "POST";
     req_authorization := Some "Bearer r3lay";
     req_origin := Some origin;
     req_text := Js.stringify payload |}.

(** A forge that accepts every call. *)
Definition github (history : list GitHubCall) (call : GitHubCall) : ForgeResponse :=
  match call with
  | CreateIssue _ _ _ _ _ =>
      Examples.ok_json (JObj [ ("number", JNum 43);
                               ("html_url", JStr "https://github.com/acme/web/issues/43") ])
  | GetLabels _ _ =>
      Examples.ok_json (JObj [ ("labels", JArr [ JObj [("name", JStr "prio:P1")];
                                                 JObj [("name", JStr "status:verified")] ]) ])
  | _ => Examples.ok_json (JObj [])
  end.

Definition hub : Hub := {| hub_calls := []; hub_ticks := 0 |}.

(** An upload and the request that reads it back. *)
Definition screenshot : FileBlob :=
  {| blob_name := "login.png"; blob_type := "image/png"; blob_bytes := "PNG-bytes" |}.

Definition upload : EvidenceRequest :=
  {| ev_relay_key := Some "s3cret";
     ev_content_type := Some "multipart/form-data; boundary=x";
     ev_url_origin := "https://relay.example";
     ev_form := Some [ ("repo", FormText "acme/web");
                       ("issue_number", FormText "42");
                       ("file", FormFile screenshot) ] |}.

Definition download : EvidenceRequest :=
  {| ev_relay_key := Some "s3cret";
     ev_content_type := None;
     ev_url_origin := "https://relay.example";
     ev_form := None |}.

Definition uuid (n : nat) : string := "uuid-" ++ Js.Z_to_string (Z.of_nat n).

Definition store : Store :=
  {| evidence_assets := []; EVIDENCE_BUCKET := []; store_ticks := 0; store_uuids := 0 |}.

(** A key that signs everything alike. *)
Definition sign (pem text : string) : outcome string := Return "signature".

End Cases.

(** The event of scenario 1 is well formed. *)
Lemma validated_event_is_wellformed_witness : wellformed Examples.event_pass.
Proof.
  apply (validated_event_is_wellformed Examples.number Examples.payload_pass).
  vm_compute. reflexivity.
Defined.

(** The canonical payload of scenario 1 validates to the same event. *)
Lemma canonical_payload_validates_to_itself_witness :
  validateEvent Examples.number (Js.reparse (RelayEvent_object Examples.event_pass))
  = Return (Valid (settled Examples.event_pass))
  /\ settled Examples.event_pass = Examples.event_pass.
Proof.
  destruct (canonical_payload_validates_to_itself
              Examples.number Examples.parse Examples.digest Examples.clock
              (Examples.forge_with_head "abc1234def") Examples.env
              Examples.payload_pass Examples.event_pass) as [H1 H2].
  - reflexivity.
  - vm_compute. reflexivity.
  - split; [exact H1|]. apply H2. discriminate.
Defined.

(** The owner and the name of [acme/web]. *)
Lemma splitRepo_of_a_slug_witness :
  exists o n, splitRepo "acme/web" = (JStr o, JStr n) /\ o ++ "/" ++ n = "acme/web".
Proof.
  destruct (splitRepo_of_a_slug "acme/web") as [o [n [H1 [H2 _]]]]; [reflexivity|].
  exists o, n. split; assumption.
Defined.

(** The first upsert at an issue records the comment it created. *)
Lemma upsert_records_the_comment_it_returns_witness :
  mapped_to "acme/web" 42 "1001"
    (snd (upsertRollingComment Examples.clock (Examples.forge_with_head "abc1234def")
            (JStr "ghs_token") "acme/web" 42 "body" Examples.empty_world)).
Proof.
  apply (upsert_records_the_comment_it_returns
           Examples.clock (Examples.forge_with_head "abc1234def")
           (JStr "ghs_token") "acme/web" 42 "body" Examples.empty_world).
  vm_compute. reflexivity.
Defined.

(** The second upsert at the issue updates comment 1001. *)
Lemma next_upsert_updates_the_same_comment_witness :
  let upsert := upsertRollingComment Examples.clock (Examples.forge_with_head "abc1234def")
                  (JStr "ghs_token") "acme/web" 42 in
  fst (upsert "second body" (snd (upsert "body" Examples.empty_world))) = Return "1001".
Proof.
  intros upsert.
  apply (next_upsert_updates_the_same_comment
           Examples.clock (Examples.forge_with_head "abc1234def")
           (JStr "ghs_token") "acme/web" 42 "body" "second body" Examples.empty_world).
  - vm_compute. reflexivity.
  - discriminate.
  - split; [reflexivity | discriminate].
Defined.

(** The transition of scenario 6, applied twice. *)
Lemma label_transition_is_idempotent_witness :
  let next current := next_labels current [JStr "status:verified"] [JStr "status:qa"] in
  next (next [JStr "status:qa"; JStr "prio:P1"]) = next [JStr "status:qa"; JStr "prio:P1"].
Proof.
  intros next. apply label_transition_is_idempotent;
    repeat (constructor; [eexists; reflexivity|]); constructor.
Defined.

(** The rendered status of scenario 2 is found behind another comment. *)
Lemma the_scan_finds_a_rendered_comment_witness :
  let body := match renderRelayStatusMarkdown Examples.render_input with
              | Return b => b
              | Throw _ => ""
              end in
  exists found,
    find_marker [ JObj [("id", JNum 5); ("body", JStr "Looks good to me")];
                  JObj [("id", JNum 77); ("body", JStr body)] ] = Return found
    /\ carries_marker found = true.
Proof.
  intros body.
  destruct (the_scan_finds_a_rendered_comment
              Examples.render_input body
              [JObj [("id", JNum 5); ("body", JStr "Looks good to me")]]
              (JObj [("id", JNum 77); ("body", JStr body)]) [])
    as [found [H1 [H2 _]]].
  - vm_compute. reflexivity.
  - reflexivity.
  - repeat constructor.
  - exists found. split; assumption.
Defined.

(** Closing issue 42 with a comment: the comment, then the close. *)
Lemma close_posts_the_comment_first_witness :
  snd (handleClose Cases.parse Cases.github Cases.env
         (Cases.post "http://localhost:3000" Cases.close_payload) Cases.hub)
  = hub_after Cases.hub [ AddComment "acme/web" "42" (JStr "Done in #7");
                          CloseIssue "acme/web" "42" ].
Proof.
  destruct (close_posts_the_comment_first Cases.parse Cases.github Cases.env
              (Cases.post "http://localhost:3000" Cases.close_payload) Cases.hub
              Cases.close_payload) as [_ H].
  - split; reflexivity.
  - vm_compute. reflexivity.
  - reflexivity.
  - destruct (H eq_refl) as [_ Hcomment].
    destruct (Hcomment eq_refl) as [Hclose _].
    rewrite (Hclose eq_refl). reflexivity.
Defined.

(** Moving issue 42 from [status:qa] to [status:verified]. *)
Lemma labels_are_removed_then_added_then_read_witness :
  handleLabels Cases.parse Examples.number Cases.github Cases.env
    (Cases.post "http://localhost:3000" Cases.labels_payload) Cases.hub
  = (Return (jsonResponse (Cases.post "http://localhost:3000" Cases.labels_payload)
               (JObj [ ("success", JBool true);
                       ("issue", JNum 42);
                       ("repo", JStr "acme/web");
                       ("labels", JArr [JStr "prio:P1"; JStr "status:verified"]) ]) 200),
     hub_after Cases.hub [ RemoveLabel "acme/web" "42" "status:qa";
                           AddLabels "acme/web" "42" (JArr [JStr "status:verified"]);
                           GetLabels "acme/web" "42" ]).
Proof.
  destruct (labels_are_removed_then_added_then_read
              Cases.parse Examples.number Cases.github Cases.env
              (Cases.post "http://localhost:3000" Cases.labels_payload) Cases.hub
              Cases.labels_payload [JStr "status:qa"] [JStr "status:verified"]) as [H _].
  - split; reflexivity.
  - vm_compute. reflexivity.
  - reflexivity.
  - reflexivity.
  - reflexivity.
  - apply (H (JObj [ ("labels", JArr [ JObj [("name", JStr "prio:P1")];
                                       JObj [("name", JStr "status:verified")] ]) ])
             [JStr "prio:P1"; JStr "status:verified"]).
    + intros history call. destruct call; reflexivity.
    + intros history. reflexivity.
    + reflexivity.
Defined.


(** The same directive without labels: nothing is sent. *)
Lemma directive_without_labels_throws_before_the_forge_witness :
  handleDirective Cases.parse Examples.clock Cases.github Cases.env
    (Cases.post "http://localhost:3000" Cases.directive_bare) Cases.hub
  = (Throw (TypeError "is not iterable"), {| hub_calls := []; hub_ticks := 1 |}).
Proof.
  apply (directive_without_labels_throws_before_the_forge
           Cases.parse Examples.clock Cases.github Cases.env
           (Cases.post "http://localhost:3000" Cases.directive_bare) Cases.hub
           Cases.directive_bare "dev").
  - split; reflexivity.
  - vm_compute. reflexivity.
  - reflexivity.
  - reflexivity.
  - reflexivity.
  - discriminate.
  - reflexivity.
Defined.

(** The body [null] on [/close]: the handler throws and nothing is sent. *)
Lemma required_members_are_checked_first_witness :
  exists what,
    handleClose (Examples.parse_known [JNull]) Cases.github Cases.env
      (Cases.post "http://localhost:3000" JNull) Cases.hub
    = (Throw (TypeError what), Cases.hub).
Proof.
  destruct (required_members_are_checked_first
              (Examples.parse_known [JNull]) Examples.number Examples.clock Cases.github
              Cases.env (Cases.post "http://localhost:3000" JNull) Cases.hub JNull)
    as [H _].
  - split; reflexivity.
  - reflexivity.
  - destruct (H eq_refl) as [what [_ [_ [Hclose _]]]].
    exists (what ++ "issue"). exact Hclose.
Defined.


(** A screenshot, uploaded and read back. *)
Lemma uploaded_evidence_is_served_back_witness :
  let run := handleEvidenceUpload Examples.number Examples.clock Cases.uuid Examples.env
               Cases.upload Cases.store in
  handleEvidenceGet Examples.env Cases.download "uuid-0" (snd run)
  = (Return (ServedFile [ ("content-type", "image/png");
                          ("content-disposition", inline_disposition "login.png") ]
                        "PNG-bytes"),
     snd run).
Proof.
  intros run.
  destruct (uploaded_evidence_is_served_back
              Examples.number Examples.clock Cases.uuid Examples.env
              Cases.upload Cases.download Cases.store (snd run)
              (match fst run with
               | Return res => res
               | Throw _ => unauthorized
               end))
    as [form [file [id [data [Hform [Hfile [Hbody [Hid [_ [Hget _]]]]]]]]]].
  - vm_compute. reflexivity.
  - reflexivity.
  - reflexivity.
  - injection Hform as <-. vm_compute in Hfile. injection Hfile as <-.
    vm_compute in Hbody. injection Hbody as <-.
    vm_compute in Hid. injection Hid as <-.
    exact Hget.
Defined.

(** Two byte strings with the encoding [YWI] are the same. *)
Lemma b64url_is_injective_witness : "a" ++ "b" = "ab".
Proof. apply b64url_is_injective. vm_compute. reflexivity. Defined.

(** The JWT of app 12345. *)
Lemma app_jwt_has_three_url_safe_segments_witness :
  let jwt := match createAppJwt Examples.number 1700000000 Cases.sign "12345" "pem" with
             | Return text => text
             | Throw _ => ""
             end in
  exists payload signature,
    jwt = "eyJhbGciOiJSUzI1NiIsInR5cCI6IkpXVCJ9." ++ payload ++ "." ++ signature
    /\ all_chars url_safe payload = true
    /\ all_chars url_safe signature = true.
Proof.
  intros jwt.
  destruct (app_jwt_has_three_url_safe_segments
              Examples.number 1700000000 Cases.sign "12345" "pem" jwt)
    as [iss [payload [sig [_ [_ [Hjwt [Hpayload Hsig]]]]]]].
  - vm_compute. reflexivity.
  - exists payload, (b64url sig). repeat split; assumption.
Defined.
